(** * LazyProject / lazynote: the structural index of [GitAgent]

  A shallow embedding of [lazynote/agent/git_agent.py]: the tree renderer
  ([_generate_project_tree]), the [get_module_doc] tool, the entity
  extractor ([_process_module]), the package walker ([_process_package]),
  the filesystem scan ([_gen_module_dict]), the documentation flattener
  ([_generate_module_doc_dict]) and the cache eviction of
  [_update_module_dict].

  Python [str] is modelled by [string] (one [ascii] per character), Python
  [dict] by an insertion-ordered association list where the iteration
  order is observable, and by [gmap] where the dictionary is only looked
  up, inserted into and filtered. *)

From Stdlib Require Import Ascii.
From Stdlib Require String.
From stdpp Require Import base list sorting strings gmap.

#[local] Set Warnings "-clear-no-such-hyp".

(** * Part I: the embedding *)

(** ** Python string primitives *)

Module PyStr.

Definition newline_char : ascii := "010"%char.
Definition dot_char : ascii := "."%char.
Definition nl : string := String newline_char "".

(** [s.split(sep)] for a one-character separator: never empty. *)
Fixpoint split (sep : ascii) (s : string) : list string :=
  match s with
  | EmptyString => [EmptyString]
  | String c s' =>
      if Ascii.eqb c sep then EmptyString :: split sep s'
      else match split sep s' with
           | [] => [String c EmptyString]
           | w :: ws => String c w :: ws
           end
  end.

(** [sep.join(l)] *)
Definition join (sep : string) (l : list string) : string :=
  String.concat sep l.

(** [s.startswith(p)] *)
Definition startswith (s p : string) : bool := String.prefix p s.

(** [s.endswith(p)] *)
Definition endswith (s p : string) : bool :=
  String.prefix (String.rev p) (String.rev s).

(** [s.lstrip(c)] for a one-character set *)
Fixpoint lstrip (c : ascii) (s : string) : string :=
  match s with
  | EmptyString => EmptyString
  | String a s' => if Ascii.eqb a c then lstrip c s' else s
  end.

(** [s[:n]] *)
Fixpoint slice_to (n : nat) (s : string) : string :=
  match n, s with
  | S n', String a s' => String a (slice_to n' s')
  | _, _ => EmptyString
  end.

(** [s * n] *)
Fixpoint repeat_str (s : string) (n : nat) : string :=
  match n with
  | O => EmptyString
  | S n' => s +:+ repeat_str s n'
  end.

(** [s.replace(a, b)] for one-character [a] and [b] *)
Fixpoint replace_char (a b : ascii) (s : string) : string :=
  match s with
  | EmptyString => EmptyString
  | String c s' => String (if Ascii.eqb c a then b else c) (replace_char a b s')
  end.

(** [l[-1]] of a list of strings, with a default for the empty list
    (never reached after [split]). *)
Definition last_of (l : list string) : string := List.last l EmptyString.

(** The lines of a text: the empty text has none, any other text is cut at
    every newline character. *)
Definition lines (s : string) : list string :=
  match s with
  | EmptyString => []
  | _ => split newline_char s
  end.

Definition contains_char (c : ascii) (s : string) : bool :=
  existsb (Ascii.eqb c) (String.list_ascii_of_string s).

(** [sorted(pairs)] for pairs whose first components are distinct strings
  (the items of a dict, the names of a directory listing): the order is
  that of the first components, compared character by character. *)
Definition key_le {A} (x y : string * A) : Prop := String.le x.1 y.1.

Global Instance key_le_dec {A} : RelDecision (@key_le A).
Proof. intros x y. unfold key_le. apply _. Defined.

Definition sorted_items {A} (items : list (string * A)) : list (string * A) :=
  merge_sort key_le items.

(** A map over the runs that the merge sort keeps on its stack. *)
Definition fmap_stack {A B} (g : A → B) (st : list (option (list A)))
  : list (option (list B)) :=
  (λ o : option (list A), (λ l : list A, g <$> l) <$> o) <$> st.

End PyStr.

(** ** The tree renderer: [GitAgent._generate_project_tree] *)

Module Tree.
Import PyStr.

(** The nested [dict] built from the dotted names; keys in insertion
    order. *)
#[local] Unset Elimination Schemes.
Inductive tree_dict : Type :=
| TreeDict (items : list (string * tree_dict)).
#[local] Set Elimination Schemes.

Definition tree_items (t : tree_dict) : list (string * tree_dict) :=
  match t with TreeDict items => items end.

(** Truth value of a dict: non-empty. *)
Definition truthy (t : tree_dict) : bool :=
  match t with TreeDict [] => false | _ => true end.

(** One step of the inner loop:
    [if part not in current: current[part] = {}]; [current = current[part]],
    with the rest of the loop, [f], run on the entry that was reached. *)
Fixpoint descend (f : tree_dict → tree_dict) (part : string)
         (items : list (string * tree_dict)) : list (string * tree_dict) :=
  match items with
  | [] => [(part, f (TreeDict []))]
  | (k, child) :: rest =>
      if String.eqb part k then (k, f child) :: rest
      else (k, child) :: descend f part rest
  end.

(** [for i, part in enumerate(parts): ...] starting at [current]. *)
Fixpoint insert_parts (parts : list string) (current : tree_dict) : tree_dict :=
  match parts with
  | [] => current
  | part :: parts' =>
      TreeDict (descend (insert_parts parts') part (tree_items current))
  end.

(** [for module_path in module_list: ...] starting from [tree_dict = {}]. *)
Definition build_tree_dict (module_list : list string) : tree_dict :=
  fold_left (λ tree_dict module_path,
               insert_parts (split dot_char module_path) tree_dict)
            module_list (TreeDict []).

Definition indent_of (level : nat) : string := repeat_str "  " level.

(** The lines of one entry, given its rendered sub-tree. *)
Definition entry_lines (level : nat) (name : string)
           (has_children : bool) (sub : list string) : list string :=
  if has_children
  then (indent_of level +:+ "- " +:+ name +:+ "/") :: sub
  else [indent_of level +:+ "- " +:+ name].

(** [process_tree_dict(tree_dict, level)]. The sub-trees are rendered
    while the items are traversed and the rendered items are then put in
    key order; [process_tree_dict_unfold] below gives the equation in the
    order of the source (sort, then render each entry). *)
Fixpoint process_tree_dict (tree_dict : tree_dict) (level : nat) : list string :=
  match tree_dict with
  | TreeDict items =>
      let rendered :=
        (fix go (l : list (string * Tree.tree_dict)) :=
           match l with
           | [] => []
           | (name, children) :: r =>
               (name, (truthy children, process_tree_dict children (S level))) :: go r
           end) items in
      flat_map (λ e, entry_lines level e.1 e.2.1 e.2.2) (sorted_items rendered)
  end.

Definition _generate_project_tree (module_list : list string) : string :=
  let tree_dict := build_tree_dict module_list in
  let tree := process_tree_dict tree_dict 0 in
  join nl tree.

(** The entries of a dict as the renderer sees them: name, truth value of
  the sub-dict and the rendered sub-dict. *)
Definition rendered_entry (level : nat) (e : string * tree_dict)
  : string * (bool * list string) :=
  (e.1, (truthy e.2, process_tree_dict e.2 (S level))).

(** One entry in the order of the source: the header line, then the
  sub-tree one level deeper. *)
Definition render_entry (level : nat) (e : string * tree_dict) : list string :=
  if truthy e.2
  then (indent_of level +:+ "- " +:+ e.1 +:+ "/") :: process_tree_dict e.2 (S level)
  else [indent_of level +:+ "- " +:+ e.1].

(** *** Specification vocabulary for the renderer *)

(** The fold of the outer loop, from any starting dict. *)
Definition build_from (t : tree_dict) (module_list : list string) : tree_dict :=
  fold_left (λ tree_dict module_path,
               insert_parts (split dot_char module_path) tree_dict)
            module_list t.

(** The nodes of the tree, each named by its path from the root. *)
Fixpoint tree_paths (t : tree_dict) : list (list string) :=
  match t with
  | TreeDict items =>
      (fix go (l : list (string * tree_dict)) :=
         match l with
         | [] => []
         | (k, c) :: r => ([k] :: (cons k <$> tree_paths c)) ++ go r
         end) items
  end.

Definition entry_paths (e : string * tree_dict) : list (list string) :=
  [e.1] :: (cons e.1 <$> tree_paths e.2).

(** Keys are distinct at every level: what a Python dict guarantees. *)
Fixpoint wf_tree (t : tree_dict) : Prop :=
  match t with
  | TreeDict items =>
      NoDup items.*1 ∧
      (fix go (l : list (string * tree_dict)) :=
         match l with
         | [] => True
         | (_, c) :: r => wf_tree c ∧ go r
         end) items
  end.

(** Every key, at every depth, satisfies [P]. *)
Fixpoint all_keys (P : string → Prop) (t : tree_dict) : Prop :=
  match t with
  | TreeDict items =>
      (fix go (l : list (string * tree_dict)) :=
         match l with
         | [] => True
         | (k, c) :: r => (P k ∧ all_keys P c) ∧ go r
         end) items
  end.

(** The non-empty prefixes of a segment list: ["a";"b"] has ["a"] and
  ["a";"b"]. *)
Fixpoint nonempty_prefixes (parts : list string) : list (list string) :=
  match parts with
  | [] => []
  | part :: parts' => [part] :: (cons part <$> nonempty_prefixes parts')
  end.

(** The distinct segment-paths of a collection of dotted names: every
  non-empty prefix of the segments of every name, counted once. *)
Definition segment_paths (names : list string) : list (list string) :=
  remove_dups (flat_map (λ name, nonempty_prefixes (split dot_char name)) names).

Definition newline_free (s : string) : Prop :=
  contains_char newline_char s = false.

(** A rendered line: not empty, and it holds no newline itself. *)
Definition good_line (s : string) : Prop := s ≠ "" ∧ newline_free s.

Definition tree_equiv (t1 t2 : tree_dict) : Prop :=
  ∀ p, p ∈ tree_paths t1 ↔ p ∈ tree_paths t2.

End Tree.

(** ** Python dicts whose iteration order is observed

  Keys are kept in insertion order; assigning to a key that is present
  replaces the value where it stands. *)

Module PyDict.

Fixpoint get {V} (k : string) (d : list (string * V)) : option V :=
  match d with
  | [] => None
  | (k', v) :: d' => if String.eqb k k' then Some v else get k d'
  end.

(** [k in d] *)
Definition contains {V} (k : string) (d : list (string * V)) : bool :=
  match get k d with Some _ => true | None => false end.

(** [d[k] = v] *)
Fixpoint setitem {V} (k : string) (v : V) (d : list (string * V))
  : list (string * V) :=
  match d with
  | [] => [(k, v)]
  | (k', v') :: d' =>
      if String.eqb k k' then (k', v) :: d' else (k', v') :: setitem k v d'
  end.

(** [d |= d'] *)
Definition update {V} (d d' : list (string * V)) : list (string * V) :=
  fold_left (λ acc kv, setitem kv.1 kv.2 acc) d' d.

(** [d.keys()] *)
Definition keys {V} (d : list (string * V)) : list string := d.*1.

(** [not d] *)
Definition is_empty {V} (d : list (string * V)) : bool :=
  match d with [] => true | _ => false end.

End PyDict.

(** ** The objects the agent inspects, and the values it stores *)

Module Runtime.

Inductive exn : Type :=
| ImportError
| SyntaxError
| TypeError
| AttributeError
| RuntimeError
| RecursionError.

Definition is_import_error (e : exn) : bool :=
  match e with ImportError => true | _ => false end.

(** A function object: [__module__] and [__doc__]. *)
Record pyfunc : Type := PyFunc {
  fn_module : string;
  fn_doc : option string
}.

(** A class object: [getattr(obj, "__module__", "")], [__doc__] and
  [inspect.getmembers(obj, inspect.isfunction)], which lists the inherited
  functions with the class's own. *)
Record pyclass : Type := PyClass {
  cls_module : string;
  cls_doc : option string;
  cls_functions : list (string * pyfunc)
}.

(** A module object: [__name__], [__doc__],
  [inspect.getmembers(module, inspect.isclass)] and
  [inspect.getmembers(module, inspect.isfunction)]. *)
Record pymodule : Type := PyModule {
  mod_name : string;
  mod_doc : option string;
  mod_classes : list (string * pyclass);
  mod_functions : list (string * pyfunc)
}.

Inductive pyobj : Type :=
| ModuleObj (m : pymodule)
| ClassObj (c : pyclass)
| FuncObj (f : pyfunc).

(** The values of the Structural Graph: the dicts are duck-typed, their
  values are [None], strings, references to objects, and dicts again. *)
#[local] Unset Elimination Schemes.
Inductive pyval : Type :=
| PNone
| PStr (s : string)
| PObj (o : pyobj)
| PDict (items : list (string * pyval)).
#[local] Set Elimination Schemes.

(** [obj.__doc__] as a value *)
Definition doc_value (d : option string) : pyval :=
  match d with Some s => PStr s | None => PNone end.

(** Truth value of a Python value. *)
Definition truth (v : pyval) : bool :=
  match v with
  | PNone => false
  | PStr s => negb (String.eqb s "")
  | PObj _ => true
  | PDict items => negb (PyDict.is_empty items)
  end.

(** [isinstance(v, dict)] *)
Definition is_dict (v : pyval) : bool :=
  match v with PDict _ => true | _ => false end.

(** [v.get(k, default)] on a dict. The flattener calls it on values of the
  graph that are dicts by construction; on any other value Python raises,
  which the model renders as the default. *)
Definition dict_get (k : string) (default : pyval) (v : pyval) : pyval :=
  match v with
  | PDict items => from_option id default (PyDict.get k items)
  | _ => default
  end.

(** [k in v] for a dict [v] *)
Definition dict_has (k : string) (v : pyval) : bool :=
  match v with
  | PDict items => PyDict.contains k items
  | _ => false
  end.

(** [v.items()] for a dict [v] *)
Definition dict_items (v : pyval) : list (string * pyval) :=
  match v with PDict items => items | _ => [] end.

(** The text of a value inside an f-string. Documentation values are
  strings or [None]. *)
Definition format_value (v : pyval) : string :=
  match v with
  | PStr s => s
  | PNone => "None"
  | PObj _ => "<object>"
  | PDict _ => "{...}"
  end.

(** What the agent writes to its log when a unit fails. *)
Inductive log_entry : Type :=
| ProcessingModuleError (module_name : string) (e : exn)
| ErrorProcessingModule (module_name : string) (e : exn)
| SkippingImportError (modname : string) (e : exn).

(** Computations that log and may raise. *)
Definition M (A : Type) : Type :=
  list log_entry → (exn + A) * list log_entry.

Global Instance M_ret : MRet M := λ A a log, (inr a, log).

Global Instance M_bind : MBind M := λ A B k c log,
  match c log with
  | (inl e, log') => (inl e, log')
  | (inr a, log') => k a log'
  end.

Definition raise {A} (e : exn) : M A := λ log, (inl e, log).

Definition lift {A} (r : exn + A) : M A := λ log, (r, log).

Definition LOG_info (entry : log_entry) : M unit :=
  λ log, (inr tt, log ++ [entry]).

(** [try: body except Exception as e: handler(e)] *)
Definition try_except {A} (body : M A) (handler : exn → M A) : M A := λ log,
  match body log with
  | (inl e, log') => handler e log'
  | (inr a, log') => (inr a, log')
  end.

End Runtime.

(** ** The project on disk and the import system

  The project directory is a tree of files and folders. Executing a Python
  file gives the body of a module or raises; the content of any other file
  is not looked at. Modules are resolved against the project root alone,
  and loading the same unit twice gives the same outcome. Only [.py]
  sources are modules, and the finders have [find_module], as they do up
  to Python 3.11. *)

Module Project.
Import PyStr Runtime.

Record module_body : Type := ModuleBody {
  body_doc : option string;
  body_classes : list (string * pyclass);
  body_functions : list (string * pyfunc)
}.

#[local] Unset Elimination Schemes.
Inductive fsnode : Type :=
| File (name : string) (content : exn + module_body)
| Folder (name : string) (entries : list fsnode).
#[local] Set Elimination Schemes.

Definition node_name (n : fsnode) : string :=
  match n with File name _ | Folder name _ => name end.

Definition node_entries (n : fsnode) : list fsnode :=
  match n with File _ _ => [] | Folder _ entries => entries end.

Definition is_folder (n : fsnode) : bool :=
  match n with Folder _ _ => true | File _ _ => false end.

Definition file_names (entries : list fsnode) : list string :=
  node_name <$> filter (λ n, is_folder n = false) entries.

Definition dir_names (entries : list fsnode) : list string :=
  node_name <$> filter (λ n, is_folder n = true) entries.

Fixpoint find_file (name : string) (entries : list fsnode)
  : option (exn + module_body) :=
  match entries with
  | [] => None
  | File name' content :: rest =>
      if String.eqb name name' then Some content else find_file name rest
  | Folder _ _ :: rest => find_file name rest
  end.

Fixpoint find_folder (name : string) (entries : list fsnode) : option fsnode :=
  match entries with
  | [] => None
  | Folder name' sub :: rest =>
      if String.eqb name name' then Some (Folder name' sub)
      else find_folder name rest
  | File _ _ :: rest => find_folder name rest
  end.

Fixpoint depth (n : fsnode) : nat :=
  match n with
  | File _ _ => 0
  | Folder _ entries =>
      S ((fix go (l : list fsnode) : nat :=
            match l with
            | [] => 0
            | n' :: r => Nat.max (depth n') (go r)
            end) entries)
  end.

Definition make_module (name : string) (body : module_body) : pymodule :=
  PyModule name (body_doc body) (body_classes body) (body_functions body).

(** A module object that was created and never executed, and the module of
  a namespace package. *)
Definition empty_module (name : string) : pymodule := PyModule name None [] [].

(** A loaded unit: the module object and, for a package, the directory of
  its [__path__]. *)
Record loaded : Type := Loaded {
  ld_module : pymodule;
  ld_path : option fsnode
}.

(** [importlib.import_module(name)] below the directory [entries], for the
  segments [parts] of a name. A folder with [__init__.py] is a package and
  its initializer is executed; a file [part.py] is a module; a folder with
  no initializer is a namespace package. The first unit that raises ends
  the import. *)
Fixpoint import_from (entries : list fsnode) (prefix : string)
         (parts : list string) : exn + loaded :=
  match parts with
  | [] => inl ImportError
  | part :: rest =>
      let name := prefix +:+ part in
      let as_file :=
        match find_file (part +:+ ".py") entries with
        | Some (inl e) => Some (inl e)
        | Some (inr body) =>
            match rest with
            | [] => Some (inr (Loaded (make_module name body) None))
            | _ => Some (inl ImportError)
            end
        | None => None
        end in
      if String.eqb part "" then inl ImportError else
      match find_folder part entries with
      | Some sub =>
          match find_file "__init__.py" (node_entries sub) with
          | Some (inl e) => inl e
          | Some (inr body) =>
              match rest with
              | [] => inr (Loaded (make_module name body) (Some sub))
              | _ => import_from (node_entries sub) (name +:+ ".") rest
              end
          | None =>
              match as_file with
              | Some r => r
              | None =>
                  match rest with
                  | [] => inr (Loaded (empty_module name) (Some sub))
                  | _ => import_from (node_entries sub) (name +:+ ".") rest
                  end
              end
          end
      | None => from_option id (inl ImportError) as_file
      end
  end.

(** A name that starts with a dot is a relative import, which has no
  package to refer to. *)
Definition import_module (project : fsnode) (name : string) : exn + loaded :=
  if startswith name "." then inl TypeError
  else import_from (node_entries project) "" (split dot_char name).

(** [importlib.util.spec_from_file_location(name, path)] followed by
  [importlib.util.module_from_spec(spec)]: the file is not executed. *)
Definition module_from_spec (module_name : string) : pymodule :=
  empty_module module_name.

(** [inspect.getmodulename(fn)], for source files. *)
Definition getmodulename (fn : string) : option string :=
  if endswith fn ".py"
  then Some (slice_to (String.length fn - 3) fn)
  else None.

(** [os.walk(top)], top down, where the consumer prunes [dirs] in place with
  [keep] before anything else: one entry per visited directory, with the
  path below [top] as its list of components. *)
Record walk_entry : Type := WalkEntry {
  we_root : list string;
  we_dirs : list string;
  we_files : list string
}.

Fixpoint os_walk (keep : string → bool) (root : list string) (dir : fsnode)
  : list walk_entry :=
  match dir with
  | File _ _ => []
  | Folder _ entries =>
      WalkEntry root (filter (λ d, keep d = true) (dir_names entries))
                (file_names entries)
      :: (fix go (l : list fsnode) : list walk_entry :=
            match l with
            | [] => []
            | n :: r =>
                (if is_folder n && keep (node_name n)
                 then os_walk keep (root ++ [node_name n]) n
                 else [])
                ++ go r
            end) entries
  end.

(** [os.path.relpath(root, project_path)] and [os.sep] *)
Definition sep_char : ascii := "/"%char.

Definition relpath (root : list string) : string :=
  match root with
  | [] => "."
  | _ => join (String sep_char "") root
  end.

(** [os.path.splitext(file)[0]] for a name that ends in [.py]: a name that
  is all dots before the suffix has no extension. *)
Definition splitext_root (file : string) : string :=
  let stem := slice_to (String.length file - 3) file in
  if forallb (Ascii.eqb dot_char) (String.list_ascii_of_string stem)
  then file else stem.

(** [pkgutil.walk_packages(path, prefix)]: what the generator yields, in
  order, and the point where it raises. Each item comes with its importer,
  the directory it was found in. *)
Inductive walk_event : Type :=
| Yield (importer : fsnode) (modname : string) (ispkg : bool)
| WalkRaise (e : exn).

Inductive candidate : Type :=
| CModule (modname : string)
| CPackage (modname : string) (init : exn + module_body)
           (below : list walk_event)
| CNone.

(** One name of the directory listing, as [iter_modules] reads it. *)
Definition candidate_of (n : fsnode) (below : list walk_event) : candidate :=
  let fn := node_name n in
  match getmodulename fn with
  | Some (String a m) =>
      let modname := String a m in
      if String.eqb modname "__init__" || contains_char dot_char modname
      then CNone else CModule modname
  | _ =>
      if is_folder n && negb (contains_char dot_char fn)
      then match find_file "__init__.py" (node_entries n) with
           | Some init => CPackage fn init below
           | None => CNone
           end
      else CNone
  end.

(** The items of one directory in the order of the sorted listing. A module
  name that was yielded before is passed over. After a package is yielded
  it is imported and, if that succeeds, walked; an [ImportError] there is
  passed over, any other exception is raised ([onerror] is not given). *)
Fixpoint emit (importer : fsnode) (prefix : string)
         (cands : list (string * candidate)) (yielded : gset string)
  : list walk_event :=
  match cands with
  | [] => []
  | (_, CNone) :: rest => emit importer prefix rest yielded
  | (_, CModule modname) :: rest =>
      if bool_decide (modname ∈ yielded) then emit importer prefix rest yielded
      else Yield importer (prefix +:+ modname) false
             :: emit importer prefix rest ({[modname]} ∪ yielded)
  | (_, CPackage modname init below) :: rest =>
      Yield importer (prefix +:+ modname) true
        :: match init with
           | inr _ => below ++ emit importer prefix rest ({[modname]} ∪ yielded)
           | inl e =>
               if is_import_error e
               then emit importer prefix rest ({[modname]} ∪ yielded)
               else [WalkRaise e]
           end
  end.

Fixpoint walk_packages (path : fsnode) (prefix : string) : list walk_event :=
  match path with
  | File _ _ => []
  | Folder _ entries =>
      let cands :=
        (fix go (l : list fsnode) : list (string * candidate) :=
           match l with
           | [] => []
           | n :: r =>
               (node_name n,
                candidate_of n (walk_packages n (prefix +:+ node_name n +:+ ".")))
               :: go r
           end) entries in
      emit path prefix (sorted_items cands) ∅
  end.

(** [importer.find_module(modname).load_module(modname)] for an item that
  [walk_packages] reported as a package: the finder looks for the last
  segment of the name in its own directory and executes the initializer. *)
Definition load_module (importer : fsnode) (modname : string) : exn + loaded :=
  let tail := last_of (split dot_char modname) in
  match find_folder tail (node_entries importer) with
  | Some sub =>
      match find_file "__init__.py" (node_entries sub) with
      | Some (inr body) => inr (Loaded (make_module modname body) (Some sub))
      | Some (inl e) => inl e
      | None => inl AttributeError
      end
  | None => inl AttributeError
  end.

End Project.

(** ** The agent: [GitAgent] *)

Module Agent.
Import PyStr Runtime Project.

(** [self.module_dict] and [self.module_doc_dict] *)
Record GitAgent : Type := {
  module_dict : list (string * pyval);
  module_doc_dict : gmap string string
}.

(** *** [get_module_doc] (the tool registered by [_register_tools]) *)

Definition get_module_doc (self : GitAgent) (module_name : string)
  : string * GitAgent :=
  match module_doc_dict self !! module_name with
  | None => ("Module " +:+ module_name +:+ " does not exist", self)
  | Some doc => (slice_to 2000 doc, self)
  end.

(** *** [_process_module] *)

Definition _get_abs_name (f_module_name obj_name : string) : string :=
  lstrip dot_char (f_module_name +:+ "." +:+ obj_name).

(** The [c_dict["method"]] of a class: one entry per function that
  [inspect.getmembers(obj, inspect.isfunction)] lists. *)
Definition method_dict (f_module_name name : string) (obj : pyclass)
  : list (string * pyval) :=
  fold_left
    (λ method mm,
       PyDict.setitem (_get_abs_name f_module_name (name +:+ "." +:+ mm.1))
                      (PDict [("doc", doc_value (fn_doc mm.2));
                              ("obj", PObj (FuncObj mm.2))])
                      method)
    (cls_functions obj) [].

Definition c_dict (f_module_name name : string) (obj : pyclass) : pyval :=
  PDict [("doc", doc_value (cls_doc obj));
         ("obj", PObj (ClassObj obj));
         ("method", PDict (method_dict f_module_name name obj))].

Definition f_dict (obj : pyfunc) : pyval :=
  PDict [("doc", doc_value (fn_doc obj)); ("obj", PObj (FuncObj obj))].

(** The loop over the classes of the module. *)
Definition add_classes (module : pymodule) (f_module_name : string)
           (m_dict : list (string * pyval)) : list (string * pyval) :=
  fold_left
    (λ m_dict no,
       if negb (startswith (cls_module no.2) (mod_name module)) then m_dict
       else PyDict.setitem (_get_abs_name f_module_name no.1)
                           (c_dict f_module_name no.1 no.2) m_dict)
    (mod_classes module) m_dict.

(** The loop over the functions of the module. *)
Definition add_functions (module : pymodule) (f_module_name : string)
           (m_dict : list (string * pyval)) : list (string * pyval) :=
  fold_left
    (λ m_dict no,
       if negb (startswith (fn_module no.2) (mod_name module)) then m_dict
       else PyDict.setitem (f_module_name +:+ "." +:+ no.1) (f_dict no.2) m_dict)
    (mod_functions module) m_dict.

(** The [m_dict] of a module when the two loops are done. *)
Definition module_m_dict (module : pymodule) (f_module_name : string)
  : list (string * pyval) :=
  let m_dict := [("obj", PObj (ModuleObj module))] in
  let m_dict := add_classes module f_module_name m_dict in
  add_functions module f_module_name m_dict.

Definition _process_module (module : pymodule) (f_module_name : string)
  : list (string * pyval) :=
  let m_dict := module_m_dict module f_module_name in
  if PyDict.is_empty m_dict then []
  else [(mod_name module, PDict m_dict)].

(** *** [_process_package] *)

(** [m_dict["children"]], [m_dict["module"]] and [processed_module] while
  the loop runs. *)
Record walker_state : Type := WalkerState {
  ws_children : list (string * pyval);
  ws_module : list (string * pyval);
  ws_processed : gset string
}.

(** [any(modname.startswith(p) for p in prefixes)] *)
Definition any_startswith (modname : string) (prefixes : list string) : bool :=
  existsb (startswith modname) prefixes.

(** [for importer, modname, ispkg in pkgutil.walk_packages(...): body] *)
Fixpoint for_each_walked {S : Type} (events : list walk_event)
         (body : fsnode → string → bool → S → M S) (s : S) : M S :=
  match events with
  | [] => mret s
  | WalkRaise e :: _ => raise e
  | Yield importer modname ispkg :: rest =>
      s' ← body importer modname ispkg s;
      for_each_walked rest body s'
  end.

(** The recursion follows the nesting of the folders; [fuel] bounds its
  depth and [_gen_module_dict] gives it more than the depth of the
  project. *)
Fixpoint _process_package (fuel : nat) (project : fsnode) (module : loaded)
         (skip_modules : list string) : M (list (string * pyval)) :=
  match fuel with
  | O => raise RecursionError
  | S fuel' =>
      path ← lift (from_option inr (inl AttributeError) (ld_path module));
      let name := mod_name (ld_module module) in
      st ← for_each_walked (walk_packages path (name +:+ "."))
             (λ importer modname ispkg st,
                if any_startswith modname skip_modules then mret st
                else if ispkg then
                  sub ← lift (load_module importer modname);
                  r ← _process_package fuel' project sub skip_modules;
                  mret (WalkerState (PyDict.update (ws_children st) r)
                                    (ws_module st)
                                    ({[modname]} ∪ ws_processed st))
                else
                  try_except
                    (submodule ← lift (import_module project modname);
                     if any_startswith modname (elements (ws_processed st))
                     then mret st
                     else mret (WalkerState
                                  (ws_children st)
                                  (PyDict.update (ws_module st)
                                     (_process_module (ld_module submodule) modname))
                                  (ws_processed st)))
                    (λ e, LOG_info (SkippingImportError modname e);; mret st))
             (WalkerState [] [] ∅);
      if PyDict.is_empty (ws_children st) && PyDict.is_empty (ws_module st)
      then mret []
      else mret [(name, PDict [("obj", PObj (ModuleObj (ld_module module)));
                               ("children", PDict (ws_children st));
                               ("module", PDict (ws_module st))])]
  end.

(** *** [_generate_module_doc_dict] *)

Definition add_doc (name subname : string) (doc : pyval) (level : string)
           (docs : gmap string string) : gmap string string :=
  let docs := match docs !! name with
              | None => <[name := ""]> docs
              | Some _ => docs
              end in
  let doc_or_empty := if truth doc then doc else PStr "" in
  <[name := (docs !!! name) +:+ level +:+ " " +:+ subname +:+ ":" +:+ nl
            +:+ format_value doc_or_empty +:+ nl +:+ nl]> docs.

(** The loop over the methods of one class entry. *)
Definition add_method_docs (module_name obj_name : string) (obj_info : pyval)
           (docs : gmap string string) : gmap string string :=
  if dict_has "method" obj_info then
    fold_left
      (λ docs ff,
         let method_name :=
           obj_name +:+ "." +:+ last_of (split dot_char ff.1) in
         add_doc module_name method_name (dict_get "doc" (PStr "") ff.2) "###" docs)
      (dict_items (dict_get "method" PNone obj_info)) docs
  else docs.

(** The loop over the items of one module entry. *)
Definition add_object_docs (module_name : string) (module_info : pyval)
           (docs : gmap string string) : gmap string string :=
  fold_left
    (λ docs oo,
       let obj_name := last_of (split dot_char oo.1) in
       if is_dict oo.2 then
         let docs := add_doc module_name obj_name (dict_get "doc" (PStr "") oo.2)
                             "##" docs in
         add_method_docs module_name obj_name oo.2 docs
       else docs)
    (dict_items module_info) docs.

(** The part of the loop body that does not recurse: the entry of the unit
  itself and the entries of its modules. *)
Definition add_unit_docs (name : string) (info : pyval)
           (docs : gmap string string) : gmap string string :=
  let doc := dict_get "doc" PNone info in
  let docs := if truth doc then add_doc name name doc "#" docs else docs in
  if dict_has "module" info then
    fold_left
      (λ docs mm,
         let docs := add_doc mm.1 mm.1 (dict_get "doc" (PStr "") mm.2) "#" docs in
         add_object_docs mm.1 mm.2 docs)
      (dict_items (dict_get "module" PNone info)) docs
  else docs.

(** [_generate_module_doc_dict(module_dict)], with [self.module_doc_dict]
  passed through. The recursion on [info["children"]] looks the key up in
  the items of [info]. *)
Fixpoint _generate_module_doc_dict (module_dict : pyval)
         (docs : gmap string string) {struct module_dict} : gmap string string :=
  match module_dict with
  | PDict items =>
      (fix loop (l : list (string * pyval)) (docs : gmap string string)
         : gmap string string :=
         match l with
         | [] => docs
         | (name, info) :: rest =>
             let docs := add_unit_docs name info docs in
             let docs :=
               match info with
               | PDict fields =>
                   (fix children (fs : list (string * pyval)) : gmap string string :=
                      match fs with
                      | [] => docs
                      | (k, v) :: fs' =>
                          if String.eqb "children" k
                          then _generate_module_doc_dict v docs
                          else children fs'
                      end) fields
               | _ => docs
               end in
             loop rest docs
         end) items docs
  | _ => docs
  end.

(** *** [_gen_module_dict] *)

Definition keep_dir (d : string) : bool :=
  negb (startswith d ".")
  && negb (bool_decide (d ∈ ["__pycache__"; "tests"; "docs"])).

Definition reserved_files : list string :=
  ["__init__.py"; "setup.py"; "conftest.py"; "wsgi.py"; "asgi.py"].

Definition dotted_name (root : list string) : string :=
  replace_char sep_char dot_char (relpath root).

(** [".".join(module_name.split(".")[:-1])] *)
Definition parent_name (module_name : string) : string :=
  join "." (removelast (split dot_char module_name)).

(** [self.module_dict] and [processed_packages] while the scan runs. *)
Record scan_state : Type := ScanState {
  sc_module_dict : list (string * pyval);
  sc_processed : gset string
}.

(** The [if "__init__.py" in files:] block. The flag tells whether the
  block ended in [continue], which also passes over the loose files of
  the directory. *)
Definition scan_package (fuel : nat) (project : fsnode) (entry : walk_entry)
           (st : scan_state) : M (bool * scan_state) :=
  if bool_decide ("__init__.py" ∈ we_files entry) then
    let module_name := dotted_name (we_root entry) in
    try_except
      (module ← lift (import_module project module_name);
       let skip_modules := ["docs"; "test"; "tests"] in
       if bool_decide (parent_name module_name ∈ sc_processed st)
       then mret (true, st)
       else
         r ← _process_package fuel project module skip_modules;
         mret (false, ScanState (PyDict.update (sc_module_dict st) r)
                                ({[module_name]} ∪ sc_processed st)))
      (λ e, LOG_info (ProcessingModuleError module_name e);; mret (false, st))
  else mret (false, st).

(** The [for file in files:] block. *)
Fixpoint scan_files (entry : walk_entry) (files : list string)
         (st : scan_state) : M scan_state :=
  match files with
  | [] => mret st
  | file :: rest =>
      if endswith file ".py" && negb (bool_decide (file ∈ reserved_files)) then
        let package_name := dotted_name (we_root entry) in
        if bool_decide (package_name ∈ sc_processed st)
        then scan_files entry rest st
        else
          let module_name := splitext_root file in
          st' ← try_except
                  (let module := module_from_spec module_name in
                   mret (ScanState
                           (PyDict.update (sc_module_dict st)
                                          (_process_module module ""))
                           (sc_processed st)))
                  (λ e, LOG_info (ErrorProcessingModule module_name e);; mret st);
          scan_files entry rest st'
      else scan_files entry rest st
  end.

(** The [for root, dirs, files in os.walk(self.project_path):] loop. *)
Fixpoint scan (fuel : nat) (project : fsnode) (entries : list walk_entry)
         (st : scan_state) : M scan_state :=
  match entries with
  | [] => mret st
  | entry :: rest =>
      cs ← scan_package fuel project entry st;
      st' ← (if (cs.1 : bool) then mret cs.2
             else scan_files entry (we_files entry) cs.2);
      scan fuel project rest st'
  end.

Definition _gen_module_dict (project : fsnode) (self : GitAgent) : M GitAgent :=
  st ← scan (S (depth project)) project (os_walk keep_dir [] project)
            (ScanState (module_dict self) ∅);
  mret {| module_dict := sc_module_dict st;
          module_doc_dict :=
            _generate_module_doc_dict (PDict (sc_module_dict st))
                                      (module_doc_dict self) |}.

(** [GitAgent.__init__], as far as the index is concerned. *)
Definition new_agent (project : fsnode) : M GitAgent :=
  _gen_module_dict project {| module_dict := []; module_doc_dict := ∅ |}.

(** *** [_update_module_dict] *)




(** *** Specification vocabulary *)

(** The entries that the two loops of [_process_module] write: one per
  class, and one per function, that passes the ownership test. *)
Definition class_entries (module : pymodule) (f_module_name : string)
  : list (string * pyval) :=
  (λ no, (_get_abs_name f_module_name no.1, c_dict f_module_name no.1 no.2))
    <$> filter (λ no, startswith (cls_module no.2) (mod_name module) = true)
               (mod_classes module).

Definition function_entries (module : pymodule) (f_module_name : string)
  : list (string * pyval) :=
  (λ no, (f_module_name +:+ "." +:+ no.1, f_dict no.2))
    <$> filter (λ no, startswith (fn_module no.2) (mod_name module) = true)
               (mod_functions module).

(** The entries that the loop over the methods of a class writes. *)
Definition method_entries (f_module_name name : string) (obj : pyclass)
  : list (string * pyval) :=
  (λ mm, (_get_abs_name f_module_name (name +:+ "." +:+ mm.1),
          PDict [("doc", doc_value (fn_doc mm.2)); ("obj", PObj (FuncObj mm.2))]))
    <$> cls_functions obj.

(** [graph[k1][k2]...], [None] where a key is missing. *)
Definition lookup_path (path : list string) (graph : pyval) : pyval :=
  fold_left (λ v k, dict_get k PNone v) path graph.

(** The depth of the directory of a loaded package; a plain module has
  none. *)
Definition loaded_depth (module : loaded) : nat :=
  from_option depth 0 (ld_path module).

(** Every item that the walk of [path] yields was found in [path] or in a
  directory below it. *)
Definition importers_within (bound : nat) (events : list walk_event) : Prop :=
  Forall (λ ev, match ev with
                | Yield importer _ _ => depth importer ≤ bound
                | WalkRaise _ => True
                end) events.

(** The computation returns, whatever was logged before. *)
Definition returns {A} (c : M A) : Prop :=
  ∀ log, ∃ a log', c log = (inr a, log').


(** The result of a computation started with an empty log. *)
Definition run {A} (c : M A) : (exn + A) * list log_entry := c [].

(** A discovery pass on a fresh agent: the exception that escaped it, if
  any, the agent it built, and what it logged. *)
Definition raised (project : fsnode) : option exn :=
  match run (new_agent project) with
  | (inl e, _) => Some e
  | (inr _, _) => None
  end.

Definition built (project : fsnode) : GitAgent :=
  match run (new_agent project) with
  | (inr agent, _) => agent
  | (inl _, _) => {| module_dict := []; module_doc_dict := ∅ |}
  end.

Definition logged (project : fsnode) : list log_entry :=
  (run (new_agent project)).2.

(** The Structural Graph of the agent, as one value. *)
Definition graph (self : GitAgent) : pyval := PDict (module_dict self).

End Agent.

(** ** Projects used as examples *)

Module Scenarios.
Import Runtime Project Agent.

Definition ok_init : fsnode := File "__init__.py" (inr (ModuleBody None [] [])).

(** Package [app] with [app/__init__.py] and [app/models.py]; the module
  has the documentation "User model module" and defines class [User], not
  documented, with method [save] documented "Persists the user". *)
Definition save_function : pyfunc :=
  PyFunc "app.models" (Some "Persists the user").

Definition User_class : pyclass :=
  PyClass "app.models" None [("save", save_function)].

Definition models_file : fsnode :=
  File "models.py"
       (inr (ModuleBody (Some "User model module") [("User", User_class)] [])).

Definition app_project : fsnode :=
  Folder "project" [Folder "app" [ok_init; models_file]].

(** Packages nested three deep: [a/b/c/m.py] defines the function [f]. *)
Definition nested_project : fsnode :=
  Folder "project"
    [Folder "a"
       [ok_init;
        Folder "b"
          [ok_init;
           Folder "c"
             [ok_init;
              File "m.py"
                (inr (ModuleBody None [] [("f", PyFunc "a.b.c.m" None)]))]]]].

(** Package [pkg] whose only module defines nothing and re-exports the
  class [Path] of [pathlib]. *)
Definition reexport_body : module_body :=
  ModuleBody None [("Path", PyClass "pathlib" (Some "PurePath subclass") [])] [].

Definition hollow_project : fsnode :=
  Folder "project" [Folder "pkg" [ok_init; File "empty.py" (inr reexport_body)]].



(** Package [a] with the sub-package [a/bad], whose initializer has a
  syntax error, and the module [a/good.py], which defines class [Good]. *)
Definition Good_class : pyclass := PyClass "a.good" (Some "A good class") [].

Definition good_file : fsnode :=
  File "good.py" (inr (ModuleBody None [("Good", Good_class)] [])).

Definition failing_package_project : fsnode :=
  Folder "project"
    [Folder "a"
       [ok_init;
        Folder "bad" [File "__init__.py" (inl SyntaxError)];
        good_file]].

(** The same with a plain module [a/bad.py] in place of the sub-package. *)
Definition failing_module_project : fsnode :=
  Folder "project"
    [Folder "a" [ok_init; File "bad.py" (inl SyntaxError); good_file]].

End Scenarios.

(** ** Vocabulary for the properties of the index *)

Module IndexSpec.
Import PyStr Runtime Project Agent.

(** Two Doc Indexes put together: the keys of both, and under a key of
  both the text of the first followed by the text of the second. *)
Definition append_docs (a b : gmap string string) : gmap string string :=
  union_with (λ x y, Some (x +:+ y)) a b.

(** Every text of the Doc Index starts with the level-1 heading of its
  own key. *)
Definition headed (docs : gmap string string) : Prop :=
  ∀ k v, docs !! k = Some v → startswith v ("# " +:+ k +:+ ":" +:+ nl) = true.

(** [info["children"]] when [info] is a dict that has the key. *)
Definition children_of (info : pyval) : option pyval :=
  match info with
  | PDict fields => PyDict.get "children" fields
  | _ => None
  end.

(** The body of the loop of [_generate_module_doc_dict] for one unit. *)
Definition flatten_unit (flatten : pyval → gmap string string → gmap string string)
           (docs : gmap string string) (ni : string * pyval) : gmap string string :=
  let docs := add_unit_docs ni.1 ni.2 docs in
  match children_of ni.2 with
  | Some v => flatten v docs
  | None => docs
  end.

Fixpoint pyval_size (v : pyval) : nat :=
  match v with
  | PDict items =>
      S ((fix go (l : list (string * pyval)) : nat :=
            match l with
            | [] => 0
            | (_, v') :: r => pyval_size v' + go r
            end) items)
  | _ => 0
  end.

Definition items_size (l : list (string * pyval)) : nat :=
  foldr (λ kv n, pyval_size kv.2 + n) 0 l.

(** The keys of [docs'] are those of [docs] and keys that satisfy [Q]. *)
Definition grown_by (Q : string → Prop) (docs docs' : gmap string string) : Prop :=
  ∀ k, is_Some (docs' !! k) → is_Some (docs !! k) ∨ Q k.

(** A computation whose outcome does not depend on what was logged before,
  and that only adds to the log. *)
Definition oblivious {A} (c : M A) : Prop :=
  ∃ r w, ∀ log, c log = (r, log ++ w).

End IndexSpec.

(** ** The shape of the Structural Graph *)

Module GraphSpec.
Import PyStr Runtime Project Agent.

(** The value that [_process_module] stores for the module [module], found
  under the name [key]. *)
Definition module_node (kv : string * pyval) : Prop :=
  ∃ module, mod_name module = kv.1 ∧ kv.2 = PDict (module_m_dict module kv.1).

(** The value that [_process_package] stores for the package [name]: the
  module object of the package, its sub-packages and its modules, of which
  there is at least one; the names below a package start with its name and
  a dot. *)
#[local] Unset Elimination Schemes.
Inductive package_node : string → pyval → Prop :=
| PackageNode name m children modules :
    mod_name m = name →
    Forall (λ kv, startswith kv.1 (name +:+ ".") = true) children →
    Forall (λ kv, package_node kv.1 kv.2) children →
    Forall (λ kv, startswith kv.1 (name +:+ ".") = true) modules →
    Forall module_node modules →
    PyDict.is_empty children && PyDict.is_empty modules = false →
    package_node name (PDict [("obj", PObj (ModuleObj m));
                              ("children", PDict children);
                              ("module", PDict modules)]).
#[local] Set Elimination Schemes.

(** The value stored for a source file outside every package: the module
  object that was created for it and never executed. *)
Definition loose_node (kv : string * pyval) : Prop :=
  kv.2 = PDict [("obj", PObj (ModuleObj (empty_module kv.1)))].

(** The top level of a graph that discovery passes built. *)
Definition pass_graph (items : list (string * pyval)) : Prop :=
  Forall (λ kv, package_node kv.1 kv.2 ∨ loose_node kv) items.

(** Every item that the walk yields is named below [prefix]. *)
Definition names_below (prefix : string) (events : list walk_event) : Prop :=
  Forall (λ ev, match ev with
                | Yield _ modname _ => startswith modname prefix = true
                | WalkRaise _ => True
                end) events.

End GraphSpec.

(** ** Upkeep of the project: docstrings, structure, requirements

  The remaining methods of [GitAgent] that compute something before they
  call the language model or write a file. Strings hold characters below
  256, as everywhere in this development. *)

Module Upkeep.
Import PyStr Runtime Project Agent.

(** What these methods raise: the exceptions of the import system, and
  three more. *)
Inductive failure : Type :=
| Raised (e : exn)
| KeyError (key : string)
| IndexError
| ReadError.

Global Instance failure_ret : MRet (sum failure) := λ A a, inr a.

Global Instance failure_bind : MBind (sum failure) := λ A B k c,
  match c with
  | inl e => inl e
  | inr a => k a
  end.

(** *** Operations on the values of the graph

  The values that the methods index are dicts when a discovery pass built
  the graph. A string answers [in] by a substring test and raises on
  indexing; [None] and the objects of the project (modules, classes and
  functions, taken to be neither containers nor subscriptable) raise. *)

Definition is_substring (k s : string) : bool :=
  match String.index 0 k s with Some _ => true | None => false end.

(** [k in v] *)
Definition py_in (k : string) (v : pyval) : failure + bool :=
  match v with
  | PDict items => inr (PyDict.contains k items)
  | PStr s => inr (is_substring k s)
  | PNone | PObj _ => inl (Raised TypeError)
  end.

(** [v[k]] *)
Definition py_getitem (k : string) (v : pyval) : failure + pyval :=
  match v with
  | PDict items => from_option inr (inl (KeyError k)) (PyDict.get k items)
  | _ => inl (Raised TypeError)
  end.

(** [del d[k]] on the items of a dict *)
Fixpoint delitem {V} (k : string) (d : list (string * V)) : list (string * V) :=
  match d with
  | [] => []
  | (k', v) :: d' => if String.eqb k k' then d' else (k', v) :: delitem k d'
  end.

(** [del v[k]]; the value is changed in place, the model returns it. *)
Definition py_delitem (k : string) (v : pyval) : failure + pyval :=
  match v with
  | PDict items =>
      if PyDict.contains k items then inr (PDict (delitem k items))
      else inl (KeyError k)
  | _ => inl (Raised TypeError)
  end.

(** The dict [v] after the value under [k] was changed in place. *)
Definition py_setitem (k : string) (x : pyval) (v : pyval) : failure + pyval :=
  match v with
  | PDict items => inr (PDict (PyDict.setitem k x items))
  | _ => inl (Raised TypeError)
  end.

(** *** [_generate_docstring] *)

(** The calls to the docstring manager, which fills in the documentation
  of the object it is given; what the manager does is not followed. *)
Inductive manager_call : Type :=
| Traverse (obj : pyval)
| ModifyDocstring (obj : pyval).

(** The call that the loop body makes for [module]. *)
Definition manager_call_for (module : pyval) : failure + manager_call :=
  has_children ← py_in "children" module;
  obj ← py_getitem "obj" module;
  mret (if (has_children : bool) then Traverse obj else ModifyDocstring obj).

(** The calls that were made, in order, and the exception that ended the
  loop, if any. *)
Fixpoint _generate_docstring (module_dict : list (string * pyval))
  : list manager_call * option failure :=
  match module_dict with
  | [] => ([], None)
  | (_, module) :: rest =>
      match manager_call_for module with
      | inl e => ([], Some e)
      | inr call =>
          let r := _generate_docstring rest in (call :: r.1, r.2)
      end
  end.

(** *** [_analyze_project_structure] *)

(** The body of the loop of [pro_dict] for the value [module], with the
  function for the two recursive calls. The dicts are changed in place:
  the model puts the changed sub-dict back where it was read. *)
Definition pro_entry (pro_dict : pyval → failure + pyval) (module : pyval)
  : failure + pyval :=
  has_obj ← py_in "obj" module;
  module ← (if (has_obj : bool) then py_delitem "obj" module else mret module);
  has_children ← py_in "children" module;
  module ← (if (has_children : bool) then
              children ← py_getitem "children" module;
              children ← pro_dict children;
              py_setitem "children" children module
            else mret module);
  has_method ← py_in "method" module;
  if (has_method : bool) then
    method ← py_getitem "method" module;
    method ← pro_dict method;
    py_setitem "method" method module
  else mret module.

(** [for name, module in d.items(): body] *)
Fixpoint for_each_item (body : pyval → failure + pyval)
         (items : list (string * pyval)) : failure + list (string * pyval) :=
  match items with
  | [] => mret []
  | (name, module) :: rest =>
      module ← body module;
      rest ← for_each_item body rest;
      mret ((name, module) :: rest)
  end.

(** [pro_dict(d)]. The two recursive calls are on values found in
  [module]; the definition looks them up in the items of [module] as they
  are before the loop body changes it, which is where the body finds them
  ([pro_dict_unfold] gives the equation in the order of the source). What
  is left of the dicts when the walk raises is not followed. *)
Fixpoint pro_dict (d : pyval) : failure + pyval :=
  match d with
  | PDict items =>
      items ← (fix loop (l : list (string * pyval))
                 : failure + list (string * pyval) :=
                 match l with
                 | [] => mret []
                 | (name, module) :: rest =>
                     module ←
                       match module with
                       | PDict fields =>
                           let sub (key : string) :=
                             (fix find (fs : list (string * pyval))
                                : option (failure + pyval) :=
                                match fs with
                                | [] => None
                                | (k, v) :: fs' =>
                                    if String.eqb key k then Some (pro_dict v)
                                    else find fs'
                                end) fields in
                           let put (key : string) (r : option (failure + pyval))
                                   (fields : failure + list (string * pyval)) :=
                             fields ← fields;
                             match r with
                             | None => mret fields
                             | Some r => x ← r; mret (PyDict.setitem key x fields)
                             end in
                           fields ← put "method" (sub "method")
                                        (put "children" (sub "children")
                                             (mret (delitem "obj" fields)));
                           mret (PDict fields)
                       | PStr s =>
                           if is_substring "obj" s || is_substring "children" s
                              || is_substring "method" s
                           then inl (Raised TypeError) else mret module
                       | PNone | PObj _ => inl (Raised TypeError)
                       end;
                     rest ← loop rest;
                     mret ((name, module) :: rest)
                 end) items;
      mret (PDict items)
  | _ => inl (Raised AttributeError)
  end.

(** [_analyze_project_structure()]: the graph of the agent after
  [pro_dict], which is also what the agent holds from then on. *)
Definition _analyze_project_structure (self : GitAgent) : failure + GitAgent :=
  match pro_dict (graph self) with
  | inr (PDict items) =>
      inr {| module_dict := items; module_doc_dict := module_doc_dict self |}
  | inr _ => inl (Raised AttributeError)
  | inl e => inl e
  end.

(** *** [_analyze_dependencies] and [_is_standard_library] *)

(** [c.isspace()] *)
Definition is_space (c : ascii) : bool :=
  let n := nat_of_ascii c in
  (9 <=? n) && (n <=? 13) || (28 <=? n) && (n <=? 32)
  || (n =? 133) || (n =? 160).

Definition has_space (s : string) : bool :=
  existsb is_space (String.list_ascii_of_string s).

(** [s.split()]: the runs of characters that are not white space. *)
Fixpoint words (s : string) : list string :=
  match s with
  | EmptyString => []
  | String c s' =>
      if is_space c then words s'
      else match s' with
           | EmptyString => [String c EmptyString]
           | String c' _ =>
               if is_space c' then String c EmptyString :: words s'
               else match words s' with
                    | w :: ws => String c w :: ws
                    | [] => [String c EmptyString]
                    end
           end
  end.

(** [module_name in sys.stdlib_module_names], for the names
  [stdlib_module_names] of the interpreter. *)
Definition _is_standard_library (stdlib_module_names : gset string)
           (module_name : string) : bool :=
  bool_decide (module_name ∈ stdlib_module_names).

(** The body of the loop over the lines of a file: the name that the line
  adds, if any. *)
Definition imported_name (stdlib_module_names : gset string) (line : string)
  : failure + option string :=
  if startswith line "import " || startswith line "from " then
    match words line !! 1 with
    | None => inl IndexError
    | Some word =>
        let module := hd "" (split dot_char word) in
        if _is_standard_library stdlib_module_names module then mret None
        else mret (Some module)
    end
  else mret None.

Fixpoint scan_lines (stdlib_module_names : gset string) (lines : list string)
         (dependencies : gset string) : failure + gset string :=
  match lines with
  | [] => mret dependencies
  | line :: rest =>
      name ← imported_name stdlib_module_names line;
      scan_lines stdlib_module_names rest
                 (match name with
                  | Some module => {[module]} ∪ dependencies
                  | None => dependencies
                  end)
  end.

(** The loop over the files that [os.walk] lists below the project, each
  with what reading it gives: its text or an exception. *)
Fixpoint scan_sources (stdlib_module_names : gset string)
         (files : list (string * (failure + string)))
         (dependencies : gset string) : failure + gset string :=
  match files with
  | [] => mret dependencies
  | (file, content) :: rest =>
      if endswith file ".py" then
        content ← content;
        dependencies ← scan_lines stdlib_module_names
                                  (split newline_char content) dependencies;
        scan_sources stdlib_module_names rest dependencies
      else scan_sources stdlib_module_names rest dependencies
  end.

(** The set that [_analyze_dependencies] returns as a list, in an order
  that the interpreter chooses. *)
Definition _analyze_dependencies (stdlib_module_names : gset string)
           (files : list (string * (failure + string))) : failure + gset string :=
  scan_sources stdlib_module_names files ∅.

(** A line that the loop body reads without raising: it is no import line,
  or it has a second word. *)
Definition import_line_ok (line : string) : bool :=
  match words line !! 1 with
  | Some _ => true
  | None => negb (startswith line "import " || startswith line "from ")
  end.

(** A file that the loop reads without raising: it is no [.py] file, or it
  can be read and every line of it is read without raising. *)
Definition source_ok (file : string * (failure + string)) : bool :=
  negb (endswith file.1 ".py")
  || match file.2 with
     | inr content => forallb import_line_ok (split newline_char content)
     | inl _ => false
     end.

(** *** [_generate_requirements] *)

(** [l.remove(x)]; the loop calls it with an [x] that is in [l]. *)
Fixpoint list_remove (x : string) (l : list string) : list string :=
  match l with
  | [] => []
  | y :: l' => if String.eqb x y then l' else y :: list_remove x l'
  end.

(** [for dep in dependencies: if ...: dependencies.remove(dep)]. The
  iterator of a list holds a position: it reads the list as it is when the
  next item is asked for, and stops when the position is past the end. The
  list only gets shorter, so the loop body runs at most once per item of
  the list it starts with, which is what [fuel] counts. *)
Fixpoint remove_loop (fuel : nat) (project_modules : list string)
         (position : nat) (dependencies : list string) : list string :=
  match fuel with
  | O => dependencies
  | S fuel' =>
      match dependencies !! position with
      | None => dependencies
      | Some dep =>
          remove_loop fuel' project_modules (S position)
            (if any_startswith dep project_modules
             then list_remove dep dependencies else dependencies)
      end
  end.

(** The text written to [requirements.txt], or [None] when the file is
  there already; [dependencies] is the list that [_analyze_dependencies]
  returned. *)
Definition _generate_requirements (req_exists : bool)
           (dependencies : list string) (self : GitAgent) : option string :=
  if req_exists then None
  else
    let project_modules := PyDict.keys (module_dict self) in
    Some (join nl (remove_loop (length dependencies) project_modules 0
                               dependencies)).

(** What the loop leaves of a list without duplicates: an item that
  starts with the name of a project module is dropped, and the item after
  it is passed over untested. *)
Fixpoint survivors (project_modules : list string) (dependencies : list string)
  : list string :=
  match dependencies with
  | [] => []
  | dep :: rest =>
      if any_startswith dep project_modules then
        match rest with
        | [] => []
        | next :: rest' => next :: survivors project_modules rest'
        end
      else dep :: survivors project_modules rest
  end.

(** No two items in a row start with the name of a project module. *)
Fixpoint no_two_in_a_row (project_modules : list string)
         (dependencies : list string) : bool :=
  match dependencies with
  | [] => true
  | dep :: rest =>
      match rest with
      | [] => true
      | next :: _ =>
          negb (any_startswith dep project_modules
                && any_startswith next project_modules)
          && no_two_in_a_row project_modules rest
      end
  end.

(** *** [write_doc] (the tool registered by [_register_tools]) *)

(** [s.rstrip(c)] and [s.strip(c)] for a one-character set *)
Fixpoint rstrip (c : ascii) (s : string) : string :=
  match s with
  | EmptyString => EmptyString
  | String a s' =>
      match rstrip c s' with
      | EmptyString => if Ascii.eqb a c then EmptyString else String a EmptyString
      | t => String a t
      end
  end.

Definition strip (c : ascii) (s : string) : string := rstrip c (lstrip c s).

(** [os.path.join(a, b)] on a POSIX system *)
Definition os_path_join (a b : string) : string :=
  if startswith b "/" then b
  else if String.eqb a "" || endswith a "/" then a +:+ b
  else a +:+ "/" +:+ b.

(** The file that [write_doc(path, content)] writes. *)
Definition write_doc_target (project_path path : string) : string :=
  os_path_join project_path (strip "/" path).

End Upkeep.

(** ** More projects used as examples *)

Module MoreScenarios.
Import Runtime Project Agent Scenarios.

(** Package [testing] with the module [testing/helpers.py], which defines
  the function [wait]. *)
Definition testing_folder : fsnode :=
  Folder "testing"
    [ok_init;
     File "helpers.py"
       (inr (ModuleBody None [] [("wait", PyFunc "testing.helpers" None)]))].

Definition testing_project : fsnode := Folder "project" [testing_folder].

Definition testing_package : loaded :=
  Loaded (make_module "testing" (ModuleBody None [] [])) (Some testing_folder).

(** Package [app] with the sub-package [app/tests], whose module
  [test_models.py] defines the function [test_save]. *)
Definition app_with_tests_folder : fsnode :=
  Folder "app"
    [ok_init;
     models_file;
     Folder "tests"
       [ok_init;
        File "test_models.py"
          (inr (ModuleBody None []
                  [("test_save", PyFunc "app.tests.test_models" None)]))]].

Definition app_with_tests_package : loaded :=
  Loaded (make_module "app" (ModuleBody None [] [])) (Some app_with_tests_folder).

(** Package [app] next to the source file [main.py], which defines the
  function [main]. *)
Definition mixed_project : fsnode :=
  Folder "project"
    [Folder "app" [ok_init; models_file];
     File "main.py"
       (inr (ModuleBody (Some "Entry point") [] [("main", PyFunc "main" None)]))].

End MoreScenarios.

(** * Part II: properties *)

Module TreeFacts.
Import PyStr Tree.

Lemma tree_dict_ind (P : tree_dict → Prop) :
  (∀ items, Forall (λ e, P e.2) items → P (TreeDict items)) →
  ∀ t, P t.
Proof.
  intros step. fix IH 1. intros [items]. apply step.
  induction items as [|[k c] r IHr]; constructor; [apply IH | exact IHr].
Qed.

Lemma process_tree_dict_rendered items level :
  process_tree_dict (TreeDict items) level =
  flat_map (λ e, entry_lines level e.1 e.2.1 e.2.2)
           (sorted_items (rendered_entry level <$> items)).
Proof.
  cbn [process_tree_dict]. do 2 f_equal.
  induction items as [|[k c] r IHr]; [done|]. by rewrite IHr.
Qed.

Lemma tree_paths_unfold items :
  tree_paths (TreeDict items) = flat_map entry_paths items.
Proof.
  cbn [tree_paths]. induction items as [|[k c] r IHr]; [done|].
  by rewrite IHr.
Qed.

Lemma wf_tree_unfold items :
  wf_tree (TreeDict items) ↔ NoDup items.*1 ∧ Forall (λ e, wf_tree e.2) items.
Proof.
  cbn [wf_tree]. apply and_iff_compat_l.
  induction items as [|[k c] r IHr]; [by split; auto|].
  rewrite Forall_cons, IHr. done.
Qed.

Lemma all_keys_unfold P items :
  all_keys P (TreeDict items) ↔ Forall (λ e, P e.1 ∧ all_keys P e.2) items.
Proof.
  cbn [all_keys].
  induction items as [|[k c] r IHr]; [by split; auto|].
  rewrite Forall_cons, IHr. done.
Qed.

(** *** Sorting by key commutes with a key-preserving map *)

Section sort_fmap.
Context {A B : Type} (g : string * A → string * B).
Hypothesis g_key : ∀ x, (g x).1 = x.1.

Lemma key_le_fmap x y : key_le (g x) (g y) ↔ key_le x y.
Proof. unfold key_le. by rewrite !g_key. Qed.

Lemma list_merge_fmap (l1 l2 : list (string * A)) :
  list_merge key_le (g <$> l1) (g <$> l2) = g <$> list_merge key_le l1 l2.
Proof.
  revert l2. induction l1 as [|x1 l1 IH1]; intros l2.
  { by rewrite fmap_nil, !list_merge_nil_l. }
  induction l2 as [|x2 l2 IH2].
  { by rewrite fmap_nil, !list_merge_nil_r. }
  rewrite !fmap_cons, !list_merge_cons.
  destruct (decide (key_le (g x1) (g x2))) as [Hg|Hg],
           (decide (key_le x1 x2)) as [H|H];
    try (by apply key_le_fmap in Hg); try (by apply key_le_fmap in H).
  - rewrite fmap_cons. f_equal. rewrite <-IH1. by rewrite fmap_cons.
  - rewrite fmap_cons. f_equal. rewrite <-IH2. by rewrite fmap_cons.
Qed.

Lemma merge_list_to_stack_fmap (st : list (option (list (string * A)))) (l : list (string * A)) :
  merge_list_to_stack key_le (fmap_stack g st) (g <$> l) =
  fmap_stack g (merge_list_to_stack key_le st l).
Proof.
  revert l. induction st as [|[l'|] st IH]; intros l; simpl; [done| |done].
  f_equal. by rewrite list_merge_fmap, IH.
Qed.

Lemma merge_stack_fmap (st : list (option (list (string * A)))) :
  merge_stack key_le (fmap_stack g st) = g <$> merge_stack key_le st.
Proof.
  induction st as [|[l'|] st IH]; simpl; [done| |done].
  by rewrite IH, list_merge_fmap.
Qed.

Lemma merge_sort_aux_fmap (st : list (option (list (string * A)))) (l : list (string * A)) :
  merge_sort_aux key_le (fmap_stack g st) (g <$> l) =
  g <$> merge_sort_aux key_le st l.
Proof.
  revert st. induction l as [|x l IH]; intros st.
  { apply merge_stack_fmap. }
  rewrite fmap_cons. cbn [merge_sort_aux].
  rewrite <-IH. f_equal. by rewrite <-merge_list_to_stack_fmap.
Qed.

Lemma sorted_items_fmap (l : list (string * A)) : sorted_items (g <$> l) = g <$> sorted_items l.
Proof. apply (merge_sort_aux_fmap []). Qed.

End sort_fmap.

Global Instance key_le_trans {A} : Transitive (@key_le A).
Proof. intros x y z. unfold key_le. apply transitivity. Qed.

Global Instance key_le_total {A} : Total (@key_le A).
Proof. intros x y. unfold key_le. apply total, _. Qed.

Lemma sorted_items_perm {A} (l : list (string * A)) : sorted_items l ≡ₚ l.
Proof. apply merge_sort_Permutation. Qed.

Lemma sorted_items_sorted {A} (l : list (string * A)) : Sorted key_le (sorted_items l).
Proof. apply Sorted_merge_sort, _. Qed.

(** In a list with distinct keys, the key determines the item. *)
Lemma nodup_key_inj {A} (l : list (string * A)) x y :
  NoDup l.*1 → x ∈ l → y ∈ l → x.1 = y.1 → x = y.
Proof.
  induction l as [|z l IH]; intros Hnd Hx Hy Hk; [by inv Hx|].
  rewrite fmap_cons, NoDup_cons in Hnd. destruct Hnd as [Hz Hnd].
  apply elem_of_cons in Hx as [->|Hx], Hy as [->|Hy]; auto.
  - destruct Hz. rewrite Hk. by apply list_elem_of_fmap_2.
  - destruct Hz. rewrite <-Hk. by apply list_elem_of_fmap_2.
Qed.

(** Items with distinct keys have one sorted arrangement. *)
Lemma sorted_items_unique {A} (l1 l2 : list (string * A)) :
  NoDup l1.*1 → l1 ≡ₚ l2 → sorted_items l1 = sorted_items l2.
Proof.
  intros Hnd Hperm.
  apply (Sorted_unique_strong key_le); try apply sorted_items_sorted.
  - intros x1 x2 Hx1 Hx2 H12 H21.
    assert (x1.1 = x2.1) as Hk by (by apply (anti_symm String.le)).
    apply (nodup_key_inj l1); [done| | |done].
    + by rewrite <-(sorted_items_perm l1).
    + rewrite Hperm. by rewrite <-(sorted_items_perm l2).
  - by rewrite !sorted_items_perm.
Qed.

(** *** The renderer, in the order of the source *)

Lemma process_tree_dict_unfold items level :
  process_tree_dict (TreeDict items) level =
  flat_map (render_entry level) (sorted_items items).
Proof.
  rewrite process_tree_dict_rendered, sorted_items_fmap by done.
  induction (sorted_items items) as [|e l IH]; [done|].
  rewrite fmap_cons. cbn [flat_map]. by rewrite IH.
Qed.

Lemma flat_map_length_perm {A B} (f : A → list B) (l1 l2 : list A) :
  l1 ≡ₚ l2 → length (flat_map f l1) = length (flat_map f l2).
Proof. intros H. apply Permutation_length. by apply Permutation_flat_map. Qed.

(** Every node of the tree is rendered as exactly one line. *)
Lemma process_tree_dict_length t :
  ∀ level, length (process_tree_dict t level) = length (tree_paths t).
Proof.
  induction t as [items IH] using tree_dict_ind. intros level.
  rewrite process_tree_dict_unfold, tree_paths_unfold.
  rewrite (flat_map_length_perm _ _ items) by apply sorted_items_perm.
  induction IH as [|[k c] r Hc _ IHr]; [done|].
  cbn [flat_map]. rewrite !length_app, IHr. f_equal.
  unfold render_entry, entry_paths. cbn [fst snd] in *.
  rewrite length_cons, length_fmap, <-(Hc (S level)).
  destruct c as [[|??]]; [|done].
  by rewrite process_tree_dict_unfold.
Qed.

(** *** Paths of the tree that the names build *)

Lemma elem_of_flat_map {A B} (f : A → list B) (l : list A) (y : B) :
  y ∈ flat_map f l ↔ ∃ x, x ∈ l ∧ y ∈ f x.
Proof.
  rewrite list_elem_of_In, in_flat_map.
  by setoid_rewrite list_elem_of_In.
Qed.

Lemma elem_of_entry_paths e p :
  p ∈ entry_paths e ↔ p = [e.1] ∨ ∃ q, p = e.1 :: q ∧ q ∈ tree_paths e.2.
Proof.
  unfold entry_paths. rewrite elem_of_cons, list_elem_of_fmap. done.
Qed.

Lemma elem_of_tree_paths items p :
  p ∈ tree_paths (TreeDict items) ↔ ∃ e, e ∈ items ∧ p ∈ entry_paths e.
Proof. by rewrite tree_paths_unfold, elem_of_flat_map. Qed.

Lemma nil_not_in_tree_paths t : [] ∉ tree_paths t.
Proof.
  destruct t as [items]. rewrite elem_of_tree_paths.
  intros (e & _ & He). apply elem_of_entry_paths in He.
  naive_solver.
Qed.

Lemma truthy_paths t : truthy t = true ↔ ∃ p, p ∈ tree_paths t.
Proof.
  destruct t as [[|[k c] r]]; cbn [truthy].
  - split; [done|]. intros [p Hp]. by apply elem_of_nil in Hp.
  - split; [|done]. intros _. exists [k].
    rewrite tree_paths_unfold. cbn [flat_map]. apply elem_of_app. left.
    apply elem_of_entry_paths. by left.
Qed.

Section descend.
Context (f : tree_dict → tree_dict) (Q : list (list string)).
Hypothesis f_paths : ∀ c q, q ∈ tree_paths (f c) ↔ q ∈ tree_paths c ∨ q ∈ Q.

Lemma descend_paths part items p :
  p ∈ tree_paths (TreeDict (descend f part items)) ↔
  p ∈ tree_paths (TreeDict items) ∨ p = [part] ∨ ∃ q, p = part :: q ∧ q ∈ Q.
Proof.
  induction items as [|[k c] r IH].
  - rewrite !tree_paths_unfold. cbn [descend flat_map].
    rewrite app_nil_r, elem_of_entry_paths. cbn [fst snd].
    setoid_rewrite f_paths. rewrite tree_paths_unfold. cbn [flat_map].
    setoid_rewrite elem_of_nil. naive_solver.
  - cbn [descend]. destruct (String.eqb_spec part k) as [->|Hne].
    + rewrite !tree_paths_unfold. cbn [flat_map].
      rewrite !elem_of_app, !elem_of_entry_paths. cbn [fst snd].
      setoid_rewrite f_paths. naive_solver.
    + rewrite !tree_paths_unfold in IH |- *. cbn [flat_map].
      rewrite !elem_of_app, IH. naive_solver.
Qed.

End descend.

Lemma descend_keys (f : tree_dict → tree_dict) part items k :
  k ∈ (descend f part items).*1 ↔ k = part ∨ k ∈ items.*1.
Proof.
  induction items as [|[k' c] r IH]; cbn [descend].
  - rewrite fmap_cons, !fmap_nil, elem_of_cons, !elem_of_nil. done.
  - destruct (String.eqb_spec part k') as [->|Hne].
    + rewrite !fmap_cons, !elem_of_cons. cbn [fst]. naive_solver.
    + rewrite !fmap_cons, !elem_of_cons, IH. naive_solver.
Qed.

Lemma descend_wf (f : tree_dict → tree_dict) part items :
  (∀ c, wf_tree c → wf_tree (f c)) →
  wf_tree (TreeDict items) → wf_tree (TreeDict (descend f part items)).
Proof.
  intros Hf. rewrite !wf_tree_unfold.
  induction items as [|[k c] r IH]; cbn [descend]; intros [Hnd Hall].
  - split; [|by repeat constructor; apply Hf].
    rewrite fmap_cons, fmap_nil. apply NoDup_singleton.
  - rewrite fmap_cons, NoDup_cons in Hnd. destruct Hnd as [Hk Hnd].
    apply Forall_cons in Hall as [Hc Hall]. cbn [fst snd] in *.
    destruct (String.eqb_spec part k) as [->|Hne].
    + split; [by rewrite fmap_cons, NoDup_cons|].
      constructor; [by apply Hf|done].
    + destruct (IH (conj Hnd Hall)) as [Hnd' Hall'].
      split; [|by constructor].
      rewrite fmap_cons, NoDup_cons. split; [|done].
      rewrite descend_keys. naive_solver.
Qed.

Lemma descend_all_keys (f : tree_dict → tree_dict) (P : string → Prop) part items :
  P part → (∀ c, all_keys P c → all_keys P (f c)) →
  all_keys P (TreeDict items) → all_keys P (TreeDict (descend f part items)).
Proof.
  intros Hpart Hf. rewrite !all_keys_unfold.
  induction items as [|[k c] r IH]; cbn [descend]; intros Hall.
  - repeat constructor; [done|]. by apply Hf, all_keys_unfold.
  - apply Forall_cons in Hall as [[Hk Hc] Hall]. cbn [fst snd] in *.
    destruct (String.eqb_spec part k) as [->|Hne].
    + constructor; [|done]. split; [done|by apply Hf].
    + constructor; [done|by apply IH].
Qed.


Lemma insert_parts_paths parts : ∀ t p,
  p ∈ tree_paths (insert_parts parts t) ↔
  p ∈ tree_paths t ∨ p ∈ nonempty_prefixes parts.
Proof.
  induction parts as [|part parts IH]; intros [items] p.
  - cbn [insert_parts nonempty_prefixes]. rewrite elem_of_nil. naive_solver.
  - cbn [insert_parts nonempty_prefixes tree_items].
    rewrite (descend_paths _ (nonempty_prefixes parts)) by apply IH.
    rewrite elem_of_cons, list_elem_of_fmap. naive_solver.
Qed.

Lemma insert_parts_wf parts : ∀ t, wf_tree t → wf_tree (insert_parts parts t).
Proof.
  induction parts as [|part parts IH]; intros [items] Hwf; [done|].
  cbn [insert_parts tree_items]. by apply descend_wf.
Qed.

Lemma insert_parts_all_keys (P : string → Prop) parts : ∀ t,
  Forall P parts → all_keys P t → all_keys P (insert_parts parts t).
Proof.
  induction parts as [|part parts IH]; intros [items] Hparts Hall; [done|].
  apply Forall_cons in Hparts as [??].
  cbn [insert_parts tree_items]. apply descend_all_keys; auto.
Qed.

Lemma build_from_paths names : ∀ t p,
  p ∈ tree_paths (build_from t names) ↔
  p ∈ tree_paths t ∨
  ∃ name, name ∈ names ∧ p ∈ nonempty_prefixes (split dot_char name).
Proof.
  induction names as [|name names IH]; intros t p; cbn [build_from fold_left].
  - setoid_rewrite elem_of_nil. naive_solver.
  - fold (build_from (insert_parts (split dot_char name) t) names).
    rewrite IH, insert_parts_paths. setoid_rewrite elem_of_cons. naive_solver.
Qed.

Lemma build_from_wf names : ∀ t, wf_tree t → wf_tree (build_from t names).
Proof.
  induction names as [|name names IH]; intros t Hwf; [done|].
  apply IH. by apply insert_parts_wf.
Qed.

Lemma build_tree_dict_paths names p :
  p ∈ tree_paths (build_tree_dict names) ↔ p ∈ segment_paths names.
Proof.
  unfold segment_paths. rewrite elem_of_remove_dups, elem_of_flat_map.
  change (build_tree_dict names) with (build_from (TreeDict []) names).
  rewrite build_from_paths. cbn [tree_paths]. rewrite elem_of_nil. naive_solver.
Qed.

Lemma build_tree_dict_wf names : wf_tree (build_tree_dict names).
Proof.
  apply (build_from_wf names (TreeDict [])).
  apply wf_tree_unfold. split; [apply NoDup_nil_2|constructor].
Qed.

(** Distinct keys at every level give distinct paths. *)
Lemma tree_paths_NoDup t : wf_tree t → NoDup (tree_paths t).
Proof.
  induction t as [items IH] using tree_dict_ind.
  rewrite wf_tree_unfold, tree_paths_unfold. intros [Hnd Hwf].
  induction items as [|[k c] r IHr]; [apply NoDup_nil_2|].
  apply Forall_cons in IH as [IHc IHrest].
  apply Forall_cons in Hwf as [Hc Hwf].
  rewrite fmap_cons, NoDup_cons in Hnd. destruct Hnd as [Hk Hnd].
  cbn [flat_map fst snd] in *. apply NoDup_app. split_and!.
  - unfold entry_paths. cbn [fst snd]. apply NoDup_cons. split.
    + rewrite list_elem_of_fmap. intros (q & [= <-] & Hq).
      by apply nil_not_in_tree_paths in Hq.
    + apply NoDup_fmap_2; [apply _|auto].
  - intros p Hp Hp'. apply elem_of_flat_map in Hp' as (e & He & Hpe).
    apply elem_of_entry_paths in Hp, Hpe. cbn [fst snd] in *.
    apply Hk. replace k with e.1; [by apply list_elem_of_fmap_2|].
    naive_solver.
  - auto.
Qed.

(** *** Trees with the same nodes are rendered alike *)

Lemma child_paths items k c q :
  NoDup items.*1 → (k, c) ∈ items → q ≠ [] →
  q ∈ tree_paths c ↔ k :: q ∈ tree_paths (TreeDict items).
Proof.
  intros Hnd Hin Hq0. rewrite elem_of_tree_paths. split.
  - intros Hq. exists (k, c). split; [done|].
    apply elem_of_entry_paths. right. by exists q.
  - intros (e & He & Hp). apply elem_of_entry_paths in Hp as [Hp|(q' & Hp & Hq')].
    + by injection Hp as _ ->.
    + injection Hp as Hk <-.
      by rewrite <-(nodup_key_inj items (k, c) e Hnd Hin He Hk) in Hq'.
Qed.

Lemma key_paths items k :
  k ∈ items.*1 ↔ [k] ∈ tree_paths (TreeDict items).
Proof.
  rewrite elem_of_tree_paths, list_elem_of_fmap. split.
  - intros (e & -> & He). exists e. split; [done|].
    apply elem_of_entry_paths. by left.
  - intros (e & He & Hp). exists e. split; [|done].
    apply elem_of_entry_paths in Hp as [Hp|(q & Hp & Hq)].
    + by injection Hp.
    + injection Hp as -> <-. by apply nil_not_in_tree_paths in Hq.
Qed.

Lemma tree_equiv_child l1 l2 k c1 c2 :
  NoDup l1.*1 → NoDup l2.*1 →
  tree_equiv (TreeDict l1) (TreeDict l2) →
  (k, c1) ∈ l1 → (k, c2) ∈ l2 → tree_equiv c1 c2.
Proof.
  intros Hnd1 Hnd2 Heq H1 H2 q.
  destruct (decide (q = [])) as [->|Hq].
  { split; intros Hq; by apply nil_not_in_tree_paths in Hq. }
  by rewrite (child_paths l1 k c1), (child_paths l2 k c2), (Heq (k :: q)).
Qed.

Lemma truthy_equiv c1 c2 : tree_equiv c1 c2 → truthy c1 = truthy c2.
Proof.
  intros Heq. apply eq_true_iff_eq. rewrite !truthy_paths.
  by setoid_rewrite (Heq _).
Qed.

Lemma process_tree_dict_equiv t1 : ∀ t2 level,
  wf_tree t1 → wf_tree t2 → tree_equiv t1 t2 →
  process_tree_dict t1 level = process_tree_dict t2 level.
Proof.
  induction t1 as [l1 IH] using tree_dict_ind. intros [l2] level.
  rewrite !wf_tree_unfold. intros [Hnd1 Hwf1] [Hnd2 Hwf2] Heq.
  rewrite !process_tree_dict_rendered. f_equal.
  rewrite Forall_forall in IH, Hwf1, Hwf2.
  assert (∀ k c1 c2, (k, c1) ∈ l1 → (k, c2) ∈ l2 →
            rendered_entry level (k, c1) = rendered_entry level (k, c2))
    as Hsame.
  { intros k c1 c2 H1 H2.
    assert (tree_equiv c1 c2) as Hc by eauto using tree_equiv_child.
    unfold rendered_entry. cbn [fst snd].
    rewrite (truthy_equiv c1 c2 Hc).
    by rewrite (IH (k, c1) H1 c2 (S level) (Hwf1 _ H1) (Hwf2 _ H2) Hc : process_tree_dict c1 _ = _). }
  assert (∀ l : list (string * tree_dict),
            (rendered_entry level <$> l).*1 = l.*1) as Hkeys.
  { intros l. rewrite <-list_fmap_compose. by apply list_fmap_ext. }
  apply sorted_items_unique; [by rewrite Hkeys|].
  apply NoDup_Permutation.
  - apply (NoDup_fmap_1 fst). by rewrite Hkeys.
  - apply (NoDup_fmap_1 fst). by rewrite Hkeys.
  - intros x. rewrite !list_elem_of_fmap. split.
    + intros ([k c1] & -> & H1).
      assert (k ∈ l2.*1) as Hk.
      { apply key_paths, Heq, key_paths. by apply (list_elem_of_fmap_2 fst _ (k, c1)). }
      apply list_elem_of_fmap in Hk as ([k' c2] & Hk & H2). cbn in Hk. subst k'.
      exists (k, c2). eauto.
    + intros ([k c2] & -> & H2).
      assert (k ∈ l1.*1) as Hk.
      { apply key_paths, Heq, key_paths. by apply (list_elem_of_fmap_2 fst _ (k, c2)). }
      apply list_elem_of_fmap in Hk as ([k' c1] & Hk & H1). cbn in Hk. subst k'.
      exists (k, c1). split; [symmetry|]; eauto.
Qed.

(** *** Lines of the rendered text *)

Lemma app_cons a s t : String a s +:+ t = String a (s +:+ t).
Proof. done. Qed.

Lemma app_nil_l t : "" +:+ t = t.
Proof. done. Qed.

Lemma contains_char_cons c a s :
  contains_char c (String a s) = Ascii.eqb c a || contains_char c s.
Proof. done. Qed.

Lemma contains_char_app c a b :
  contains_char c (a +:+ b) = contains_char c a || contains_char c b.
Proof.
  induction a as [|x a IH]; [done|].
  by rewrite app_cons, !contains_char_cons, IH, orb_assoc.
Qed.

Lemma newline_free_app a b :
  newline_free (a +:+ b) ↔ newline_free a ∧ newline_free b.
Proof. unfold newline_free. rewrite contains_char_app. apply orb_false_iff. Qed.

Lemma newline_free_cons a s :
  newline_free (String a s) ↔ Ascii.eqb newline_char a = false ∧ newline_free s.
Proof. unfold newline_free. rewrite contains_char_cons. apply orb_false_iff. Qed.

Lemma app_nonempty_r a b : b ≠ "" → a +:+ b ≠ "".
Proof. destruct a; [done|]. by rewrite app_cons. Qed.

Lemma split_nonempty sep s : split sep s ≠ [].
Proof.
  induction s as [|c s IH]; [done|]. cbn [split].
  destruct (Ascii.eqb c sep); [done|]. by destruct (split sep s).
Qed.

Lemma split_newline_free_parts s :
  newline_free s → Forall newline_free (split dot_char s).
Proof.
  induction s as [|c s IH]; intros Hs; [by repeat constructor|].
  apply newline_free_cons in Hs as [Hc Hs]. specialize (IH Hs).
  cbn [split]. destruct (Ascii.eqb c dot_char); [by constructor|].
  destruct (split dot_char s) as [|w ws]; [by repeat constructor; apply newline_free_cons|].
  apply Forall_cons in IH as [Hw Hws].
  constructor; [by apply newline_free_cons|done].
Qed.

Lemma split_one_line s : newline_free s → split newline_char s = [s].
Proof.
  induction s as [|c s IH]; intros Hs; [done|].
  apply newline_free_cons in Hs as [Hc Hs]. cbn [split].
  rewrite Ascii.eqb_sym, Hc. by rewrite IH.
Qed.

Lemma split_first_line a b :
  newline_free a →
  split newline_char (a +:+ nl +:+ b) = a :: split newline_char b.
Proof.
  induction a as [|c a IH]; intros Ha.
  - rewrite app_nil_l. unfold nl. rewrite app_cons, app_nil_l. cbn [split].
    by rewrite Ascii.eqb_refl.
  - apply newline_free_cons in Ha as [Hc Ha]. rewrite app_cons. cbn [split].
    rewrite Ascii.eqb_sym, Hc. by rewrite IH.
Qed.

Lemma split_join l :
  l ≠ [] → Forall newline_free l → split newline_char (join nl l) = l.
Proof.
  induction l as [|a l IH]; [done|]. intros _ Hall.
  apply Forall_cons in Hall as [Ha Hl].
  destruct l as [|b l]; [by apply split_one_line|].
  change (join nl (a :: b :: l)) with (a +:+ nl +:+ join nl (b :: l)).
  rewrite split_first_line by done. f_equal. by apply IH.
Qed.

(** Cutting the joined lines at the newlines gives the lines back. *)
Lemma lines_join l : Forall good_line l → lines (join nl l) = l.
Proof.
  intros Hall. destruct l as [|a l]; [done|].
  assert (join nl (a :: l) ≠ "") as Hne.
  { apply Forall_cons in Hall as [[Ha _] _].
    destruct l; [done|].
    change (join nl (a :: s :: l)) with (a +:+ nl +:+ join nl (s :: l)).
    by destruct a. }
  unfold lines. destruct (join nl (a :: l)) eqn:E; [done|]. rewrite <-E.
  apply split_join; [done|]. eapply Forall_impl; [done|]. by intros ? [??].
Qed.

Lemma indent_of_newline_free level : newline_free (indent_of level).
Proof.
  induction level as [|n IH]; [done|].
  unfold indent_of. cbn [repeat_str]. by apply newline_free_app.
Qed.

Lemma render_entry_header_good level name suffix :
  newline_free name → newline_free suffix →
  good_line (indent_of level +:+ "- " +:+ name +:+ suffix).
Proof.
  intros Hn Hs. split.
  - by apply app_nonempty_r.
  - rewrite !newline_free_app. split_and!; auto using indent_of_newline_free.
    done.
Qed.

Lemma process_tree_dict_good t : ∀ level,
  all_keys newline_free t → Forall good_line (process_tree_dict t level).
Proof.
  induction t as [items IH] using tree_dict_ind. intros level.
  rewrite all_keys_unfold, process_tree_dict_unfold. intros Hall.
  apply Forall_flat_map. rewrite sorted_items_perm.
  rewrite Forall_forall in IH, Hall |- *. intros [k c] Hin.
  destruct (Hall _ Hin) as [Hk Hc]. cbn [fst snd] in *.
  unfold render_entry. cbn [fst snd]. destruct (truthy c).
  - constructor; [by apply render_entry_header_good|].
    by apply (IH _ Hin).
  - repeat constructor.
    + apply app_nonempty_r. done.
    + rewrite !newline_free_app. split_and!; auto using indent_of_newline_free.
      done.
Qed.

Lemma build_tree_dict_all_keys names :
  Forall newline_free names → all_keys newline_free (build_tree_dict names).
Proof.
  intros Hall. change (build_tree_dict names) with (build_from (TreeDict []) names).
  assert (all_keys newline_free (TreeDict [])) as H0 by done.
  revert H0. generalize (TreeDict []).
  induction Hall as [|name names Hname _ IH]; intros t Ht; [done|].
  apply IH. apply insert_parts_all_keys; [|done].
  by apply split_newline_free_parts.
Qed.

End TreeFacts.

Module PyDictFacts.
Import PyDict.

Lemma get_setitem {V} k k' (v : V) d :
  get k (setitem k' v d) = if String.eqb k k' then Some v else get k d.
Proof.
  induction d as [|[k0 v0] d IH]; cbn [setitem get].
  - done.
  - destruct (String.eqb_spec k' k0) as [->|Hne]; cbn [get].
    + by destruct (String.eqb k k0).
    + rewrite IH. destruct (String.eqb_spec k k0) as [->|?]; [|done].
      destruct (String.eqb_spec k0 k') as [->|?]; done.
Qed.

Lemma get_app {V} k (d1 d2 : list (string * V)) :
  get k (d1 ++ d2) = match get k d1 with Some v => Some v | None => get k d2 end.
Proof.
  induction d1 as [|[k0 v0] d1 IH]; [done|]. cbn [app get].
  by destruct (String.eqb k k0).
Qed.


Lemma contains_keys {V} k (d : list (string * V)) :
  contains k d = true ↔ k ∈ keys d.
Proof.
  unfold contains, keys. induction d as [|[k0 v0] d IH]; cbn [get].
  - rewrite fmap_nil, elem_of_nil. done.
  - rewrite fmap_cons, elem_of_cons. cbn [fst].
    destruct (String.eqb_spec k k0) as [->|?]; [naive_solver|].
    rewrite IH. naive_solver.
Qed.

(** [d |= es]: the last entry of [es] for a key wins, and a key that [es]
  does not mention keeps its value. *)
Lemma get_update {V} k (d es : list (string * V)) :
  get k (update d es)
  = match get k (reverse es) with Some v => Some v | None => get k d end.
Proof.
  unfold update. revert d. induction es as [|[k' v'] es IH]; intros d; [done|].
  cbn [fold_left fst snd]. rewrite IH, reverse_cons, get_app, get_setitem.
  destruct (get k (reverse es)); [done|]. cbn [get].
  by destruct (String.eqb k k').
Qed.

Lemma keys_update {V} k (d es : list (string * V)) :
  k ∈ keys (update d es) ↔ k ∈ keys d ∨ k ∈ keys es.
Proof.
  rewrite <-!contains_keys. unfold contains. rewrite get_update.
  assert (k ∈ keys (reverse es) ↔ k ∈ keys es) as Hrev.
  { unfold keys. by rewrite fmap_reverse, elem_of_reverse. }
  rewrite <-!contains_keys in Hrev. unfold contains in Hrev.
  destruct (get k (reverse es)), (get k es), (get k d); naive_solver.
Qed.

Lemma fold_setitem_fmap {A V} (g : A → string * V) l d :
  fold_left (λ acc x, setitem (g x).1 (g x).2 acc) l d = update d (g <$> l).
Proof.
  unfold update. revert d. induction l as [|x l IH]; intros d; [done|].
  rewrite fmap_cons. cbn [fold_left]. apply IH.
Qed.

Lemma setitem_nonempty {V} k (v : V) d : setitem k v d ≠ [].
Proof. destruct d as [|[k' v'] d]; cbn [setitem]; [done|]. by destruct (String.eqb k k'). Qed.

Lemma update_nonempty {V} (d es : list (string * V)) : d ≠ [] → update d es ≠ [].
Proof.
  unfold update. revert d. induction es as [|[k v] es IH]; intros d Hd; [done|].
  cbn [fold_left]. apply IH, setitem_nonempty.
Qed.

End PyDictFacts.

Module ExtractorFacts.
Import PyStr PyDict Runtime Project Agent PyDictFacts.

Lemma add_classes_update module f d :
  add_classes module f d = update d (class_entries module f).
Proof.
  unfold add_classes, class_entries, update.
  revert d. induction (mod_classes module) as [|[name obj] l IH]; intros d; [done|].
  cbn [fold_left fst snd]. rewrite filter_cons. cbn [fst snd].
  destruct (startswith (cls_module obj) (mod_name module)) eqn:E; cbn [negb].
  - rewrite decide_True by done. rewrite fmap_cons. cbn [fold_left fst snd]. apply IH.
  - rewrite decide_False by done. apply IH.
Qed.

Lemma add_functions_update module f d :
  add_functions module f d = update d (function_entries module f).
Proof.
  unfold add_functions, function_entries, update.
  revert d. induction (mod_functions module) as [|[name obj] l IH]; intros d; [done|].
  cbn [fold_left fst snd]. rewrite filter_cons. cbn [fst snd].
  destruct (startswith (fn_module obj) (mod_name module)) eqn:E; cbn [negb].
  - rewrite decide_True by done. rewrite fmap_cons. cbn [fold_left fst snd]. apply IH.
  - rewrite decide_False by done. apply IH.
Qed.

Lemma module_m_dict_update module f :
  module_m_dict module f
  = update (update [("obj", PObj (ModuleObj module))] (class_entries module f))
           (function_entries module f).
Proof.
  unfold module_m_dict. by rewrite add_classes_update, add_functions_update.
Qed.

Lemma module_m_dict_nonempty module f : module_m_dict module f ≠ [].
Proof. rewrite module_m_dict_update. by do 2 apply update_nonempty. Qed.

Lemma method_dict_update f name obj :
  method_dict f name obj = update [] (method_entries f name obj).
Proof.
  exact (fold_setitem_fmap
           (λ mm : string * pyfunc,
              (_get_abs_name f (name +:+ "." +:+ mm.1),
               PDict [("doc", doc_value (fn_doc mm.2));
                      ("obj", PObj (FuncObj mm.2))]))
           (cls_functions obj) []).
Qed.

(** The keys of the method mapping, whatever the methods' own modules. *)
Lemma method_dict_keys f name obj k :
  k ∈ keys (method_dict f name obj)
  ↔ ∃ mm, mm ∈ cls_functions obj ∧ k = _get_abs_name f (name +:+ "." +:+ mm.1).
Proof.
  rewrite method_dict_update, keys_update. unfold keys, method_entries.
  rewrite fmap_nil, elem_of_nil, <-list_fmap_compose, list_elem_of_fmap.
  naive_solver.
Qed.

End ExtractorFacts.

Module EvictFacts.
Import PyStr Agent.




Lemma prefix_refl (s : string) : String.prefix s s = true.
Proof.
  induction s as [|c s IH]; [done|]. cbn [String.prefix].
  by destruct (ascii_dec c c).
Qed.


End EvictFacts.

Module WalkerFacts.
Import PyStr PyDict Runtime Project Agent.

Lemma fsnode_ind (P : fsnode → Prop) :
  (∀ name content, P (File name content)) →
  (∀ name entries, Forall P entries → P (Folder name entries)) →
  ∀ n, P n.
Proof.
  intros Hfile Hfolder. fix IH 1. intros [name content|name entries].
  - apply Hfile.
  - apply Hfolder. induction entries as [|n r IHr]; constructor; [apply IH|exact IHr].
Qed.

Lemma depth_entry name entries n :
  n ∈ entries → depth n < depth (Folder name entries).
Proof.
  cbn [depth]. induction entries as [|n' r IH]; intros Hin; [by inv Hin|].
  apply elem_of_cons in Hin as [->|Hin]; [lia|].
  specialize (IH Hin). lia.
Qed.

Lemma depth_node_entries p n : n ∈ node_entries p → depth n < depth p.
Proof.
  destruct p as [name content|name entries]; cbn [node_entries].
  - intros Hin. by inv Hin.
  - apply depth_entry.
Qed.

Lemma find_folder_elem name entries sub :
  find_folder name entries = Some sub → sub ∈ entries.
Proof.
  induction entries as [|[n c|n es] r IH]; cbn [find_folder]; [done|..].
  - intros H. right. auto.
  - destruct (String.eqb name n).
    + intros [= <-]. left.
    + intros H. right. auto.
Qed.

(** A package that an importer loads lies in the importer's directory. *)
Lemma load_module_depth importer modname sub p :
  load_module importer modname = inr sub → ld_path sub = Some p →
  depth p < depth importer.
Proof.
  unfold load_module.
  destruct (find_folder _ (node_entries importer)) as [s|] eqn:Ef; [|done].
  destruct (find_file "__init__.py" (node_entries s)) as [[e|body]|]; try done.
  intros [= <-] [= <-]. by apply find_folder_elem, depth_node_entries in Ef.
Qed.

(** A package that is imported by name lies below the directory where the
  resolution starts. *)
Lemma import_from_depth parts : ∀ entries prefix sub p name,
  import_from entries prefix parts = inr sub → ld_path sub = Some p →
  depth p < depth (Folder name entries).
Proof.
  induction parts as [|part rest IH]; intros entries prefix sub p name; [done|].
  cbn [import_from]. destruct (String.eqb part ""); [done|].
  assert (∀ s, find_folder part entries = Some s →
               depth s < depth (Folder name entries)) as Hsub.
  { intros s Hs. by apply find_folder_elem, (depth_entry name) in Hs. }
  assert (∀ s, find_folder part entries = Some s →
               import_from (node_entries s) ((prefix +:+ part) +:+ ".") rest = inr sub →
               ld_path sub = Some p → depth p < depth (Folder name entries)) as Hrec.
  { intros s Hs Himp Hp. specialize (Hsub s Hs).
    destruct s as [n c|n es]; cbn [node_entries] in Himp.
    - destruct rest as [|r rest']; [done|]. cbn in Himp.
      by destruct (String.eqb r "").
    - pose proof (IH _ _ _ _ n Himp Hp). lia. }
  destruct (find_folder part entries) as [s|] eqn:Ef.
  - destruct (find_file "__init__.py" (node_entries s)) as [[e|body]|].
    + done.
    + destruct rest as [|r rest].
      * intros [= <-] [= <-]. by apply Hsub.
      * by apply Hrec.
    + destruct (find_file (part +:+ ".py") entries) as [[e|body]|].
      * done.
      * destruct rest; [|done]. by intros [= <-] ?.
      * destruct rest as [|r rest].
        -- intros [= <-] [= <-]. by apply Hsub.
        -- by apply Hrec.
  - destruct (find_file (part +:+ ".py") entries) as [[e|body]|]; cbn; try done.
    destruct rest; [|done]. by intros [= <-] ?.
Qed.

Lemma import_module_depth project name sub p :
  import_module project name = inr sub → ld_path sub = Some p →
  depth p < depth project.
Proof.
  unfold import_module. destruct (startswith name "."); [done|].
  destruct project as [n c|n entries]; cbn [node_entries].
  - destruct (split dot_char name) as [|r rest]; [done|]. cbn.
    by destruct (String.eqb r "").
  - apply import_from_depth.
Qed.

Lemma load_module_loaded_depth importer modname sub :
  load_module importer modname = inr sub → loaded_depth sub < depth importer.
Proof.
  intros Hl. unfold loaded_depth.
  destruct (ld_path sub) as [p|] eqn:Ep; cbn [from_option].
  - by eapply load_module_depth.
  - revert Hl Ep. unfold load_module.
    destruct (find_folder _ (node_entries importer)) as [s|]; [|done].
    destruct (find_file "__init__.py" (node_entries s)) as [[e|body]|]; try done.
    by intros [= <-].
Qed.

Lemma import_module_loaded_depth project name sub :
  import_module project name = inr sub → loaded_depth sub < depth project.
Proof.
  intros Hi. unfold loaded_depth.
  destruct (ld_path sub) as [p|] eqn:Ep; cbn [from_option].
  - by eapply import_module_depth.
  - destruct project as [n c|n entries]; [|cbn [depth]; lia].
    revert Hi. unfold import_module. destruct (startswith name "."); [done|].
    cbn [node_entries]. destruct (split dot_char name) as [|r rest]; [done|].
    cbn. by destruct (String.eqb r "").
Qed.

Lemma emit_importers bound importer prefix cands yielded :
  depth importer ≤ bound →
  Forall (λ nc, match nc.2 with
                | CPackage _ _ below => importers_within bound below
                | _ => True
                end) cands →
  importers_within bound (emit importer prefix cands yielded).
Proof.
  intros Himp Hall. revert yielded.
  induction Hall as [|[fn c] cands Hc _ IH]; intros yielded; [constructor|].
  cbn [emit]. destruct c as [m|m init below|]; cbn [snd] in Hc.
  - case_bool_decide; [apply IH|]. constructor; [done|apply IH].
  - constructor; [done|].
    destruct init as [e|body].
    + destruct (is_import_error e); [apply IH|]. by repeat constructor.
    + apply Forall_app. split; [done|apply IH].
  - apply IH.
Qed.

Lemma walk_packages_importers path : ∀ prefix,
  importers_within (depth path) (walk_packages path prefix).
Proof.
  induction path as [name content|name entries IH] using fsnode_ind;
    intros prefix; [constructor|].
  cbn [walk_packages]. apply emit_importers; [done|].
  rewrite TreeFacts.sorted_items_perm.
  assert (∀ n, n ∈ entries → depth n ≤ depth (Folder name entries)) as Hdepth.
  { intros n Hn. apply depth_entry with (name := name) in Hn. lia. }
  clear -IH Hdepth. revert Hdepth. generalize (depth (Folder name entries)).
  intros bound Hdepth.
  induction IH as [|n r Hn _ IHr]; [constructor|].
  constructor.
  - cbn [snd]. unfold candidate_of.
    destruct (getmodulename (node_name n)) as [[|a m]|].
    + destruct (is_folder n && negb (contains_char dot_char (node_name n))); [|done].
      destruct (find_file "__init__.py" (node_entries n)); [|done].
      eapply Forall_impl; [apply Hn|]. intros [imp ? ?|?]; [|done].
      intros Hle. etrans; [exact Hle|]. apply Hdepth. left.
    + by destruct (_ || _).
    + destruct (is_folder n && negb (contains_char dot_char (node_name n))); [|done].
      destruct (find_file "__init__.py" (node_entries n)); [|done].
      eapply Forall_impl; [apply Hn|]. intros [imp ? ?|?]; [|done].
      intros Hle. etrans; [exact Hle|]. apply Hdepth. left.
  - apply IHr. intros n' Hn'. apply Hdepth. by right.
Qed.

(** The loop gives the same result for two bodies that agree on every item
  of the walk. *)
Lemma for_each_walked_ext {S} bound events (body1 body2 : fsnode → string → bool → S → M S) :
  importers_within bound events →
  (∀ importer modname ispkg s log, depth importer ≤ bound →
     body1 importer modname ispkg s log = body2 importer modname ispkg s log) →
  ∀ s log, for_each_walked events body1 s log = for_each_walked events body2 s log.
Proof.
  intros Hall Hbody. induction Hall as [|ev events Hev _ IH]; intros s log; [done|].
  destruct ev as [importer modname ispkg|e]; [|done].
  cbn [for_each_walked]. unfold mbind, M_bind.
  rewrite (Hbody importer modname ispkg s log Hev).
  destruct (body2 importer modname ispkg s log) as [[e|s'] log']; [done|apply IH].
Qed.

(** Fuel above the depth of the package's directory is enough: any two
  such amounts give the same result. *)
Lemma process_package_fuel fuel1 : ∀ fuel2 project module skip_modules log,
  loaded_depth module < fuel1 → loaded_depth module < fuel2 →
  _process_package fuel1 project module skip_modules log
  = _process_package fuel2 project module skip_modules log.
Proof.
  induction fuel1 as [|fuel1 IH];
    intros fuel2 project module skip_modules log H1 H2; [lia|].
  destruct fuel2 as [|fuel2]; [lia|].
  cbn [_process_package]. unfold mbind at 1 3, M_bind at 1 3, lift at 1 3.
  unfold loaded_depth in H1, H2.
  destruct (ld_path module) as [p|] eqn:Ep; [|done]. cbn [from_option] in *.
  unfold mbind at 1 6, M_bind at 1 6.
  rewrite (for_each_walked_ext (depth p) _ _
             (λ importer modname ispkg st,
                if any_startswith modname skip_modules then mret st
                else if ispkg then
                  sub ← lift (load_module importer modname);
                  r ← _process_package fuel2 project sub skip_modules;
                  mret (WalkerState (PyDict.update (ws_children st) r)
                                    (ws_module st)
                                    ({[modname]} ∪ ws_processed st))
                else
                  try_except
                    (submodule ← lift (import_module project modname);
                     if any_startswith modname (elements (ws_processed st))
                     then mret st
                     else mret (WalkerState
                                  (ws_children st)
                                  (PyDict.update (ws_module st)
                                     (_process_module (ld_module submodule) modname))
                                  (ws_processed st)))
                    (λ e, LOG_info (SkippingImportError modname e);; mret st))).
  - done.
  - apply walk_packages_importers.
  - intros importer modname ispkg s log0 Himp.
    destruct (any_startswith modname skip_modules); [done|].
    destruct ispkg; [|done].
    unfold mbind at 1 3, M_bind at 1 3, lift.
    destruct (load_module importer modname) as [e|sub] eqn:El; [done|].
    unfold mbind, M_bind.
    pose proof (load_module_loaded_depth _ _ _ El).
    rewrite (IH fuel2 project sub skip_modules log0); [done|lia..].
Qed.

(** The fuel that [_gen_module_dict] passes is enough for every package
  that the project holds. *)
Lemma scan_package_fuel project entry st extra log :
  scan_package (S (depth project) + extra) project entry st log
  = scan_package (S (depth project)) project entry st log.
Proof.
  unfold scan_package. case_bool_decide; [|done].
  unfold try_except, mbind, M_bind, lift.
  destruct (import_module project (dotted_name (we_root entry)))
    as [e|module] eqn:Ei; [done|].
  case_bool_decide; [done|].
  pose proof (import_module_loaded_depth _ _ _ Ei).
  rewrite (process_package_fuel _ (S (depth project))); [done|lia..].
Qed.

Lemma scan_fuel project entries extra : ∀ st log,
  scan (S (depth project) + extra) project entries st log
  = scan (S (depth project)) project entries st log.
Proof.
  induction entries as [|entry rest IH]; intros st log; [done|].
  cbn [scan]. unfold mbind at 1 3, M_bind at 1 3.
  change (S (depth project + extra)) with (S (depth project) + extra).
  rewrite scan_package_fuel.
  destruct (scan_package (S (depth project)) project entry st log)
    as [[e|[c st1]] log1]; [done|].
  unfold mbind, M_bind. cbn [fst snd].
  destruct c; [apply IH|].
  destruct (scan_files entry (we_files entry) st1 log1) as [[e|st2] log2]; [done|].
  apply IH.
Qed.

(** *** The scan never lets an exception out *)

Lemma returns_try_except {A} (body : M A) (handler : exn → M A) :
  (∀ e, returns (handler e)) → returns (try_except body handler).
Proof.
  intros Hh log. unfold try_except.
  destruct (body log) as [[e|a] log']; [apply Hh|by eexists _, _].
Qed.

Lemma returns_log_then {A} entry (a : A) : returns (LOG_info entry;; mret a).
Proof. intros log. by eexists _, _. Qed.

Lemma scan_package_returns fuel project entry st :
  returns (scan_package fuel project entry st).
Proof.
  unfold scan_package. case_bool_decide; [|intros log; by eexists _, _].
  apply returns_try_except. intros e. apply returns_log_then.
Qed.

Lemma scan_files_returns entry files : ∀ st, returns (scan_files entry files st).
Proof.
  induction files as [|file rest IH]; intros st; [intros log; by eexists _, _|].
  cbn [scan_files]. destruct (_ && _); [|apply IH].
  case_bool_decide; [apply IH|]. intros log. unfold mbind, M_bind.
  edestruct (returns_try_except
               (mret (ScanState
                        (PyDict.update (sc_module_dict st)
                           (_process_module (module_from_spec (splitext_root file)) ""))
                        (sc_processed st)))
               (λ e, LOG_info (ErrorProcessingModule (splitext_root file) e);; mret st))
    as (st' & log' & ->).
  { intros e. apply returns_log_then. }
  apply IH.
Qed.

Lemma scan_returns fuel project entries : ∀ st,
  returns (scan fuel project entries st).
Proof.
  induction entries as [|entry rest IH]; intros st; [intros log; by eexists _, _|].
  cbn [scan]. intros log. unfold mbind at 1, M_bind at 1.
  destruct (scan_package_returns fuel project entry st log) as ([c st1] & log1 & ->).
  unfold mbind at 1, M_bind at 1. cbn [fst snd].
  destruct c.
  - apply IH.
  - destruct (scan_files_returns entry (we_files entry) st1 log1) as (st2 & log2 & ->).
    apply IH.
Qed.

(** Whatever the project, [_gen_module_dict] returns an agent. *)
Lemma gen_module_dict_returns project self : returns (_gen_module_dict project self).
Proof.
  intros log. unfold _gen_module_dict, mbind, M_bind.
  destruct (scan_returns (S (depth project)) project
              (os_walk keep_dir [] project)
              (ScanState (module_dict self) ∅) log) as (st & log' & ->).
  by eexists _, _.
Qed.

End WalkerFacts.

Module FlattenFacts.
Import PyStr PyDict Runtime Project Agent IndexSpec.

Lemma app_assoc (a b c : string) : (a +:+ b) +:+ c = a +:+ b +:+ c.
Proof.
  induction a as [|x a IH]; [done|].
  by rewrite !TreeFacts.app_cons, IH.
Qed.

Lemma app_nil_r (a : string) : a +:+ "" = a.
Proof. induction a as [|x a IH]; [done|]. by rewrite TreeFacts.app_cons, IH. Qed.

Lemma prefix_app_r (p v t : string) :
  String.prefix p v = true → String.prefix p (v +:+ t) = true.
Proof.
  revert v. induction p as [|c p IH]; intros v; [by destruct v, t|].
  destruct v as [|c' v]; [done|]. rewrite TreeFacts.app_cons. cbn [String.prefix].
  destruct (ascii_dec c c'); [apply IH|done].
Qed.

(** [add_doc] in one step: the text under [name] grows by one entry. *)
Lemma add_doc_insert name subname doc level docs :
  add_doc name subname doc level docs
  = <[name := default "" (docs !! name) +:+ level +:+ " " +:+ subname +:+ ":"
              +:+ nl +:+ format_value (if truth doc then doc else PStr "")
              +:+ nl +:+ nl]> docs.
Proof.
  unfold add_doc. destruct (docs !! name) as [v|] eqn:E.
  - by rewrite (lookup_total_correct _ _ _ E).
  - rewrite lookup_total_insert_eq, insert_insert_eq. done.
Qed.

Lemma add_doc_append name subname doc level a b :
  add_doc name subname doc level (append_docs a b)
  = append_docs a (add_doc name subname doc level b).
Proof.
  rewrite !add_doc_insert. apply map_eq. intros k. unfold append_docs.
  destruct (decide (k = name)) as [->|Hne].
  - rewrite lookup_insert_eq, !lookup_union_with, lookup_insert_eq.
    destruct (a !! name) as [x|], (b !! name) as [y|]; cbn;
      by rewrite ?app_assoc.
  - rewrite lookup_insert_ne, !lookup_union_with, lookup_insert_ne by done. done.
Qed.

Lemma add_doc_dom name subname doc level docs k :
  is_Some (add_doc name subname doc level docs !! k)
  ↔ k = name ∨ is_Some (docs !! k).
Proof.
  rewrite add_doc_insert. destruct (decide (k = name)) as [->|Hne].
  - rewrite lookup_insert_eq. split; [by left|by eexists].
  - rewrite lookup_insert_ne by done. naive_solver.
Qed.

Lemma add_doc_headed name subname doc level docs :
  headed docs →
  is_Some (docs !! name) ∨ (level = "#" ∧ subname = name) →
  headed (add_doc name subname doc level docs).
Proof.
  intros Hh Hcase k v. rewrite add_doc_insert.
  destruct (decide (k = name)) as [->|Hne].
  - rewrite lookup_insert_eq. intros [= <-].
    destruct (docs !! name) as [old|] eqn:E; cbn [default].
    + apply prefix_app_r. by apply Hh.
    + destruct Hcase as [[? [=]]|[-> ->]]. unfold startswith.
      rewrite TreeFacts.app_nil_l.
      change ("# " +:+ name +:+ ":" +:+ nl)
        with (String "#" (String " " (name +:+ ":" +:+ nl))).
      change ("#" +:+ " " +:+ name +:+ ":" +:+ nl +:+ ?x)
        with (String "#" (String " " (name +:+ ":" +:+ nl +:+ x))).
      cbn [String.prefix]. do 2 (destruct (ascii_dec _ _); [|done]).
      rewrite <-(app_assoc name ":" (nl +:+ _)), <-(app_assoc (name +:+ ":") nl).
      rewrite <-(app_assoc name ":" nl).
      apply prefix_app_r, EvictFacts.prefix_refl.
  - rewrite lookup_insert_ne by done. apply Hh.
Qed.

(** Folding a step that passes [append_docs a] through. *)
Lemma fold_append {X} (f : gmap string string → X → gmap string string)
      (l : list X) (a b : gmap string string) :
  (∀ x b', x ∈ l → f (append_docs a b') x = append_docs a (f b' x)) →
  fold_left f l (append_docs a b) = append_docs a (fold_left f l b).
Proof.
  revert b. induction l as [|x l IH]; intros b Hf; [done|]. cbn.
  rewrite Hf by left. apply IH. intros; apply Hf. by right.
Qed.

Lemma add_method_docs_append module_name obj_name obj_info a b :
  add_method_docs module_name obj_name obj_info (append_docs a b)
  = append_docs a (add_method_docs module_name obj_name obj_info b).
Proof.
  unfold add_method_docs. destruct (dict_has _ _); [|done].
  apply fold_append. intros; apply add_doc_append.
Qed.

Lemma add_object_docs_append module_name module_info a b :
  add_object_docs module_name module_info (append_docs a b)
  = append_docs a (add_object_docs module_name module_info b).
Proof.
  unfold add_object_docs. apply fold_append. intros oo b' _.
  destruct (is_dict _); [|done].
  by rewrite add_doc_append, add_method_docs_append.
Qed.

Lemma add_unit_docs_append name info a b :
  add_unit_docs name info (append_docs a b)
  = append_docs a (add_unit_docs name info b).
Proof.
  unfold add_unit_docs.
  assert ((if truth (dict_get "doc" PNone info)
           then add_doc name name (dict_get "doc" PNone info) "#" (append_docs a b)
           else append_docs a b)
          = append_docs a (if truth (dict_get "doc" PNone info)
                           then add_doc name name (dict_get "doc" PNone info) "#" b
                           else b)) as ->.
  { destruct (truth _); [apply add_doc_append|done]. }
  destruct (dict_has _ _); [|done].
  apply fold_append. intros mm b' _.
  by rewrite add_doc_append, add_object_docs_append.
Qed.

(** The flattener as a loop over the units, in the order of the source. *)
Lemma generate_module_doc_dict_unfold items docs :
  _generate_module_doc_dict (PDict items) docs
  = fold_left (flatten_unit _generate_module_doc_dict) items docs.
Proof.
  cbn [_generate_module_doc_dict].
  revert docs. induction items as [|[name info] items IH]; intros docs; [done|].
  cbn [fold_left]. rewrite <-IH. f_equal.
  unfold flatten_unit, children_of. cbn [fst snd].
  destruct info as [| | |fields]; try done.
  generalize (add_unit_docs name (PDict fields) docs) as d. intros d.
  induction fields as [|[k v] fields IHf]; [done|].
  cbn [PyDict.get]. by destruct (String.eqb "children" k).
Qed.

Lemma generate_module_doc_dict_not_dict g docs :
  is_dict g = false → _generate_module_doc_dict g docs = docs.
Proof. by destruct g. Qed.

Lemma pyval_size_dict items : pyval_size (PDict items) = S (items_size items).
Proof.
  cbn [pyval_size]. f_equal.
  induction items as [|[k v] items IH]; [done|]. cbn [foldr items_size snd].
  by rewrite IH.
Qed.

Lemma get_size k fields (v : pyval) :
  PyDict.get k fields = Some v → pyval_size v ≤ items_size fields.
Proof.
  induction fields as [|[k' v'] fields IH]; [done|].
  cbn [PyDict.get items_size foldr snd]. fold (items_size fields).
  destruct (String.eqb k k'); [intros [= ->]; lia|].
  intros H. apply IH in H. lia.
Qed.

Lemma elem_size (ni : string * pyval) items :
  ni ∈ items → pyval_size ni.2 ≤ items_size items.
Proof.
  induction items as [|x items IH]; [by intros ?%elem_of_nil|].
  cbn [items_size foldr]. fold (items_size items).
  intros [->|H%IH]%elem_of_cons; lia.
Qed.

Lemma children_size info v :
  children_of info = Some v → pyval_size v < pyval_size info.
Proof.
  destruct info as [| | |fields]; try done. cbn [children_of].
  intros H%get_size. rewrite pyval_size_dict. lia.
Qed.

(** Strong induction on the nesting of a graph: a property of a dict
  follows from the property of the [children] of its units. *)
Lemma graph_ind (P : pyval → Prop) :
  (∀ g, is_dict g = false → P g) →
  (∀ items,
     (∀ ni v, ni ∈ items → children_of ni.2 = Some v → P v) →
     P (PDict items)) →
  ∀ g, P g.
Proof.
  intros Hleaf Hdict g.
  remember (pyval_size g) as n eqn:Hn. assert (pyval_size g ≤ n) as Hle by lia.
  clear Hn. revert g Hle. induction n as [|n IH]; intros g Hle.
  - destruct g as [| | |items]; try (by apply Hleaf).
    rewrite pyval_size_dict in Hle. lia.
  - destruct g as [| | |items]; try (by apply Hleaf).
    apply Hdict. intros ni v Hin Hc. apply IH.
    apply children_size in Hc. apply elem_size in Hin.
    rewrite pyval_size_dict in Hle. lia.
Qed.

Lemma generate_module_doc_dict_append g a b :
  _generate_module_doc_dict g (append_docs a b)
  = append_docs a (_generate_module_doc_dict g b).
Proof.
  revert b. induction g as [g Hg|items IH] using graph_ind; intros b.
  - by rewrite !generate_module_doc_dict_not_dict.
  - rewrite !generate_module_doc_dict_unfold. apply fold_append.
    intros ni b' Hin. unfold flatten_unit. rewrite add_unit_docs_append.
    destruct (children_of ni.2) as [v|] eqn:E; [|done]. by eapply IH.
Qed.

Lemma append_docs_empty_r (a : gmap string string) : append_docs a ∅ = a.
Proof.
  apply map_eq. intros k. unfold append_docs. rewrite lookup_union_with.
  rewrite lookup_empty. by destruct (a !! k).
Qed.

(** Folding a step that keeps an invariant of the index. *)
Lemma fold_invariant {X} (I : gmap string string → Prop)
      (f : gmap string string → X → gmap string string) (l : list X) docs :
  (∀ x d, x ∈ l → I d → I (f d x)) → I docs → I (fold_left f l docs).
Proof.
  revert docs. induction l as [|x l IH]; intros docs Hf Hd; [done|]. cbn.
  apply IH; [intros; apply Hf; [by right|done]|]. apply Hf; [left|done].
Qed.

Lemma add_doc_ready m name subname doc level docs :
  headed docs ∧ is_Some (docs !! m) →
  is_Some (docs !! name) ∨ (level = "#" ∧ subname = name) →
  headed (add_doc name subname doc level docs)
  ∧ is_Some (add_doc name subname doc level docs !! m).
Proof.
  intros [Hh Hm] Hc. split; [by apply add_doc_headed|].
  apply add_doc_dom. by right.
Qed.

Lemma add_method_docs_ready m obj_name obj_info docs :
  headed docs ∧ is_Some (docs !! m) →
  headed (add_method_docs m obj_name obj_info docs)
  ∧ is_Some (add_method_docs m obj_name obj_info docs !! m).
Proof.
  intros H. unfold add_method_docs. destruct (dict_has _ _); [|done].
  apply (fold_invariant (λ d, headed d ∧ is_Some (d !! m))); [|done].
  intros ff d _ Hd. apply add_doc_ready; [done|]. left. apply Hd.
Qed.

Lemma add_object_docs_ready m module_info docs :
  headed docs ∧ is_Some (docs !! m) →
  headed (add_object_docs m module_info docs)
  ∧ is_Some (add_object_docs m module_info docs !! m).
Proof.
  intros H. unfold add_object_docs.
  apply (fold_invariant (λ d, headed d ∧ is_Some (d !! m))); [|done].
  intros oo d _ Hd. destruct (is_dict _); [|done].
  apply add_method_docs_ready, add_doc_ready; [done|]. left. apply Hd.
Qed.

Lemma add_unit_docs_headed name info docs :
  headed docs → headed (add_unit_docs name info docs).
Proof.
  intros H. unfold add_unit_docs.
  assert (headed (if truth (dict_get "doc" PNone info)
                  then add_doc name name (dict_get "doc" PNone info) "#" docs
                  else docs)) as H'.
  { destruct (truth _); [|done]. apply add_doc_headed; [done|by right]. }
  destruct (dict_has _ _); [|done].
  apply (fold_invariant headed); [|done].
  intros mm d _ Hd.
  apply (add_object_docs_ready mm.1).
  split; [apply add_doc_headed; [done|by right]|].
  apply add_doc_dom. by left.
Qed.

Lemma generate_module_doc_dict_headed g docs :
  headed docs → headed (_generate_module_doc_dict g docs).
Proof.
  revert docs. induction g as [g Hg|items IH] using graph_ind; intros docs Hd.
  - by rewrite generate_module_doc_dict_not_dict.
  - rewrite generate_module_doc_dict_unfold. apply (fold_invariant headed); [|done].
    intros ni d Hin Hd'. unfold flatten_unit.
    destruct (children_of ni.2) as [v|] eqn:E.
    + eapply IH; [done..|]. by apply add_unit_docs_headed.
    + by apply add_unit_docs_headed.
Qed.

End FlattenFacts.

Module UpdateFacts.
Import PyDict PyDictFacts.

Lemma update_app {V} (d es1 es2 : list (string * V)) :
  update d (es1 ++ es2) = update (update d es1) es2.
Proof. unfold update. apply fold_left_app. Qed.









End UpdateFacts.

Module PassFacts.
Import PyStr PyDict Runtime Project Agent IndexSpec.

Lemma oblivious_ret {A} (a : A) : oblivious (mret a).
Proof. exists (inr a), []. intros log. by rewrite app_nil_r. Qed.

Lemma oblivious_raise {A} e : oblivious (raise (A:=A) e).
Proof. exists (inl e), []. intros log. by rewrite app_nil_r. Qed.

Lemma oblivious_lift {A} (r : exn + A) : oblivious (lift r).
Proof. exists r, []. intros log. by rewrite app_nil_r. Qed.

Lemma oblivious_log entry : oblivious (LOG_info entry).
Proof. by exists (inr ()), [entry]. Qed.

Lemma oblivious_bind {A B} (c : M A) (k : A → M B) :
  oblivious c → (∀ a, oblivious (k a)) → oblivious (c ≫= k).
Proof.
  intros ([e|a] & w & Hc) Hk.
  - exists (inl e), w. intros log. unfold mbind, M_bind. by rewrite Hc.
  - destruct (Hk a) as (r & w' & Hka). exists r, (w ++ w'). intros log.
    unfold mbind, M_bind. by rewrite Hc, Hka, app_assoc.
Qed.

Lemma oblivious_try {A} (body : M A) (handler : exn → M A) :
  oblivious body → (∀ e, oblivious (handler e)) →
  oblivious (try_except body handler).
Proof.
  intros ([e|a] & w & Hc) Hh.
  - destruct (Hh e) as (r & w' & He). exists r, (w ++ w'). intros log.
    unfold try_except. by rewrite Hc, He, app_assoc.
  - exists (inr a), w. intros log. unfold try_except. by rewrite Hc.
Qed.

Lemma oblivious_for_each {S} events
      (body : fsnode → string → bool → S → M S) :
  (∀ importer modname ispkg s, oblivious (body importer modname ispkg s)) →
  ∀ s, oblivious (for_each_walked events body s).
Proof.
  intros Hb. induction events as [|[importer modname ispkg|e] rest IH]; intros s.
  - apply oblivious_ret.
  - cbn [for_each_walked]. apply oblivious_bind; [apply Hb|apply IH].
  - apply oblivious_raise.
Qed.

(** What the walk of a package returns and logs depends on the project
  alone. *)
Lemma process_package_oblivious fuel project : ∀ module skip_modules,
  oblivious (_process_package fuel project module skip_modules).
Proof.
  induction fuel as [|fuel IH]; intros module skip_modules;
    [apply oblivious_raise|].
  cbn [_process_package].
  apply oblivious_bind; [apply oblivious_lift|]. intros path.
  apply oblivious_bind.
  - apply oblivious_for_each. intros importer modname ispkg st.
    destruct (any_startswith modname skip_modules); [apply oblivious_ret|].
    destruct ispkg.
    + apply oblivious_bind; [apply oblivious_lift|]. intros sub.
      apply oblivious_bind; [apply IH|]. intros r. apply oblivious_ret.
    + apply oblivious_try.
      * apply oblivious_bind; [apply oblivious_lift|]. intros submodule.
        destruct (any_startswith _ _); apply oblivious_ret.
      * intros e. apply oblivious_bind; [apply oblivious_log|].
        intros _. apply oblivious_ret.
  - intros st. destruct (_ && _); apply oblivious_ret.
Qed.

(** The package block of the scan merges entries into the dict it finds;
  which entries, and what is logged, does not depend on that dict. *)
Lemma scan_package_merge fuel project entry p :
  ∃ flag es p' w, ∀ d log,
    scan_package fuel project entry (ScanState d p) log
    = (inr (flag, ScanState (update d es) p'), log ++ w).
Proof.
  unfold scan_package. case_bool_decide.
  2:{ exists false, [], p, []. intros d log. by rewrite app_nil_r. }
  unfold try_except, mbind, M_bind, lift. cbn [sc_processed sc_module_dict].
  destruct (import_module project (dotted_name (we_root entry))) as [e|module].
  { exists false, [], p, [ProcessingModuleError (dotted_name (we_root entry)) e].
    done. }
  case_bool_decide.
  { exists true, [], p, []. intros d log. by rewrite app_nil_r. }
  destruct (process_package_oblivious fuel project module ["docs"; "test"; "tests"])
    as ([e|r] & w & Hr).
  - exists false, [], p,
      (w ++ [ProcessingModuleError (dotted_name (we_root entry)) e]).
    intros d log. rewrite Hr. unfold LOG_info, mret, M_ret.
    by rewrite app_assoc.
  - exists false, r, ({[dotted_name (we_root entry)]} ∪ p), w.
    intros d log. by rewrite Hr.
Qed.

Lemma scan_files_merge entry files : ∀ p,
  ∃ es w, ∀ d log,
    scan_files entry files (ScanState d p) log
    = (inr (ScanState (update d es) p), log ++ w).
Proof.
  induction files as [|file rest IH]; intros p.
  { exists [], []. intros d log. by rewrite app_nil_r. }
  cbn [scan_files sc_processed sc_module_dict].
  destruct (_ && _); [|apply IH].
  case_bool_decide; [apply IH|].
  destruct (IH p) as (es & w & Hrest).
  exists (_process_module (module_from_spec (splitext_root file)) "" ++ es), w.
  intros d log. unfold mbind, M_bind, try_except, mret, M_ret.
  by rewrite Hrest, UpdateFacts.update_app.
Qed.

Lemma scan_merge fuel project entries : ∀ p,
  ∃ es p' w, ∀ d log,
    scan fuel project entries (ScanState d p) log
    = (inr (ScanState (update d es) p'), log ++ w).
Proof.
  induction entries as [|entry rest IH]; intros p.
  { exists [], p, []. intros d log. by rewrite app_nil_r. }
  cbn [scan].
  destruct (scan_package_merge fuel project entry p) as (flag & es1 & p1 & w1 & H1).
  destruct flag.
  - destruct (IH p1) as (es & p' & w & Hrest).
    exists (es1 ++ es), p', (w1 ++ w). intros d log.
    unfold mbind, M_bind. rewrite H1. cbn [fst snd]. unfold mret, M_ret.
    by rewrite Hrest, UpdateFacts.update_app, app_assoc.
  - destruct (scan_files_merge entry (we_files entry) p1) as (es2 & w2 & H2).
    destruct (IH p1) as (es & p' & w & Hrest).
    exists (es1 ++ es2 ++ es), p', (w1 ++ w2 ++ w). intros d log.
    unfold mbind, M_bind. rewrite H1. cbn [fst snd]. rewrite H2, Hrest.
    by rewrite !UpdateFacts.update_app, !app_assoc.
Qed.

(** A pass merges the entries it finds into the graph of the agent and
  appends to its Doc Index; the entries and the log lines are those of the
  project. *)
Lemma gen_module_dict_merge project :
  ∃ es w, ∀ self log,
    _gen_module_dict project self log
    = (inr {| module_dict := update (module_dict self) es;
              module_doc_dict :=
                _generate_module_doc_dict
                  (PDict (update (module_dict self) es)) (module_doc_dict self) |},
       log ++ w).
Proof.
  destruct (scan_merge (S (depth project)) project (os_walk keep_dir [] project) ∅)
    as (es & p' & w & H).
  exists es, w. intros self log. unfold _gen_module_dict, mbind, M_bind.
  by rewrite H.
Qed.

End PassFacts.

Module GraphFacts.
Import PyStr PyDict Runtime Project Agent IndexSpec GraphSpec.

Lemma prefix_trans (a b c : string) :
  String.prefix a b = true → String.prefix b c = true → String.prefix a c = true.
Proof.
  revert b c. induction a as [|x a IH]; intros b c; [by destruct c|].
  destruct b as [|y b]; [done|]. destruct c as [|z c]; [done|].
  cbn [String.prefix]. destruct (ascii_dec x y) as [->|]; [|done].
  destruct (ascii_dec y z) as [->|]; [|done]. apply IH.
Qed.

Lemma prefix_app (a b : string) : String.prefix a (a +:+ b) = true.
Proof.
  induction a as [|x a IH]; [by destruct b|]. rewrite TreeFacts.app_cons.
  cbn [String.prefix]. by destruct (ascii_dec x x).
Qed.

Lemma join_cons_cons sep a b l :
  join sep (a :: b :: l) = a +:+ sep +:+ join sep (b :: l).
Proof. done. Qed.

Lemma join_split sep s : join (String sep "") (split sep s) = s.
Proof.
  induction s as [|c s IH]; [done|]. cbn [split].
  destruct (Ascii.eqb_spec c sep) as [->|Hne].
  - pose proof (TreeFacts.split_nonempty sep s) as Hs.
    destruct (split sep s) as [|w ws]; [done|].
    rewrite join_cons_cons, IH. done.
  - destruct (split sep s) as [|w ws] eqn:E.
    + by destruct (TreeFacts.split_nonempty sep s).
    + rewrite <-IH. destruct ws as [|w' ws]; [done|].
      by rewrite !join_cons_cons, TreeFacts.app_cons.
Qed.

(** *** The names of the units *)

Lemma import_from_name parts : ∀ entries prefix m,
  import_from entries prefix parts = inr m →
  mod_name (ld_module m) = prefix +:+ join "." parts.
Proof.
  induction parts as [|part rest IH]; intros entries prefix m; [done|].
  cbn [import_from]. destruct (String.eqb part ""); [done|].
  assert (∀ sub, rest ≠ [] →
            import_from (node_entries sub) ((prefix +:+ part) +:+ ".") rest = inr m →
            mod_name (ld_module m) = prefix +:+ join "." (part :: rest)) as Hrec.
  { intros sub Hne Hm. apply IH in Hm. rewrite Hm.
    destruct rest as [|r rest']; [done|].
    by rewrite join_cons_cons, !FlattenFacts.app_assoc. }
  assert (∀ body p, mod_name (ld_module (Loaded (make_module (prefix +:+ part) body) p))
                    = prefix +:+ join "." [part]) as Hhere by done.
  destruct (find_folder part entries) as [s|].
  - destruct (find_file "__init__.py" (node_entries s)) as [[e|body]|].
    + done.
    + destruct rest as [|r rest]; [by intros [= <-]|]. by apply Hrec.
    + destruct (find_file (part +:+ ".py") entries) as [[e|body]|].
      * done.
      * destruct rest; [by intros [= <-]|done].
      * destruct rest as [|r rest]; [by intros [= <-]|]. by apply Hrec.
  - destruct (find_file (part +:+ ".py") entries) as [[e|body]|]; cbn; try done.
    destruct rest; [by intros [= <-]|done].
Qed.

(** A unit that is imported by name carries that name. *)
Lemma import_module_name project name m :
  import_module project name = inr m → mod_name (ld_module m) = name.
Proof.
  unfold import_module. destruct (startswith name "."); [done|].
  intros H%import_from_name. rewrite H.
  change (join "." (split dot_char name)) with (join (String dot_char "") (split dot_char name)).
  by rewrite join_split.
Qed.

Lemma load_module_name importer modname sub :
  load_module importer modname = inr sub → mod_name (ld_module sub) = modname.
Proof.
  unfold load_module. destruct (find_folder _ _) as [s|]; [|done].
  destruct (find_file "__init__.py" (node_entries s)) as [[e|body]|]; try done.
  by intros [= <-].
Qed.

Lemma emit_names_below importer prefix cands yielded :
  Forall (λ nc, match nc.2 with
                | CPackage _ _ below => names_below prefix below
                | _ => True
                end) cands →
  names_below prefix (emit importer prefix cands yielded).
Proof.
  intros Hall. revert yielded.
  induction Hall as [|[fn c] cands Hc _ IH]; intros yielded; [constructor|].
  cbn [emit]. destruct c as [m|m init below|]; cbn [snd] in Hc.
  - case_bool_decide; [apply IH|]. constructor; [apply prefix_app|apply IH].
  - constructor; [apply prefix_app|].
    destruct init as [e|body].
    + destruct (is_import_error e); [apply IH|]. by repeat constructor.
    + apply Forall_app. split; [done|apply IH].
  - apply IH.
Qed.

(** Every item that [walk_packages] yields is named below the prefix that
  the walk was given. *)
Lemma walk_packages_names_below path : ∀ prefix,
  names_below prefix (walk_packages path prefix).
Proof.
  induction path as [name content|name entries IH] using WalkerFacts.fsnode_ind;
    intros prefix; [constructor|].
  cbn [walk_packages]. apply emit_names_below.
  rewrite TreeFacts.sorted_items_perm.
  induction IH as [|n r Hn _ IHr]; [constructor|].
  constructor; [|apply IHr].
  cbn [snd]. unfold candidate_of.
  assert (names_below prefix (walk_packages n (prefix +:+ node_name n +:+ "."))) as Hb.
  { eapply Forall_impl; [apply Hn|]. intros [imp modname ?|?]; [|done].
    apply prefix_trans. apply prefix_app. }
  destruct (getmodulename (node_name n)) as [[|a m]|].
  - destruct (is_folder n && negb (contains_char dot_char (node_name n))); [|done].
    by destruct (find_file "__init__.py" (node_entries n)).
  - by destruct (_ || _).
  - destruct (is_folder n && negb (contains_char dot_char (node_name n))); [|done].
    by destruct (find_file "__init__.py" (node_entries n)).
Qed.

(** *** Invariants of the loops *)

Lemma Forall_setitem {V} (P : string * V → Prop) k v d :
  P (k, v) → Forall P d → Forall P (setitem k v d).
Proof.
  intros Hkv. induction 1 as [|[k' v'] d Hx Hd IH]; cbn [setitem].
  - by repeat constructor.
  - destruct (String.eqb_spec k k') as [->|_]; by constructor.
Qed.

Lemma Forall_update {V} (P : string * V → Prop) d es :
  Forall P d → Forall P es → Forall P (update d es).
Proof.
  intros Hd Hes. revert d Hd. unfold update.
  induction Hes as [|[k v] es Hx _ IH]; intros d Hd; [done|].
  cbn [fold_left]. by apply IH, Forall_setitem.
Qed.

(** An invariant of the state that the body keeps whenever it returns
  holds when the loop returns. *)
Lemma for_each_walked_invariant {S} (I : S → Prop) prefix events
      (body : fsnode → string → bool → S → M S) :
  names_below prefix events →
  (∀ importer modname ispkg s log s' log',
     startswith modname prefix = true → I s →
     body importer modname ispkg s log = (inr s', log') → I s') →
  ∀ s log s' log',
    I s → for_each_walked events body s log = (inr s', log') → I s'.
Proof.
  intros Hall Hbody. induction Hall as [|ev events Hev _ IH]; intros s log s' log' Hs.
  - by intros [= <- _].
  - destruct ev as [importer modname ispkg|e]; [|done].
    cbn [for_each_walked]. unfold mbind, M_bind.
    destruct (body importer modname ispkg s log) as [[e|s1] log1] eqn:Eb; [done|].
    apply IH. by eapply Hbody.
Qed.

Lemma process_module_entries module f_module_name :
  mod_name module = f_module_name →
  Forall module_node (_process_module module f_module_name)
  ∧ Forall (λ kv, kv.1 = f_module_name) (_process_module module f_module_name).
Proof.
  intros Hn. unfold _process_module. destruct (is_empty _).
  - split; constructor.
  - split; repeat constructor; [|done]. exists module. by rewrite Hn.
Qed.

(** What [_process_package] returns for a package is nothing, or one entry
  under the name of the package with the shape of a package node. *)
Lemma process_package_node fuel project : ∀ module skip_modules log r log',
  _process_package fuel project module skip_modules log = (inr r, log') →
  r = [] ∨ ∃ node, r = [(mod_name (ld_module module), node)]
                   ∧ package_node (mod_name (ld_module module)) node.
Proof.
  induction fuel as [|fuel IH]; intros module skip_modules log r log'; [done|].
  cbn [_process_package]. unfold mbind at 1, M_bind at 1, lift at 1.
  destruct (ld_path module) as [path|]; [|done]. cbn [from_option].
  set (name := mod_name (ld_module module)).
  unfold mbind at 1, M_bind at 1.
  match goal with
  | |- context [for_each_walked ?ev ?b ?s0 log] =>
      destruct (for_each_walked ev b s0 log) as [[e|st] log1] eqn:Ewalk; [done|]
  end.
  assert (Forall (λ kv, startswith kv.1 (name +:+ ".") = true) (ws_children st)
          ∧ Forall (λ kv, package_node kv.1 kv.2) (ws_children st)
          ∧ Forall (λ kv, startswith kv.1 (name +:+ ".") = true) (ws_module st)
          ∧ Forall module_node (ws_module st)) as (Hc1 & Hc2 & Hm1 & Hm2).
  { revert Ewalk.
    apply (for_each_walked_invariant
             (λ st, Forall (λ kv, startswith kv.1 (name +:+ ".") = true) (ws_children st)
                    ∧ Forall (λ kv, package_node kv.1 kv.2) (ws_children st)
                    ∧ Forall (λ kv, startswith kv.1 (name +:+ ".") = true) (ws_module st)
                    ∧ Forall module_node (ws_module st))
             (name +:+ "."));
      [apply walk_packages_names_below| |by repeat split; constructor].
    clear st log1. intros importer modname ispkg s log0 s' log0' Hname Hs.
    destruct (any_startswith modname skip_modules); [by intros [= <- _]|].
    destruct ispkg.
    - unfold mbind at 1, M_bind at 1, lift.
      destruct (load_module importer modname) as [e|sub] eqn:El; [done|].
      unfold mbind, M_bind.
      destruct (_process_package fuel project sub skip_modules log0)
        as [[e|r0] log2] eqn:Er; [done|].
      intros [= <- _]. cbn [ws_children ws_module].
      apply IH in Er. rewrite (load_module_name _ _ _ El) in Er.
      destruct Hs as (H1 & H2 & H3 & H4).
      assert (Forall (λ kv, startswith kv.1 (name +:+ ".") = true) r0
              ∧ Forall (λ kv, package_node kv.1 kv.2) r0) as [Hr1 Hr2].
      { destruct Er as [->|(node & -> & Hnode)]; [split; constructor|].
        split; by repeat constructor. }
      repeat split; [by apply Forall_update..|done|done].
    - unfold try_except, mbind, M_bind, lift.
      destruct (import_module project modname) as [e|submodule] eqn:Ei.
      { by intros [= <- _]. }
      destruct (any_startswith modname (elements (ws_processed s)));
        [by intros [= <- _]|].
      intros [= <- _]. cbn [ws_children ws_module].
      destruct Hs as (H1 & H2 & H3 & H4).
      destruct (process_module_entries (ld_module submodule) modname)
        as [Hp1 Hp2]; [by eapply import_module_name|].
      repeat split; [done|done|apply Forall_update; [done|]|by apply Forall_update].
      eapply Forall_impl; [exact Hp2|]. by intros [k v] ->. }
  destruct (is_empty (ws_children st) && is_empty (ws_module st)) eqn:Eempty.
  - intros [= <- _]. by left.
  - intros [= <- _]. right. eexists. split; [done|]. by constructor.
Qed.

Lemma process_module_loose name :
  _process_module (module_from_spec name) ""
  = [(name, PDict [("obj", PObj (ModuleObj (empty_module name)))])].
Proof. done. Qed.

Lemma scan_package_pass_graph fuel project entry st log c st' log' :
  pass_graph (sc_module_dict st) →
  scan_package fuel project entry st log = (inr (c, st'), log') →
  pass_graph (sc_module_dict st').
Proof.
  intros Hst. unfold scan_package. case_bool_decide; [|by intros [= _ <- _]].
  unfold try_except, mbind, M_bind, lift.
  destruct (import_module project (dotted_name (we_root entry)))
    as [e|module] eqn:Ei; [by intros [= _ <- _]|].
  case_bool_decide; [by intros [= _ <- _]|].
  destruct (_process_package fuel project module ["docs"; "test"; "tests"] log)
    as [[e|r] log1] eqn:Er; [by intros [= _ <- _]|].
  intros [= _ <- _]. cbn [sc_module_dict].
  apply Forall_update; [done|].
  apply process_package_node in Er as [->|(node & -> & Hnode)]; [constructor|].
  constructor; [by left|constructor].
Qed.

Lemma scan_files_pass_graph entry files : ∀ st log st' log',
  pass_graph (sc_module_dict st) →
  scan_files entry files st log = (inr st', log') →
  pass_graph (sc_module_dict st').
Proof.
  induction files as [|file rest IH]; intros st log st' log' Hst;
    [by intros [= <- _]|].
  cbn [scan_files]. destruct (_ && _); [|by apply IH].
  case_bool_decide; [by apply IH|].
  unfold mbind, M_bind, try_except, mret, M_ret. apply IH.
  cbn [sc_module_dict]. apply Forall_update; [done|].
  rewrite process_module_loose. constructor; [by right|constructor].
Qed.

Lemma scan_pass_graph fuel project entries : ∀ st log st' log',
  pass_graph (sc_module_dict st) →
  scan fuel project entries st log = (inr st', log') →
  pass_graph (sc_module_dict st').
Proof.
  induction entries as [|entry rest IH]; intros st log st' log' Hst;
    [by intros [= <- _]|].
  cbn [scan]. unfold mbind at 1, M_bind at 1.
  destruct (scan_package fuel project entry st log) as [[e|[c st1]] log1] eqn:Ep;
    [done|].
  apply scan_package_pass_graph in Ep; [|done].
  unfold mbind at 1, M_bind at 1. cbn [fst snd]. destruct c.
  - by apply IH.
  - destruct (scan_files entry (we_files entry) st1 log1) as [[e|st2] log2] eqn:Ef;
      [done|].
    apply scan_files_pass_graph in Ef; [|done]. by apply IH.
Qed.

(** A pass over a graph of this shape gives a graph of this shape. *)
Lemma gen_module_dict_pass_graph project self log self' log' :
  pass_graph (module_dict self) →
  _gen_module_dict project self log = (inr self', log') →
  pass_graph (module_dict self').
Proof.
  intros Hself. unfold _gen_module_dict, mbind, M_bind.
  destruct (scan _ _ _ _ log) as [[e|st] log1] eqn:Es; [done|].
  intros [= <- _]. cbn [module_dict]. by eapply scan_pass_graph in Es.
Qed.

Lemma built_pass_graph project : pass_graph (module_dict (built project)).
Proof.
  unfold built, run, new_agent.
  destruct (_gen_module_dict project {| module_dict := []; module_doc_dict := ∅ |} [])
    as [[e|self] log] eqn:E; [constructor|].
  eapply gen_module_dict_pass_graph; [|exact E]. constructor.
Qed.

(** *** The keys of the Doc Index *)

Lemma grown_by_refl Q docs : grown_by Q docs docs.
Proof. intros k. by left. Qed.

Lemma grown_by_add_doc Q docs name subname doc level d :
  Q name → grown_by Q docs d → grown_by Q docs (add_doc name subname doc level d).
Proof.
  intros HQ Hd k [->|Hk]%FlattenFacts.add_doc_dom; [by right|by apply Hd].
Qed.

Lemma grown_by_add_method_docs Q docs m obj_name obj_info d :
  Q m → grown_by Q docs d → grown_by Q docs (add_method_docs m obj_name obj_info d).
Proof.
  intros HQ Hd. unfold add_method_docs. destruct (dict_has _ _); [|done].
  apply (FlattenFacts.fold_invariant (grown_by Q docs)); [|done].
  intros ff d' _ Hd'. by apply grown_by_add_doc.
Qed.

Lemma grown_by_add_object_docs Q docs m module_info d :
  Q m → grown_by Q docs d → grown_by Q docs (add_object_docs m module_info d).
Proof.
  intros HQ Hd. unfold add_object_docs.
  apply (FlattenFacts.fold_invariant (grown_by Q docs)); [|done].
  intros oo d' _ Hd'. destruct (is_dict _); [|done].
  by apply grown_by_add_method_docs, grown_by_add_doc.
Qed.

Lemma grown_by_add_unit_docs Q docs name info d :
  (truth (dict_get "doc" PNone info) = true → Q name) →
  (dict_has "module" info = true →
   Forall (λ mm, Q mm.1) (dict_items (dict_get "module" PNone info))) →
  grown_by Q docs d → grown_by Q docs (add_unit_docs name info d).
Proof.
  intros Hdoc Hmod Hd. unfold add_unit_docs.
  assert (grown_by Q docs
            (if truth (dict_get "doc" PNone info)
             then add_doc name name (dict_get "doc" PNone info) "#" d else d)) as Hd'.
  { destruct (truth _); [|done]. apply grown_by_add_doc; auto. }
  destruct (dict_has "module" info); [|done].
  apply (FlattenFacts.fold_invariant (grown_by Q docs)); [|done].
  intros mm d0 Hin Hd0.
  assert (Q mm.1) as HQ.
  { specialize (Hmod eq_refl). rewrite Forall_forall in Hmod. by apply Hmod. }
  by apply grown_by_add_object_docs, grown_by_add_doc.
Qed.

Lemma grown_by_weaken (Q Q' : string → Prop) docs d :
  (∀ k, Q k → Q' k) → grown_by Q docs d → grown_by Q' docs d.
Proof. intros HQ Hd k Hk. destruct (Hd k Hk); auto. Qed.

Lemma grown_by_trans Q docs d1 d2 :
  grown_by Q docs d1 → grown_by Q d1 d2 → grown_by Q docs d2.
Proof. intros H1 H2 k Hk. destruct (H2 k Hk); auto. Qed.

Lemma startswith_below (k child name : string) :
  startswith k (child +:+ ".") = true →
  startswith child (name +:+ ".") = true →
  startswith k (name +:+ ".") = true.
Proof.
  unfold startswith. intros Hk Hc. eapply prefix_trans; [|exact Hk].
  by apply FlattenFacts.prefix_app_r.
Qed.

(** The flattener adds to the index nothing but names below the units of
  the graph. *)
Lemma generate_module_doc_dict_keys g : ∀ items docs,
  g = PDict items → pass_graph items →
  grown_by (λ k, ∃ n, n ∈ keys items ∧ startswith k (n +:+ ".") = true)
           docs (_generate_module_doc_dict g docs).
Proof.
  induction g as [g Hg|items0 IH] using FlattenFacts.graph_ind;
    intros items docs; [by intros ->|].
  intros [= <-] Hitems. rewrite FlattenFacts.generate_module_doc_dict_unfold.
  apply (FlattenFacts.fold_invariant
           (grown_by (λ k, ∃ n, n ∈ keys items0 ∧ startswith k (n +:+ ".") = true)
                     docs)); [|apply grown_by_refl].
  intros [name info] d Hin Hd.
  unfold pass_graph in Hitems. rewrite Forall_forall in Hitems.
  pose proof (Hitems _ Hin) as Hnode. cbn [fst snd] in Hnode.
  assert (name ∈ keys items0) as Hname.
  { unfold keys. apply list_elem_of_fmap. by exists (name, info). }
  eapply grown_by_trans; [exact Hd|].
  apply (grown_by_weaken (λ k, startswith k (name +:+ ".") = true));
    [intros k Hk; by exists name|].
  unfold flatten_unit. cbn [fst snd].
  destruct Hnode as [Hnode|Hnode].
  - inversion Hnode as [n m children modules Hm Hc1 Hc2 Hm1 Hm2 Hne Hn Hinfo].
    subst n info.
    change (children_of (PDict _)) with (Some (PDict children)). cbn match.
    eapply (grown_by_trans _ _
              (add_unit_docs name
                 (PDict [("obj", PObj (ModuleObj m)); ("children", PDict children);
                         ("module", PDict modules)]) d)).
    + apply grown_by_add_unit_docs; [done| |apply grown_by_refl]. by intros _.
    + eapply grown_by_weaken; [|eapply (IH (name, _) (PDict children));
                                  [done|done|done|]].
      * intros k (n & Hn & Hk). unfold keys in Hn.
        apply list_elem_of_fmap in Hn as (kv & -> & Hkv).
        rewrite Forall_forall in Hc1. eapply startswith_below; [exact Hk|].
        by apply Hc1.
      * eapply Forall_impl; [exact Hc2|]. intros kv ?. by left.
  - unfold loose_node in Hnode. cbn [snd fst] in Hnode. subst info.
    apply grown_by_refl.
Qed.

Lemma startswith_dotted (k n : string) :
  startswith k (n +:+ ".") = true → contains_char dot_char k = true.
Proof.
  unfold startswith. revert k. induction n as [|c n IH]; intros k.
  - rewrite TreeFacts.app_nil_l. destruct k as [|a k]; [done|].
    cbn [String.prefix]. destruct (ascii_dec "." a) as [<-|]; [|done]. done.
  - rewrite TreeFacts.app_cons. destruct k as [|a k]; [done|].
    cbn [String.prefix]. destruct (ascii_dec c a); [|done].
    intros H%IH. rewrite TreeFacts.contains_char_cons, H. apply orb_true_r.
Qed.

End GraphFacts.

Module UpkeepFacts.
Import PyStr PyDict Runtime Project Agent IndexSpec GraphSpec Upkeep.

(** *** [pro_dict] *)

Lemma get_delitem_ne {V} k k' (d : list (string * V)) :
  k ≠ k' → get k (delitem k' d) = get k d.
Proof.
  intros Hne. induction d as [|[k0 v0] d IH]; [done|]. cbn [delitem get].
  destruct (String.eqb_spec k' k0) as [->|Hne'].
  - by destruct (String.eqb_spec k k0).
  - cbn [get]. by rewrite IH.
Qed.

Lemma delitem_absent {V} k (d : list (string * V)) :
  contains k d = false → delitem k d = d.
Proof.
  unfold contains. induction d as [|[k0 v0] d IH]; [done|]. cbn [get delitem].
  destruct (String.eqb k k0); [done|]. intros H. by rewrite IH.
Qed.

Lemma contains_delitem_ne {V} k k' (d : list (string * V)) :
  k ≠ k' → contains k (delitem k' d) = contains k d.
Proof. intros Hne. unfold contains. by rewrite get_delitem_ne. Qed.

Lemma get_setitem_ne {V} k k' (v : V) d :
  k ≠ k' → get k (setitem k' v d) = get k d.
Proof.
  intros Hne. rewrite PyDictFacts.get_setitem.
  by destruct (String.eqb_spec k k').
Qed.

Lemma get_setitem_eq {V} k (v : V) d : get k (setitem k v d) = Some v.
Proof. by rewrite PyDictFacts.get_setitem, String.eqb_refl. Qed.

(** The loop body of [pro_dict] on a dict, with the two values looked up
  before anything is changed. *)
Lemma pro_entry_dict rec fields :
  pro_entry rec (PDict fields)
  = (let put (key : string) (fields : failure + list (string * pyval)) :=
       fields ← fields;
       match rec <$> get key fields with
       | None => mret fields
       | Some r => x ← r; mret (setitem key x fields)
       end in
     fields ← put "method" (put "children" (mret (delitem "obj" fields)));
     mret (PDict fields)).
Proof.
  unfold pro_entry, mbind, failure_bind, mret, failure_ret. cbn [py_in].
  assert ((if contains "obj" fields then py_delitem "obj" (PDict fields)
           else inr (PDict fields))
          = inr (PDict (delitem "obj" fields))) as ->.
  { cbn [py_delitem]. destruct (contains "obj" fields) eqn:E; [done|].
    by rewrite delitem_absent. }
  cbn [py_in]. set (f1 := delitem "obj" fields).
  unfold contains. cbn [py_getitem].
  destruct (get "children" f1) as [c|] eqn:Ec;
    cbn [from_option fmap option_fmap option_map].
  - destruct (rec c) as [e|c']; [done|]. cbn [py_setitem py_in].
    unfold contains. rewrite get_setitem_ne by done. cbn [py_getitem].
    rewrite get_setitem_ne by done.
    destruct (get "method" f1) as [m|];
      cbn [from_option fmap option_fmap option_map]; [|done].
    by destruct (rec m).
  - cbn [py_in py_getitem]. unfold contains.
    destruct (get "method" f1) as [m|];
      cbn [from_option fmap option_fmap option_map]; [|done].
    by destruct (rec m).
Qed.

Lemma pro_entry_str rec s :
  pro_entry rec (PStr s)
  = if is_substring "obj" s || is_substring "children" s || is_substring "method" s
    then inl (Raised TypeError) else inr (PStr s).
Proof.
  unfold pro_entry, mbind, failure_bind, mret, failure_ret. cbn [py_in].
  destruct (is_substring "obj" s); [done|]. cbn [py_in].
  destruct (is_substring "children" s); [done|]. cbn [py_in].
  by destruct (is_substring "method" s).
Qed.

(** [pro_dict] in the order of the source: the loop over the items with
  the loop body [pro_entry], which calls [pro_dict] again. *)
Lemma pro_dict_unfold items :
  pro_dict (PDict items)
  = (items ← for_each_item (pro_entry pro_dict) items; mret (PDict items)).
Proof.
  cbn [pro_dict]. f_equal.
  induction items as [|[name module] items IH]; [done|].
  cbn [for_each_item]. rewrite <-IH. f_equal.
  destruct module as [| s | o |fields]; [done| |done|].
  - by rewrite pro_entry_str.
  - rewrite pro_entry_dict. cbn zeta.
    assert (∀ key fs,
              (fix find (fs : list (string * pyval)) : option (failure + pyval) :=
                 match fs with
                 | [] => None
                 | (k, v) :: fs' =>
                     if String.eqb key k then Some (pro_dict v) else find fs'
                 end) fs = pro_dict <$> get key fs) as Hfind.
    { intros key fs. induction fs as [|[k v] fs IHf]; [done|]. cbn [get].
      by destruct (String.eqb key k). }
    rewrite !Hfind. unfold mret, failure_ret, mbind, failure_bind.
    rewrite (get_delitem_ne "children" "obj") by done.
    destruct (pro_dict <$> get "children" fields) as [[e|c']|]; [done| |].
    + rewrite get_setitem_ne, (get_delitem_ne "method" "obj") by done. done.
    + rewrite (get_delitem_ne "method" "obj") by done. done.
Qed.

Lemma pro_dict_not_dict g :
  is_dict g = false → pro_dict g = inl (Raised AttributeError).
Proof. by destruct g. Qed.

(** *** The graph of a discovery pass *)

Lemma pro_entry_package rec m c M c' :
  rec c = inr c' →
  pro_entry rec (PDict [("obj", m); ("children", c); ("module", M)])
  = inr (PDict [("children", c'); ("module", M)]).
Proof.
  intros Hc. rewrite pro_entry_dict. cbn.
  unfold mbind, failure_bind, mret, failure_ret. by rewrite Hc.
Qed.

Lemma pro_entry_stripped rec c M :
  rec c = inr c →
  pro_entry rec (PDict [("children", c); ("module", M)])
  = inr (PDict [("children", c); ("module", M)]).
Proof.
  intros Hc. rewrite pro_entry_dict. cbn.
  unfold mbind, failure_bind, mret, failure_ret. by rewrite Hc.
Qed.

Lemma pro_entry_loose rec m :
  pro_entry rec (PDict [("obj", m)]) = inr (PDict []).
Proof. by rewrite pro_entry_dict. Qed.

Lemma pro_entry_empty rec : pro_entry rec (PDict []) = inr (PDict []).
Proof. by rewrite pro_entry_dict. Qed.

Lemma for_each_item_Forall2 body (Q : string * pyval → pyval → Prop) items :
  Forall (λ kv, ∃ v', body kv.2 = inr v' ∧ Q kv v') items →
  ∃ items', for_each_item body items = inr items'
            ∧ Forall2 (λ kv kv', kv'.1 = kv.1 ∧ Q kv kv'.2) items items'.
Proof.
  induction 1 as [|[k v] items (v' & Hv & HQ) _ (items' & Hi & HF)].
  - exists []. by split; [|constructor].
  - exists ((k, v') :: items'). cbn [for_each_item snd] in *.
    unfold mbind, failure_bind. rewrite Hv, Hi. split; [done|].
    by constructor.
Qed.

Lemma for_each_item_fixed body items :
  Forall (λ kv, body kv.2 = inr kv.2) items →
  for_each_item body items = inr items.
Proof.
  induction 1 as [|[k v] items Hv _ IH]; [done|]. cbn [for_each_item snd] in *.
  unfold mbind, failure_bind. by rewrite Hv, IH.
Qed.

(** On the graph of a discovery pass [pro_dict] returns; a second run
  changes nothing more; and every unit keeps its name and its modules and
  loses its [obj]. *)
Lemma pro_dict_pass_graph g : ∀ items,
  g = PDict items → pass_graph items →
  ∃ items',
    pro_dict g = inr (PDict items')
    ∧ pro_dict (PDict items') = inr (PDict items')
    ∧ Forall2 (λ kv kv', kv'.1 = kv.1
                         ∧ is_dict kv'.2 = true
                         ∧ dict_has "obj" kv'.2 = false
                         ∧ dict_get "module" PNone kv'.2
                           = dict_get "module" PNone kv.2) items items'.
Proof.
  induction g as [g Hg|items0 IH] using FlattenFacts.graph_ind;
    intros items; [by intros ->|].
  intros [= <-] Hitems. rewrite pro_dict_unfold.
  destruct (for_each_item_Forall2 (pro_entry pro_dict)
              (λ kv v', pro_entry pro_dict v' = inr v'
                        ∧ is_dict v' = true
                        ∧ dict_has "obj" v' = false
                        ∧ dict_get "module" PNone v' = dict_get "module" PNone kv.2)
              items0) as (items' & Hrun & Hrel).
  { unfold pass_graph in Hitems. rewrite Forall_forall in Hitems |- *.
    intros [name info] Hin. destruct (Hitems _ Hin) as [Hnode|Hnode];
      cbn [fst snd] in *.
    - inversion Hnode as [n m children modules Hm Hc1 Hc2 Hm1 Hm2 Hne Hn Hinfo].
      subst n info.
      destruct (IH (name, PDict [("obj", PObj (ModuleObj m));
                                 ("children", PDict children);
                                 ("module", PDict modules)])
                   (PDict children) Hin eq_refl children eq_refl)
        as (children' & Hc & Hc' & _).
      { eapply Forall_impl; [exact Hc2|]. intros kv ?. by left. }
      exists (PDict [("children", PDict children'); ("module", PDict modules)]).
      split; [by apply pro_entry_package|].
      split; [by apply pro_entry_stripped|]. done.
    - unfold loose_node in Hnode. cbn [fst snd] in Hnode. subst info.
      exists (PDict []). split; [apply pro_entry_loose|].
      split; [apply pro_entry_empty|]. done. }
  exists items'. unfold mbind, failure_bind, mret, failure_ret. rewrite Hrun.
  split; [done|]. split.
  - rewrite pro_dict_unfold, for_each_item_fixed; [done|].
    clear -Hrel. induction Hrel as [|kv kv' l l' (_ & H & _) _ IHr]; by constructor.
  - eapply Forall2_impl; [exact Hrel|]. naive_solver.
Qed.

(** *** [_generate_docstring] on the graph of a discovery pass *)

Lemma manager_call_for_package m c M :
  manager_call_for (PDict [("obj", m); ("children", c); ("module", M)])
  = inr (Traverse m).
Proof. done. Qed.

Lemma manager_call_for_loose m :
  manager_call_for (PDict [("obj", m)]) = inr (ModifyDocstring m).
Proof. done. Qed.

Lemma manager_call_for_no_obj v :
  is_dict v = true → dict_has "obj" v = false →
  manager_call_for v = inl (KeyError "obj").
Proof.
  destruct v as [| | |fields]; try done. intros _. cbn [dict_has].
  unfold manager_call_for, mbind, failure_bind. cbn [py_in py_getitem].
  unfold contains. by destruct (get "obj" fields).
Qed.

(** *** The loop of [_generate_requirements] *)

Lemma list_remove_middle kept d r :
  d ∉ kept → list_remove d (kept ++ d :: r) = kept ++ r.
Proof.
  induction kept as [|x kept IH]; cbn [list_remove app].
  - by rewrite String.eqb_refl.
  - rewrite not_elem_of_cons. intros [Hne Hd].
    destruct (String.eqb_spec d x) as [->|_]; [done|]. by rewrite IH.
Qed.

Lemma remove_loop_past_end fuel project_modules position dependencies :
  length dependencies ≤ position →
  remove_loop fuel project_modules position dependencies = dependencies.
Proof.
  intros Hle. destruct fuel as [|fuel]; [done|]. cbn [remove_loop].
  by rewrite lookup_ge_None_2 by lia.
Qed.

(** The loop with the items before the position of the iterator, which
  stay, and the items from that position on. *)
Lemma remove_loop_survivors fuel project_modules : ∀ kept rest,
  NoDup (kept ++ rest) → length rest ≤ fuel →
  remove_loop fuel project_modules (length kept) (kept ++ rest)
  = kept ++ survivors project_modules rest.
Proof.
  induction fuel as [|fuel IH]; intros kept rest Hnd Hlen.
  { destruct rest; [reflexivity|cbn in Hlen; lia]. }
  cbn [remove_loop]. destruct rest as [|dep rest].
  { cbn [survivors]. rewrite !app_nil_r, lookup_ge_None_2 by lia. done. }
  rewrite list_lookup_middle by done. cbn [survivors length] in *.
  apply NoDup_app in Hnd as (Hk & Hdisj & Hr).
  apply NoDup_cons in Hr as [Hdep Hr].
  assert (dep ∉ kept) as Hdk.
  { intros Hin. apply (Hdisj dep Hin). left. }
  destruct (any_startswith dep project_modules).
  - rewrite list_remove_middle by done.
    destruct rest as [|next rest].
    + rewrite app_nil_r. apply remove_loop_past_end. lia.
    + replace (S (length kept)) with (length (kept ++ [next]))
        by (rewrite length_app; cbn; lia).
      rewrite (cons_middle next kept rest), app_assoc.
      rewrite IH; [by rewrite <-app_assoc| |cbn in Hlen; lia].
      rewrite <-app_assoc. cbn [app]. apply NoDup_app. split_and!; [done| |done].
      intros x Hx Hx'. apply (Hdisj x Hx). by right.
  - replace (S (length kept)) with (length (kept ++ [dep]))
      by (rewrite length_app; cbn; lia).
    rewrite (cons_middle dep kept rest), app_assoc.
    rewrite IH; [by rewrite <-app_assoc| |lia].
    rewrite <-app_assoc. cbn [app]. apply NoDup_app. split_and!; [done|done|].
    by apply NoDup_cons.
Qed.

(** A property of [survivors] follows from the three ways it takes. *)
Lemma survivors_ind project_modules (P : list string → Prop) :
  P [] →
  (∀ dep, any_startswith dep project_modules = true → P [dep]) →
  (∀ dep next rest, any_startswith dep project_modules = true →
                    P rest → P (dep :: next :: rest)) →
  (∀ dep rest, any_startswith dep project_modules = false →
               P rest → P (dep :: rest)) →
  ∀ dependencies, P dependencies.
Proof.
  intros Hnil Hone Hskip Hkeep dependencies.
  assert (∀ n l, length l ≤ n → P l) as Hall.
  { clear dependencies. induction n as [|n IH]; intros l Hl.
    { destruct l; [done|cbn in Hl; lia]. }
    destruct l as [|dep rest]; [done|]. cbn in Hl.
    destruct (any_startswith dep project_modules) eqn:E.
    - destruct rest as [|next rest]; [by apply Hone|].
      apply Hskip; [done|]. apply IH. cbn in Hl. lia.
    - apply Hkeep; [done|]. apply IH. lia. }
  by apply (Hall (length dependencies)).
Qed.

Lemma survivors_keeps project_modules dependencies dep :
  dep ∈ dependencies → any_startswith dep project_modules = false →
  dep ∈ survivors project_modules dependencies.
Proof.
  intros Hin Hdep. revert Hin.
  induction dependencies as [|d Hd|d next rest Hd IH|d rest Hd IH]
    using (survivors_ind project_modules); cbn [survivors]; rewrite ?Hd.
  - done.
  - intros ->%list_elem_of_singleton. congruence.
  - rewrite !elem_of_cons. intros [->|[->|Hin]]; [congruence|by left|].
    right. by apply IH.
  - rewrite !elem_of_cons. intros [->|Hin]; [by left|]. right. by apply IH.
Qed.

Lemma survivors_sublist project_modules dependencies :
  sublist (survivors project_modules dependencies) dependencies.
Proof.
  induction dependencies as [|d Hd|d next rest Hd IH|d rest Hd IH]
    using (survivors_ind project_modules); cbn [survivors]; rewrite ?Hd.
  - constructor.
  - by repeat constructor.
  - by apply sublist_cons, sublist_skip.
  - by apply sublist_skip.
Qed.

Lemma survivors_filter project_modules dependencies :
  no_two_in_a_row project_modules dependencies = true →
  survivors project_modules dependencies
  = filter (λ dep, any_startswith dep project_modules = false) dependencies.
Proof.
  induction dependencies as [|d Hd|d next rest Hd IH|d rest Hd IH]
    using (survivors_ind project_modules); cbn [survivors]; rewrite ?Hd.
  - done.
  - intros _. rewrite filter_cons_False; [done|]. by rewrite Hd.
  - cbn [no_two_in_a_row]. rewrite Hd. cbn [andb].
    intros [Hnext Hrest]%andb_true_iff. apply negb_true_iff in Hnext.
    rewrite filter_cons_False by (by rewrite Hd).
    rewrite filter_cons_True by done. f_equal. apply IH.
    destruct rest as [|x rest]; [done|]. cbn [no_two_in_a_row] in Hrest.
    by apply andb_true_iff in Hrest as [_ ?].
  - intros Hrest. rewrite filter_cons_True by done. f_equal. apply IH.
    destruct rest as [|x rest]; [done|]. cbn [no_two_in_a_row] in Hrest.
    by apply andb_true_iff in Hrest as [_ ?].
Qed.

Lemma survivors_app_untouched project_modules before rest :
  Forall (λ dep, any_startswith dep project_modules = false) before →
  survivors project_modules (before ++ rest)
  = before ++ survivors project_modules rest.
Proof.
  induction 1 as [|d before Hd _ IH]; [done|]. cbn [app survivors].
  by rewrite Hd, IH.
Qed.

(** *** The names that [_analyze_dependencies] records *)

Lemma has_space_cons c s : has_space (String c s) = is_space c || has_space s.
Proof. done. Qed.

Lemma words_spec s : Forall (λ w, w ≠ "" ∧ has_space w = false) (words s).
Proof.
  induction s as [|c s IH]; [constructor|]. cbn [words].
  destruct (is_space c) eqn:Ec; [done|].
  destruct s as [|c' s'].
  - repeat constructor; [done|]. by rewrite has_space_cons, Ec.
  - destruct (is_space c') eqn:Ec'.
    + constructor; [|done]. split; [done|]. by rewrite has_space_cons, Ec.
    + destruct (words (String c' s')) as [|w ws].
      * repeat constructor; [done|]. by rewrite has_space_cons, Ec.
      * apply Forall_cons in IH as [[_ Hw] Hws]. constructor; [|done].
        split; [done|]. by rewrite has_space_cons, Ec, Hw.
Qed.

Lemma split_hd_spec w :
  contains_char dot_char (hd "" (split dot_char w)) = false
  ∧ (has_space w = false → has_space (hd "" (split dot_char w)) = false).
Proof.
  induction w as [|c w [IH1 IH2]]; [done|]. cbn [split].
  destruct (Ascii.eqb c dot_char) eqn:Ec; [done|].
  assert (Ascii.eqb dot_char c = false) as Ec' by (by rewrite Ascii.eqb_sym).
  rewrite has_space_cons.
  destruct (split dot_char w) as [|w0 ws]; cbn [hd] in *.
  - rewrite TreeFacts.contains_char_cons, Ec'. split; [done|].
    intros [Hc _]%orb_false_iff. by rewrite has_space_cons, Hc.
  - rewrite TreeFacts.contains_char_cons, Ec', IH1. split; [done|].
    intros [Hc Hw]%orb_false_iff. by rewrite has_space_cons, Hc, IH2.
Qed.

(** The name that a line adds is not a name of the standard library, and
  it holds neither a dot nor white space. *)
Lemma imported_name_spec stdlib_module_names line module :
  imported_name stdlib_module_names line = inr (Some module) →
  (module ∉ stdlib_module_names)
  ∧ contains_char dot_char module = false
  ∧ has_space module = false.
Proof.
  unfold imported_name. destruct (_ || _); [|done].
  destruct (words line !! 1) as [word|] eqn:Ew; [|done].
  unfold _is_standard_library. case_bool_decide as Hstd; [done|].
  intros [= <-]. split; [done|].
  destruct (split_hd_spec word) as [H1 H2]. split; [done|]. apply H2.
  pose proof (words_spec line) as Hall. rewrite Forall_forall in Hall.
  apply list_elem_of_lookup_2 in Ew. by apply Hall.
Qed.

Lemma scan_lines_spec stdlib_module_names lines : ∀ dependencies result,
  scan_lines stdlib_module_names lines dependencies = inr result →
  ∀ module, module ∈ result ↔
    module ∈ dependencies
    ∨ ∃ line, line ∈ lines
              ∧ imported_name stdlib_module_names line = inr (Some module).
Proof.
  induction lines as [|line rest IH]; intros dependencies result.
  - intros [= <-] module. split; [by left|].
    intros [?|(line & []%elem_of_nil & _)]; done.
  - cbn [scan_lines]. unfold mbind, failure_bind.
    destruct (imported_name stdlib_module_names line) as [e|name] eqn:En; [done|].
    intros Hrest module. rewrite (IH _ _ Hrest module).
    setoid_rewrite elem_of_cons. destruct name as [m|].
    + rewrite elem_of_union, elem_of_singleton. split.
      * intros [[->|?]|(l & Hl & Hm)]; [right; eauto|by left|right; eauto].
      * intros [?|(l & [->|Hl] & Hm)]; [by left; right| |right; eauto].
        left. left. congruence.
    + split.
      * intros [?|(l & Hl & Hm)]; [by left|right; eauto].
      * intros [?|(l & [->|Hl] & Hm)]; [by left|congruence|right; eauto].
Qed.

Lemma scan_sources_spec stdlib_module_names files : ∀ dependencies result,
  scan_sources stdlib_module_names files dependencies = inr result →
  ∀ module, module ∈ result ↔
    module ∈ dependencies
    ∨ ∃ file content line,
        (file, inr content) ∈ files ∧ endswith file ".py" = true
        ∧ line ∈ split newline_char content
        ∧ imported_name stdlib_module_names line = inr (Some module).
Proof.
  induction files as [|[file content] rest IH]; intros dependencies result.
  - intros [= <-] module. split; [by left|].
    intros [?|(f & c & l & []%elem_of_nil & _)]; done.
  - cbn [scan_sources]. destruct (endswith file ".py") eqn:Epy.
    + unfold mbind, failure_bind. destruct content as [e|content]; [done|].
      destruct (scan_lines stdlib_module_names (split newline_char content)
                           dependencies) as [e|deps1] eqn:El; [done|].
      intros Hrest module. rewrite (IH _ _ Hrest module).
      rewrite (scan_lines_spec _ _ _ _ El module).
      setoid_rewrite elem_of_cons. split.
      * intros [[?|(l & Hl & Hm)]|(f & c & l & Hf & Hrest')];
          [by left|right; exists file, content, l; eauto|].
        right. exists f, c, l. naive_solver.
      * intros [?|(f & c & l & [[= -> ->]|Hf] & Hpy & Hl & Hm)];
          [by left; left|left; right; eauto|].
        right. exists f, c, l. eauto.
    + intros Hrest module. rewrite (IH _ _ Hrest module).
      setoid_rewrite elem_of_cons. split.
      * intros [?|(f & c & l & Hf & Hrest')]; [by left|].
        right. exists f, c, l. naive_solver.
      * intros [?|(f & c & l & [[= -> <-]|Hf] & Hpy & Hl & Hm)];
          [by left|congruence|].
        right. exists f, c, l. eauto.
Qed.

Lemma prefix_app_inv (p s : string) :
  startswith s p = true → ∃ rest, s = p +:+ rest.
Proof.
  unfold startswith. revert s. induction p as [|c p IH]; intros s.
  - intros _. by exists s.
  - destruct s as [|a s]; [done|]. cbn [String.prefix].
    destruct (ascii_dec c a) as [->|]; [|done].
    intros [rest ->]%IH. by exists rest.
Qed.

Lemma words_head c s :
  is_space c = false → ∃ w ws, words (String c s) = String c w :: ws.
Proof.
  intros Hc. cbn [words]. rewrite Hc. destruct s as [|c' s']; [by eexists _, _|].
  destruct (is_space c'); [by eexists _, _|].
  destruct (words (String c' s')); by eexists _, _.
Qed.

(** A line that starts with [from .], a relative import, adds the empty
  name. *)
Lemma imported_name_relative stdlib_module_names line :
  startswith line "from ." = true → "" ∉ stdlib_module_names →
  imported_name stdlib_module_names line = inr (Some "").
Proof.
  intros Hline Hstd.
  apply prefix_app_inv in Hline as [rest ->].
  unfold imported_name.
  replace (startswith ("from ." +:+ rest) "import "
           || startswith ("from ." +:+ rest) "from ") with true by done.
  destruct (words_head "." rest) as (w & ws & Hw); [done|].
  assert (words ("from ." +:+ rest) = "from" :: String "." w :: ws) as ->.
  { rewrite !TreeFacts.app_cons, TreeFacts.app_nil_l.
    change (words (String "f" (String "r" (String "o" (String "m"
              (String " " (String "." rest)))))))
      with ("from" :: words (String "." rest)).
    by rewrite Hw. }
  cbn [lookup list_lookup split hd]. 
  unfold _is_standard_library. by rewrite bool_decide_eq_false_2.
Qed.

(** *** The target of [write_doc] *)

Lemma lstrip_head c s : startswith (lstrip c s) (String c "") = false.
Proof.
  unfold startswith. induction s as [|a s IH]; [done|]. cbn [lstrip].
  destruct (Ascii.eqb_spec a c) as [->|Hne]; [done|]. cbn [String.prefix].
  by destruct (ascii_dec c a) as [->|].
Qed.

Lemma rstrip_head c s :
  startswith s (String c "") = false →
  startswith (rstrip c s) (String c "") = false.
Proof.
  unfold startswith. destruct s as [|a s]; [done|]. cbn [rstrip String.prefix].
  destruct (ascii_dec c a) as [->|Hne]; [by destruct s|]. intros _.
  destruct (rstrip c s).
  - destruct (Ascii.eqb a c); [done|]. cbn [String.prefix].
    by destruct (ascii_dec c a).
  - cbn [String.prefix]. by destruct (ascii_dec c a).
Qed.

(** *** When [_analyze_dependencies] returns *)

Lemma imported_name_returns stdlib_module_names line :
  (∃ name, imported_name stdlib_module_names line = inr name)
  ↔ import_line_ok line = true.
Proof.
  unfold imported_name, import_line_ok.
  destruct (startswith line "import " || startswith line "from ");
    destruct (words line !! 1) as [word|]; cbn [negb];
    try destruct (_is_standard_library _ _).
  all: split; [intros [? H]; by inversion H|].
  all: intros H; first [discriminate H | by eexists].
Qed.

Lemma scan_lines_returns stdlib_module_names lines : ∀ dependencies,
  (∃ result, scan_lines stdlib_module_names lines dependencies = inr result)
  ↔ forallb import_line_ok lines = true.
Proof.
  induction lines as [|line rest IH]; intros dependencies.
  { split; [done|]. by eexists. }
  cbn [scan_lines forallb].
  rewrite andb_true_iff, <-(imported_name_returns stdlib_module_names).
  unfold mbind, failure_bind.
  destruct (imported_name stdlib_module_names line) as [e|name].
  - split; [by intros [? [=]]|]. by intros [[? [=]] _].
  - rewrite IH. split; [intros H; split; [by eexists|done]|by intros [_ ?]].
Qed.

Lemma scan_sources_returns stdlib_module_names files : ∀ dependencies,
  (∃ result, scan_sources stdlib_module_names files dependencies = inr result)
  ↔ forallb source_ok files = true.
Proof.
  induction files as [|[file content] rest IH]; intros dependencies.
  { split; [done|]. by eexists. }
  cbn [scan_sources forallb]. unfold source_ok at 1. cbn [fst snd].
  destruct (endswith file ".py"); cbn [negb orb]; [|apply IH].
  unfold mbind, failure_bind. destruct content as [e|content].
  { split; [by intros [? [=]]|done]. }
  rewrite andb_true_iff, <-(scan_lines_returns stdlib_module_names _ dependencies).
  destruct (scan_lines stdlib_module_names (split newline_char content) dependencies)
    as [e|deps1].
  - split; [by intros [? [=]]|]. by intros [[? [=]] _].
  - rewrite IH. split; [intros H; split; [by eexists|done]|by intros [_ ?]].
Qed.

Lemma slice_to_app n (v t : string) :
  n ≤ String.length v → slice_to n (v +:+ t) = slice_to n v.
Proof.
  revert v. induction n as [|n IH]; intros v Hn; [by destruct v, t|].
  destruct v as [|a v]; [cbn in Hn; lia|]. rewrite TreeFacts.app_cons.
  cbn [slice_to]. f_equal. apply IH. cbn in Hn. lia.
Qed.

End UpkeepFacts.

Module SkipFacts.
Import PyStr PyDict Runtime Project Agent GraphSpec.

Lemma prefix_below (p name modname : string) :
  contains_char dot_char p = false →
  String.prefix (name +:+ ".") modname = true →
  String.prefix p modname = String.prefix p name.
Proof.
  revert p modname. induction name as [|a name IH]; intros p modname Hp.
  - rewrite TreeFacts.app_nil_l. destruct modname as [|b modname]; [done|].
    cbn [String.prefix]. destruct (ascii_dec "." b) as [<-|]; [|done]. intros _.
    destruct p as [|c p]; [done|]. cbn [String.prefix].
    rewrite TreeFacts.contains_char_cons in Hp.
    apply orb_false_iff in Hp as [Hc _].
    destruct (ascii_dec c ".") as [->|]; done.
  - rewrite TreeFacts.app_cons. destruct modname as [|b modname]; [done|].
    cbn [String.prefix]. destruct (ascii_dec a b) as [<-|]; [|done]. intros Hm.
    destruct p as [|c p]; [done|]. cbn [String.prefix].
    rewrite TreeFacts.contains_char_cons in Hp.
    apply orb_false_iff in Hp as [_ Hp].
    destruct (ascii_dec c a); [by apply IH|done].
Qed.

(** With prefixes that hold no dot, a name below a package is skipped
  exactly when the name of the package is. *)
Lemma any_startswith_below skip_modules name modname :
  Forall (λ p, contains_char dot_char p = false) skip_modules →
  startswith modname (name +:+ ".") = true →
  any_startswith modname skip_modules = any_startswith name skip_modules.
Proof.
  intros Hskip Hm. unfold any_startswith.
  induction Hskip as [|p skip Hp _ IH]; [done|]. cbn [existsb].
  rewrite IH. f_equal. unfold startswith in *. by apply prefix_below.
Qed.

Lemma for_each_walked_ext_below {S} prefix events
      (body1 body2 : fsnode → string → bool → S → M S) :
  names_below prefix events →
  (∀ importer modname ispkg s log, startswith modname prefix = true →
     body1 importer modname ispkg s log = body2 importer modname ispkg s log) →
  ∀ s log, for_each_walked events body1 s log = for_each_walked events body2 s log.
Proof.
  intros Hall Hbody. induction Hall as [|ev events Hev _ IH]; intros s log; [done|].
  destruct ev as [importer modname ispkg|e]; [|done].
  cbn [for_each_walked]. unfold mbind, M_bind.
  rewrite (Hbody importer modname ispkg s log Hev).
  destruct (body2 importer modname ispkg s log) as [[e|s'] log']; [done|apply IH].
Qed.

Lemma for_each_walked_all_skipped {S} prefix events
      (body : fsnode → string → bool → S → M S) s log :
  names_below prefix events →
  (∀ importer modname ispkg, startswith modname prefix = true →
     body importer modname ispkg s log = (inr s, log)) →
  for_each_walked events body s log = (inr s, log)
  ∨ ∃ e, for_each_walked events body s log = (inl e, log).
Proof.
  intros Hall Hbody. induction Hall as [|ev events Hev _ IH]; [by left|].
  destruct ev as [importer modname ispkg|e]; [|right; by exists e].
  cbn [for_each_walked]. unfold mbind, M_bind.
  by rewrite (Hbody importer modname ispkg Hev).
Qed.

(** Inside a package whose name starts with none of the prefixes, the
  skip list changes nothing. *)
Lemma process_package_skip_inert fuel project : ∀ module skip_modules log,
  Forall (λ p, contains_char dot_char p = false) skip_modules →
  any_startswith (mod_name (ld_module module)) skip_modules = false →
  _process_package fuel project module skip_modules log
  = _process_package fuel project module [] log.
Proof.
  induction fuel as [|fuel IH]; intros module skip_modules log Hskip Hname; [done|].
  cbn [_process_package]. unfold mbind at 1 3, M_bind at 1 3, lift at 1 3.
  destruct (ld_path module) as [path|]; [|done]. cbn [from_option].
  unfold mbind at 1 6, M_bind at 1 6.
  rewrite (for_each_walked_ext_below (mod_name (ld_module module) +:+ ".") _ _
             (λ importer modname ispkg st,
                if any_startswith modname [] then mret st
                else if ispkg then
                  sub ← lift (load_module importer modname);
                  r ← _process_package fuel project sub [];
                  mret (WalkerState (PyDict.update (ws_children st) r)
                                    (ws_module st)
                                    ({[modname]} ∪ ws_processed st))
                else
                  try_except
                    (submodule ← lift (import_module project modname);
                     if any_startswith modname (elements (ws_processed st))
                     then mret st
                     else mret (WalkerState
                                  (ws_children st)
                                  (PyDict.update (ws_module st)
                                     (_process_module (ld_module submodule) modname))
                                  (ws_processed st)))
                    (λ e, LOG_info (SkippingImportError modname e);; mret st))).
  - done.
  - apply GraphFacts.walk_packages_names_below.
  - intros importer modname ispkg s log0 Hbelow.
    rewrite (any_startswith_below _ _ _ Hskip Hbelow), Hname.
    cbn [any_startswith existsb]. destruct ispkg; [|done].
    unfold mbind at 1 3, M_bind at 1 3, lift.
    destruct (load_module importer modname) as [e|sub] eqn:El; [done|].
    unfold mbind, M_bind. rewrite (IH sub skip_modules log0); [done|done|].
    rewrite (GraphFacts.load_module_name _ _ _ El).
    by rewrite (any_startswith_below _ _ _ Hskip Hbelow).
Qed.

(** A package whose own name starts with one of the prefixes gives no
  entry: every unit below it is skipped. *)
Lemma process_package_skipped fuel project module skip_modules log :
  Forall (λ p, contains_char dot_char p = false) skip_modules →
  any_startswith (mod_name (ld_module module)) skip_modules = true →
  _process_package fuel project module skip_modules log = (inr [], log)
  ∨ ∃ e, _process_package fuel project module skip_modules log = (inl e, log).
Proof.
  intros Hskip Hname.
  cut (∀ out, _process_package fuel project module skip_modules log = out →
              out = (inr [], log) ∨ ∃ e, out = (inl e, log)); [by eauto|].
  intros out. destruct fuel as [|fuel]; [intros <-; right; by eexists|].
  cbn [_process_package]. unfold mbind at 1, M_bind at 1, lift at 1.
  destruct (ld_path module) as [path|]; [|intros <-; right; by eexists].
  cbn [from_option]. unfold mbind at 1, M_bind at 1.
  match goal with
  | |- context [for_each_walked ?ev ?b ?s0 log] =>
      destruct (for_each_walked_all_skipped
                  (mod_name (ld_module module) +:+ ".") ev b s0 log) as [->|[e ->]]
  end.
  - apply GraphFacts.walk_packages_names_below.
  - intros importer modname ispkg Hbelow.
    by rewrite (any_startswith_below _ _ _ Hskip Hbelow), Hname.
  - intros <-. by left.
  - intros <-. right. by exists e.
Qed.

End SkipFacts.

(** * Part III: the claims *)

Import PyStr Tree PyDict Runtime Project Agent Scenarios.

(** C1, the code at the failing input. Packages [a], [a.b] and [a.b.c] are
  nested three deep. The scan skips [a/b] because its parent [a] was
  processed, and does not add it to the processed set; at [a/b/c] the
  parent [a.b] is not in the set, so [a.b.c] is walked again and becomes a
  top-level entry, while it is already in the sub-tree of [a] (twice:
  under [a.b] and directly under [a]). *)
Theorem nested_package_is_recorded_twice :
  raised nested_project = None
  ∧ logged nested_project = []
  ∧ PyDict.keys (module_dict (built nested_project)) = ["a"; "a.b.c"]
  ∧ PyDict.keys (dict_items (lookup_path ["a"; "children"]
                                         (graph (built nested_project))))
    = ["a.b"; "a.b.c"]
  ∧ PyDict.keys (dict_items (lookup_path ["a"; "children"; "a.b"; "children"]
                                         (graph (built nested_project))))
    = ["a.b.c"].
Proof. by vm_compute. Qed.

(** C2, the code at the failing input. [_process_module] never returns the
  empty dict, because its [m_dict] starts with the entry [obj]: a module
  in which nothing passes the ownership test is returned with that one
  entry, and a package whose only module is such a module has an entry in
  the Structural Graph. *)
Theorem module_without_entities_is_recorded :
  (∀ module f_module_name, _process_module module f_module_name ≠ [])
  ∧ _process_module (make_module "pkg.empty" reexport_body) "pkg.empty"
    = [("pkg.empty",
        PDict [("obj", PObj (ModuleObj (make_module "pkg.empty" reexport_body)))])]
  ∧ raised hollow_project = None
  ∧ PyDict.keys (module_dict (built hollow_project)) = ["pkg"]
  ∧ lookup_path ["pkg"; "module"] (graph (built hollow_project))
    = PDict [("pkg.empty",
              PDict [("obj", PObj (ModuleObj (make_module "pkg.empty"
                                                          reexport_body)))])].
Proof.
  split_and!; try by vm_compute.
  intros module f_module_name. unfold _process_module.
  pose proof (ExtractorFacts.module_m_dict_nonempty module f_module_name).
  by destruct (module_m_dict module f_module_name).
Qed.

(** C3, the code at the failing input. In the project of the scenario the
  Doc Index entry of [app.models] has an empty text after its level-1
  heading: [_process_module] stores no [doc] entry for a module, so the
  flattener, which reads [module_info.get("doc", "")], finds none. *)
Theorem module_documentation_is_not_indexed :
  raised app_project = None
  ∧ module_doc_dict (built app_project) !! "app.models"
    = Some ("# app.models:" +:+ nl +:+ nl +:+ nl
            +:+ "## User:" +:+ nl +:+ nl +:+ nl
            +:+ "### User.save:" +:+ nl +:+ "Persists the user" +:+ nl +:+ nl)
  ∧ module_doc_dict (built app_project) !! "app.models"
    ≠ Some ("# app.models:" +:+ nl +:+ "User model module" +:+ nl +:+ nl
            +:+ "## User:" +:+ nl +:+ nl +:+ nl
            +:+ "### User.save:" +:+ nl +:+ "Persists the user" +:+ nl +:+ nl)
  ∧ dict_has "doc" (lookup_path ["app"; "module"; "app.models"]
                                (graph (built app_project))) = false
  ∧ lookup_path ["app"; "module"; "app.models"; "obj"] (graph (built app_project))
    = PObj (ModuleObj (PyModule "app.models" (Some "User model module")
                                [("User", User_class)] [])).
Proof. split_and!; by vm_compute. Qed.

(** C4 (as the code has it). The key of a method in the method mapping of
  its class is [f_module_name.ClassName.methodName] with the leading dots
  stripped, where [f_module_name] is the prefix that the caller passes: the
  package walker passes the fully-qualified name of the module, so the key
  is [app.models.User.save]; with the empty prefix the key is
  [ClassName.methodName]. *)
Theorem method_keys_qualified (f_module_name name : string) (obj : pyclass) :
  (∀ k, k ∈ PyDict.keys (method_dict f_module_name name obj)
        ↔ ∃ method_name method_obj,
            (method_name, method_obj) ∈ cls_functions obj
            ∧ k = lstrip dot_char
                    (f_module_name +:+ "." +:+ name +:+ "." +:+ method_name))
  ∧ (∀ x, _get_abs_name "" x = lstrip dot_char x)
  ∧ (∀ a rest x, a ≠ dot_char →
       _get_abs_name (String a rest) x = String a rest +:+ "." +:+ x)
  ∧ PyDict.keys (dict_items
       (lookup_path ["app"; "module"; "app.models"; "app.models.User"; "method"]
                    (graph (built app_project))))
    = ["app.models.User.save"]
  ∧ PyDict.keys (method_dict "" "User" User_class) = ["User.save"].
Proof.
  split_and!.
  - intros k. rewrite ExtractorFacts.method_dict_keys. split.
    + intros ([mn mo] & Hin & ->). by exists mn, mo.
    + intros (mn & mo & Hin & ->). by exists (mn, mo).
  - intros x. unfold _get_abs_name.
    by rewrite TreeFacts.app_nil_l.
  - intros a rest x Ha. unfold _get_abs_name.
    rewrite TreeFacts.app_cons. cbn [lstrip].
    by destruct (Ascii.eqb_spec a dot_char).
  - by vm_compute.
  - by vm_compute.
Qed.

Lemma method_keys_qualified_witness :
  ("a"%char ≠ dot_char)
  ∧ _get_abs_name "app.models" "User.save" = "app.models.User.save"
  ∧ ("app.models.User.save" ∈ PyDict.keys (method_dict "app.models" "User" User_class)).
Proof.
  pose proof (method_keys_qualified "app.models" "User" User_class)
    as (Hkeys & _ & Hprefix & _).
  assert ("a"%char ≠ dot_char) as Ha by discriminate.
  split; [exact Ha|]. split.
  - exact (Hprefix "a"%char "pp.models" "User.save" Ha).
  - apply Hkeys. exists "save", save_function. split; [left|reflexivity].
Defined.

(** C4, counterexample. In the project of the scenario the method [save]
  of class [User] of module [app.models] is not stored under [User.save]:
  its key is [app.models.User.save]. *)
Lemma method_key_is_not_local :
  raised app_project = None
  ∧ lookup_path ["app"; "module"; "app.models"; "app.models.User"; "method";
                 "User.save"] (graph (built app_project)) = PNone
  ∧ lookup_path ["app"; "module"; "app.models"; "app.models.User"; "method";
                 "app.models.User.save"; "doc"] (graph (built app_project))
    = PStr "Persists the user".
Proof. by vm_compute. Qed.




(** C6, the code at the failing input. The initializer of the sub-package
  [a.bad] raises. Loading it is outside the [try] of [_process_package],
  so the exception leaves the walk of [a] and is caught by the scan: the
  whole of [a] is dropped, the class [Good] of the sibling [a.good] with
  it, and [good.py] is then picked up as a loose file that is not
  executed. A plain module that raises is caught where it is loaded, and
  its siblings are kept. *)
Theorem failing_subpackage_drops_its_siblings :
  raised failing_package_project = None
  ∧ logged failing_package_project
    = [ProcessingModuleError "a" SyntaxError;
       ProcessingModuleError "a.bad" SyntaxError]
  ∧ module_dict (built failing_package_project)
    = [("good", PDict [("obj", PObj (ModuleObj (empty_module "good")))])]
  ∧ raised failing_module_project = None
  ∧ logged failing_module_project = [SkippingImportError "a.bad" SyntaxError]
  ∧ PyDict.keys (module_dict (built failing_module_project)) = ["a"]
  ∧ lookup_path ["a"; "module"; "a.good"; "a.good.Good"; "doc"]
                (graph (built failing_module_project))
    = PStr "A good class".
Proof. by vm_compute. Qed.




(** C8 (as the code has it). For a collection of names that is not empty,
  the rendered text, cut at every newline, has one line per distinct
  segment-path of the names, provided no name holds a newline character
  itself; the empty collection is rendered as the empty text; and the text
  does not depend on the order in which the names are given. The names
  need not be distinct. *)
Theorem render_tree_line_count_order_independent (names names' : list string) :
  names ≡ₚ names' →
  (Forall newline_free names → names ≠ [] →
   length (split newline_char (_generate_project_tree names))
   = length (segment_paths names))
  ∧ length (process_tree_dict (build_tree_dict names) 0)
    = length (segment_paths names)
  ∧ _generate_project_tree names = _generate_project_tree names'
  ∧ _generate_project_tree [] = "".
Proof.
  intros Hperm.
  assert (length (process_tree_dict (build_tree_dict names) 0)
          = length (segment_paths names)) as Hcount.
  { rewrite TreeFacts.process_tree_dict_length. apply Permutation_length.
    apply NoDup_Permutation.
    - apply TreeFacts.tree_paths_NoDup, TreeFacts.build_tree_dict_wf.
    - apply NoDup_remove_dups.
    - apply TreeFacts.build_tree_dict_paths. }
  split_and!.
  - intros Hnl Hne.
    assert (lines (_generate_project_tree names)
            = process_tree_dict (build_tree_dict names) 0) as Hlines.
    { apply TreeFacts.lines_join, TreeFacts.process_tree_dict_good.
      by apply TreeFacts.build_tree_dict_all_keys. }
    rewrite <-Hcount, <-Hlines. f_equal. unfold lines.
    destruct (_generate_project_tree names) eqn:E; [|done].
    exfalso. cbn in Hlines.
    destruct names as [|name names0]; [done|].
    assert (segment_paths (name :: names0) = []) as Hnil.
    { apply length_zero_iff_nil. by rewrite <-Hcount, <-Hlines. }
    pose proof (TreeFacts.split_nonempty dot_char name) as Hsplit.
    destruct (split dot_char name) as [|part parts] eqn:Es; [done|].
    assert ([part] ∈ segment_paths (name :: names0)) as Hin.
    { unfold segment_paths. rewrite elem_of_remove_dups. cbn [flat_map].
      rewrite Es. cbn [nonempty_prefixes]. apply elem_of_app. left. left. }
    rewrite Hnil in Hin. by apply elem_of_nil in Hin.
  - exact Hcount.
  - unfold _generate_project_tree. f_equal.
    apply TreeFacts.process_tree_dict_equiv; try apply TreeFacts.build_tree_dict_wf.
    intros p. rewrite !TreeFacts.build_tree_dict_paths.
    unfold segment_paths. rewrite !elem_of_remove_dups, !TreeFacts.elem_of_flat_map.
    by setoid_rewrite Hperm.
  - done.
Qed.

Lemma render_tree_line_count_order_independent_witness :
  let names := ["app.models"; "app.views"; "lib"] in
  let names' := ["lib"; "app.views"; "app.models"] in
  names ≡ₚ names' ∧ Forall newline_free names ∧ names ≠ []
  ∧ length (split newline_char (_generate_project_tree names))
    = length (segment_paths names)
  ∧ _generate_project_tree names = _generate_project_tree names'.
Proof.
  intros names names'.
  assert (names ≡ₚ names') as Hperm by apply (Permutation_rev names).
  assert (Forall newline_free names) as Hnl by (repeat constructor).
  assert (names ≠ []) as Hne by discriminate.
  split; [exact Hperm|]. split; [exact Hnl|]. split; [exact Hne|].
  destruct (render_tree_line_count_order_independent names names' Hperm)
    as (Hsplit & _ & Horder & _).
  split; [exact (Hsplit Hnl Hne)|exact Horder].
Defined.

(** C8, counterexample. The empty collection has no segment-path; its
  rendering is the empty text, and the empty text cut at every newline is
  one empty line. *)
Lemma render_tree_empty_collection :
  _generate_project_tree [] = ""
  ∧ split newline_char (_generate_project_tree []) = [""]
  ∧ length (split newline_char (_generate_project_tree [])) = 1
  ∧ length (segment_paths []) = 0.
Proof. by vm_compute. Qed.

(** C9. At every level the entries are put in the lexicographic order of
  their segments; an entry with children is rendered as its header line
  [<indent>- <segment>/] followed by its children one level deeper, a leaf
  as [<indent>- <segment>]; a level of indentation is two spaces; the lines
  are joined with newlines; and the single name [app.models] is rendered as
  the two lines [- app/] and [  - models]. *)
Theorem render_tree_layout :
  (∀ items level,
     process_tree_dict (TreeDict items) level
     = flat_map (render_entry level) (sorted_items items))
  ∧ (∀ level name children,
       render_entry level (name, children)
       = if truthy children
         then (indent_of level +:+ "- " +:+ name +:+ "/")
                :: process_tree_dict children (S level)
         else [indent_of level +:+ "- " +:+ name])
  ∧ (∀ items : list (string * tree_dict),
       Sorted (λ x y, String.le x.1 y.1) (sorted_items items)
       ∧ sorted_items items ≡ₚ items)
  ∧ (∀ level, indent_of (S level) = "  " +:+ indent_of level)
  ∧ (∀ names,
       _generate_project_tree names
       = join nl (process_tree_dict (build_tree_dict names) 0))
  ∧ _generate_project_tree ["app.models"] = "- app/" +:+ nl +:+ "  - models".
Proof.
  split_and!; try done.
  - apply TreeFacts.process_tree_dict_unfold.
  - intros items. split.
    + apply TreeFacts.sorted_items_sorted.
    + apply TreeFacts.sorted_items_perm.
Qed.

(** C10. [get_module_doc] is a total function of the name: for a name that
  is not a key of the Doc Index it returns [Module <name> does not exist],
  otherwise the first 2000 characters of the stored text, which is all of
  it when it is shorter; the agent, and so the stored text, is returned as
  it was. *)
Theorem get_module_doc_total (self : GitAgent) (module_name : string) :
  get_module_doc self module_name
  = (match module_doc_dict self !! module_name with
     | None => "Module " +:+ module_name +:+ " does not exist"
     | Some doc => slice_to 2000 doc
     end, self)
  ∧ (∀ doc : string,
       String.length (slice_to 2000 doc) = Nat.min 2000 (String.length doc)
       ∧ ∃ rest, doc = slice_to 2000 doc +:+ rest).
Proof.
  split.
  - unfold get_module_doc. by destruct (module_doc_dict self !! module_name).
  - intros doc. generalize 2000. intros n. revert doc.
    induction n as [|n IH]; intros doc.
    + split; [done|]. by exists doc.
    + destruct doc as [|a doc]; [split; [done|by exists ""]|].
      destruct (IH doc) as [Hlen [rest Hrest]]. cbn [slice_to String.length].
      split; [by rewrite Hlen|].
      exists rest. rewrite TreeFacts.app_cons. by rewrite <-Hrest.
Qed.

(** * Part IV: further properties of the agent *)

Import IndexSpec GraphSpec Upkeep MoreScenarios.

(** ** The Doc Index *)

(** X1. The flattener only appends. Flattening a graph into an index gives,
  under every key, the text that was there followed by the text that
  flattening the same graph into an empty index gives; a text that the
  index held is never replaced, shortened or removed. *)
Theorem flattener_only_appends (g : pyval) (docs : gmap string string) :
  _generate_module_doc_dict g docs
  = append_docs docs (_generate_module_doc_dict g ∅)
  ∧ ∀ k v, docs !! k = Some v →
      ∃ t, _generate_module_doc_dict g docs !! k = Some (v +:+ t).
Proof.
  assert (_generate_module_doc_dict g docs
          = append_docs docs (_generate_module_doc_dict g ∅)) as Heq.
  { rewrite <-(FlattenFacts.append_docs_empty_r docs) at 1.
    apply FlattenFacts.generate_module_doc_dict_append. }
  split; [exact Heq|]. intros k v Hk. rewrite Heq. unfold append_docs.
  rewrite lookup_union_with, Hk.
  destruct (_generate_module_doc_dict g ∅ !! k) as [t|]; cbn.
  - by exists t.
  - exists "". by rewrite FlattenFacts.app_nil_r.
Qed.

Lemma flattener_only_appends_witness :
  let docs : gmap string string := {[ "app.models" := "kept" ]} in
  docs !! "app.models" = Some "kept"
  ∧ ∃ t, _generate_module_doc_dict (graph (built app_project)) docs !! "app.models"
         = Some ("kept" +:+ t).
Proof.
  intros docs.
  assert (docs !! "app.models" = Some "kept") as Hk by reflexivity.
  split; [exact Hk|].
  exact (proj2 (flattener_only_appends (graph (built app_project)) docs)
               "app.models" "kept" Hk).
Defined.

(** X2. Every text of the Doc Index starts with the level-1 heading of its
  own key, [# key:] and a newline: the flattener keeps this property of an
  index, so it holds for the index of a fresh agent and after every later
  pass. *)
Theorem doc_index_text_starts_with_heading (g : pyval)
        (docs : gmap string string) (k v : string) :
  (∀ k' v', docs !! k' = Some v' →
            startswith v' ("# " +:+ k' +:+ ":" +:+ nl) = true) →
  _generate_module_doc_dict g docs !! k = Some v →
  startswith v ("# " +:+ k +:+ ":" +:+ nl) = true.
Proof.
  intros Hdocs. by apply (FlattenFacts.generate_module_doc_dict_headed g docs).
Qed.

Lemma doc_index_text_starts_with_heading_witness :
  let v := "# app.models:" +:+ nl +:+ nl +:+ nl
           +:+ "## User:" +:+ nl +:+ nl +:+ nl
           +:+ "### User.save:" +:+ nl +:+ "Persists the user" +:+ nl +:+ nl in
  _generate_module_doc_dict (graph (built app_project)) ∅ !! "app.models" = Some v
  ∧ startswith v ("# app.models:" +:+ nl) = true.
Proof.
  intros v.
  assert (_generate_module_doc_dict (graph (built app_project)) ∅ !! "app.models"
          = Some v) as Hv by (vm_compute; reflexivity).
  split; [exact Hv|].
  refine (doc_index_text_starts_with_heading
            (graph (built app_project)) ∅ "app.models" v _ Hv).
  intros k' v' H. rewrite lookup_empty in H. discriminate H.
Defined.

(** ** Discovery passes *)



(** ** The shape of the Structural Graph *)

(** X5. A discovery pass keeps the shape of the graph. Every top-level
  entry is a package node or the node of a loose source file. A package
  node has exactly the keys [obj], [children] and [module], of which the
  last two are not both empty; the names under [children] and [module]
  start with the name of the package and a dot; and every child is a
  package node again. A loose node has the key [obj] alone. In both the
  value under [obj] is a module object that carries the name of the
  entry. *)
Theorem pass_keeps_graph_shape (project : fsnode) (self : GitAgent)
        (log : list log_entry) :
  pass_graph (module_dict self) →
  ∃ self' log',
    _gen_module_dict project self log = (inr self', log')
    ∧ pass_graph (module_dict self')
    ∧ Forall (λ kv, ∃ m, dict_get "obj" PNone kv.2 = PObj (ModuleObj m)
                         ∧ mod_name m = kv.1) (module_dict self').
Proof.
  intros Hself.
  destruct (WalkerFacts.gen_module_dict_returns project self log)
    as (self' & log' & Hrun).
  exists self', log'. split; [done|].
  assert (pass_graph (module_dict self')) as Hshape
    by (by eapply GraphFacts.gen_module_dict_pass_graph).
  split; [done|]. eapply Forall_impl; [exact Hshape|].
  intros [name node] [Hnode|Hnode]; cbn [fst snd] in *.
  - inversion Hnode; subst. by eexists.
  - unfold loose_node in Hnode. cbn [fst snd] in Hnode. subst node. by eexists.
Qed.

Lemma pass_keeps_graph_shape_witness :
  pass_graph (module_dict (built mixed_project))
  ∧ ∃ self' log',
      _gen_module_dict mixed_project (built mixed_project) [] = (inr self', log')
      ∧ pass_graph (module_dict self')
      ∧ Forall (λ kv, ∃ m, dict_get "obj" PNone kv.2 = PObj (ModuleObj m)
                           ∧ mod_name m = kv.1) (module_dict self').
Proof.
  pose proof (GraphFacts.built_pass_graph mixed_project) as Hshape.
  split; [exact Hshape|].
  exact (pass_keeps_graph_shape mixed_project (built mixed_project) [] Hshape).
Defined.

(** X6. Every key of the Doc Index of a fresh agent is the name of a
  module inside a package: it starts with the name of a top-level unit of
  the graph and a dot. No package, and no source file outside a package,
  has an entry of its own: [get_module_doc] answers a name without a dot
  with "does not exist". *)
Theorem doc_index_keys_are_dotted (project : fsnode) (k : string) :
  (is_Some (module_doc_dict (built project) !! k) →
   contains_char dot_char k = true
   ∧ ∃ top, top ∈ PyDict.keys (module_dict (built project))
            ∧ startswith k (top +:+ ".") = true)
  ∧ (contains_char dot_char k = false →
     (get_module_doc (built project) k).1
     = "Module " +:+ k +:+ " does not exist").
Proof.
  assert (is_Some (module_doc_dict (built project) !! k) →
          ∃ top, top ∈ PyDict.keys (module_dict (built project))
                 ∧ startswith k (top +:+ ".") = true) as Hkeys.
  { destruct (PassFacts.gen_module_dict_merge project) as (es & w & H).
    assert (built project
            = {| module_dict := PyDict.update [] es;
                 module_doc_dict :=
                   _generate_module_doc_dict (PDict (PyDict.update [] es)) ∅ |})
      as Hbuilt by (unfold built, run, new_agent; by rewrite H).
    pose proof (GraphFacts.built_pass_graph project) as Hshape.
    rewrite Hbuilt in Hshape |- *. cbn [module_dict module_doc_dict] in *.
    intros Hk.
    destruct (GraphFacts.generate_module_doc_dict_keys _ _ ∅ eq_refl Hshape k Hk)
      as [Hempty|Hbelow]; [|done].
    rewrite lookup_empty in Hempty. by destruct Hempty. }
  split.
  - intros Hk. destruct (Hkeys Hk) as (top & Htop & Hbelow).
    split; [by eapply GraphFacts.startswith_dotted|by exists top].
  - intros Hdot. unfold get_module_doc.
    destruct (module_doc_dict (built project) !! k) as [doc|] eqn:E; [|done].
    destruct (Hkeys (mk_is_Some _ _ eq_refl)) as (top & _ & Hbelow).
    apply GraphFacts.startswith_dotted in Hbelow. congruence.
Qed.

Lemma doc_index_keys_are_dotted_witness :
  is_Some (module_doc_dict (built mixed_project) !! "app.models")
  ∧ contains_char dot_char "app.models" = true
  ∧ contains_char dot_char "main" = false
  ∧ (get_module_doc (built mixed_project) "main").1 = "Module main does not exist".
Proof.
  assert (is_Some (module_doc_dict (built mixed_project) !! "app.models")) as Hk
    by (vm_compute; by eexists).
  assert (contains_char dot_char "main" = false) as Hmain by reflexivity.
  split; [exact Hk|]. split.
  - exact (proj1 (proj1 (doc_index_keys_are_dotted mixed_project "app.models") Hk)).
  - split; [exact Hmain|].
    exact (proj2 (doc_index_keys_are_dotted mixed_project "main") Hmain).
Defined.

(** ** The skip list of the package walker *)

(** X7. The skip list acts on whole top-level packages only. Inside a
  package whose name starts with none of the prefixes [docs], [test] and
  [tests] nothing is skipped, at any depth: the walk gives what it gives
  with an empty skip list, so a sub-package such as [app.tests] is
  recorded. *)
Theorem skip_list_is_inert_inside_a_package (fuel : nat) (project : fsnode)
        (module : loaded) (skip_modules : list string) (log : list log_entry) :
  Forall (λ p, contains_char dot_char p = false) skip_modules →
  any_startswith (mod_name (ld_module module)) skip_modules = false →
  _process_package fuel project module skip_modules log
  = _process_package fuel project module [] log.
Proof. apply SkipFacts.process_package_skip_inert. Qed.

Lemma skip_list_is_inert_inside_a_package_witness :
  let skip_modules := ["docs"; "test"; "tests"] in
  Forall (λ p, contains_char dot_char p = false) skip_modules
  ∧ any_startswith "app" skip_modules = false
  ∧ _process_package 3 (Folder "project" [app_with_tests_folder])
                     app_with_tests_package skip_modules []
    = _process_package 3 (Folder "project" [app_with_tests_folder])
                       app_with_tests_package [] []
  ∧ lookup_path ["app"; "children"; "app.tests"; "module"; "app.tests.test_models";
                 "app.tests.test_models.test_save"; "doc"]
                (graph (built (Folder "project" [app_with_tests_folder])))
    = PNone
  ∧ dict_has "app.tests.test_models.test_save"
      (lookup_path ["app"; "children"; "app.tests"; "module"; "app.tests.test_models"]
                   (graph (built (Folder "project" [app_with_tests_folder]))))
    = true.
Proof.
  intros skip_modules.
  assert (Forall (λ p, contains_char dot_char p = false) skip_modules) as Hskip
    by (by repeat constructor).
  assert (any_startswith "app" skip_modules = false) as Hname by reflexivity.
  split; [exact Hskip|]. split; [exact Hname|]. split.
  - exact (skip_list_is_inert_inside_a_package
             3 (Folder "project" [app_with_tests_folder])
             app_with_tests_package skip_modules [] Hskip Hname).
  - split; vm_compute; reflexivity.
Defined.

(** X8. A package whose own name starts with one of the prefixes of the
  skip list gives no entry, whatever it holds: every unit below it is
  skipped, so the walk returns the empty mapping and logs nothing, unless
  the walk itself raises. A package named [testing] or [docs_tools] is
  left out of the graph. *)
Theorem package_named_like_a_skip_prefix_is_dropped (fuel : nat)
        (project : fsnode) (module : loaded) (skip_modules : list string)
        (log : list log_entry) :
  Forall (λ p, contains_char dot_char p = false) skip_modules →
  any_startswith (mod_name (ld_module module)) skip_modules = true →
  _process_package fuel project module skip_modules log = (inr [], log)
  ∨ ∃ e, _process_package fuel project module skip_modules log = (inl e, log).
Proof. apply SkipFacts.process_package_skipped. Qed.

Lemma package_named_like_a_skip_prefix_is_dropped_witness :
  let skip_modules := ["docs"; "test"; "tests"] in
  Forall (λ p, contains_char dot_char p = false) skip_modules
  ∧ any_startswith "testing" skip_modules = true
  ∧ (_process_package 2 testing_project testing_package skip_modules []
     = (inr [], [])
     ∨ ∃ e, _process_package 2 testing_project testing_package skip_modules []
            = (inl e, []))
  ∧ module_dict (built testing_project) = [].
Proof.
  intros skip_modules.
  assert (Forall (λ p, contains_char dot_char p = false) skip_modules) as Hskip
    by (by repeat constructor).
  assert (any_startswith "testing" skip_modules = true) as Hname by reflexivity.
  split; [exact Hskip|]. split; [exact Hname|]. split.
  - exact (package_named_like_a_skip_prefix_is_dropped
             2 testing_project testing_package skip_modules [] Hskip Hname).
  - vm_compute. reflexivity.
Defined.

(** ** Docstrings and the project structure *)

(** X9. On the graph of a discovery pass [_generate_docstring] raises
  nothing and calls the docstring manager once for every top-level unit,
  in the order of the graph: [traverse] on the module object of a package,
  [modify_docstring] on the module object of a loose source file, which is
  the object that was created for the file and never executed. *)
Theorem generate_docstring_calls (items : list (string * pyval)) :
  pass_graph items →
  ∃ calls,
    _generate_docstring items = (calls, None)
    ∧ Forall2 (λ kv call,
                 (package_node kv.1 kv.2
                  ∧ ∃ m, mod_name m = kv.1 ∧ call = Traverse (PObj (ModuleObj m)))
                 ∨ (loose_node kv
                    ∧ call = ModifyDocstring (PObj (ModuleObj (empty_module kv.1)))))
              items calls.
Proof.
  induction 1 as [|[name node] items Hnode _ (calls & Hrun & Hcalls)].
  - exists []. by split; [|constructor].
  - cbn [_generate_docstring]. rewrite Hrun. cbn [fst snd] in *.
    destruct Hnode as [Hnode|Hnode].
    + inversion Hnode as [n m children modules Hm ? ? ? ? ? Hn Hinfo]. subst n node.
      rewrite UpkeepFacts.manager_call_for_package. eexists. split; [done|].
      constructor; [|done]. left. split; [done|]. by exists m.
    + unfold loose_node in Hnode. cbn [fst snd] in Hnode. subst node.
      rewrite UpkeepFacts.manager_call_for_loose. eexists. split; [done|].
      constructor; [|done]. by right.
Qed.

Lemma generate_docstring_calls_witness :
  pass_graph (module_dict (built mixed_project))
  ∧ (_generate_docstring (module_dict (built mixed_project))).2 = None
  ∧ length (_generate_docstring (module_dict (built mixed_project))).1 = 2.
Proof.
  pose proof (GraphFacts.built_pass_graph mixed_project) as Hshape.
  split; [exact Hshape|].
  destruct (generate_docstring_calls _ Hshape) as (calls & Hrun & Hcalls).
  rewrite Hrun. split; [reflexivity|]. cbn [fst].
  apply Forall2_length in Hcalls. rewrite <-Hcalls. vm_compute. reflexivity.
Defined.

(** X10. On the graph of a discovery pass [_analyze_project_structure]
  returns. The agent keeps its Doc Index and the names of its top-level
  units in their order; every top-level unit has lost its [obj]; what is
  under the [module] key of a unit is exactly what it was, module objects
  included; and a second call changes nothing more. *)
Theorem analyze_project_structure_strips_units (self : GitAgent) :
  pass_graph (module_dict self) →
  ∃ self',
    _analyze_project_structure self = inr self'
    ∧ module_doc_dict self' = module_doc_dict self
    ∧ PyDict.keys (module_dict self') = PyDict.keys (module_dict self)
    ∧ Forall (λ kv, dict_has "obj" kv.2 = false) (module_dict self')
    ∧ (∀ name, lookup_path [name; "module"] (graph self')
               = lookup_path [name; "module"] (graph self))
    ∧ _analyze_project_structure self' = inr self'.
Proof.
  intros Hshape.
  destruct (UpkeepFacts.pro_dict_pass_graph _ _ eq_refl Hshape)
    as (items' & Hrun & Hagain & Hrel).
  exists {| module_dict := items'; module_doc_dict := module_doc_dict self |}.
  unfold _analyze_project_structure, graph. cbn [module_dict module_doc_dict].
  rewrite Hrun, Hagain. split_and!; try done.
  - unfold PyDict.keys. clear -Hrel.
    induction Hrel as [|kv kv' l l' (Hk & _) _ IH]; [done|].
    rewrite !fmap_cons. by f_equal.
  - clear -Hrel. induction Hrel as [|kv kv' l l' (_ & _ & Ho & _) _ IH];
      by constructor.
  - intros name. cbn [lookup_path fold_left dict_get]. clear -Hrel.
    induction Hrel as [|[k v] [k' v'] l l' (Hk & _ & _ & Hm) _ IH]; [done|].
    cbn [fst snd] in *. subst k'. cbn [PyDict.get].
    destruct (String.eqb name k); [exact Hm|exact IH].
Qed.

Lemma analyze_project_structure_strips_units_witness :
  pass_graph (module_dict (built mixed_project))
  ∧ ∃ self',
      _analyze_project_structure (built mixed_project) = inr self'
      ∧ module_doc_dict self' = module_doc_dict (built mixed_project)
      ∧ PyDict.keys (module_dict self') = PyDict.keys (module_dict (built mixed_project))
      ∧ Forall (λ kv, dict_has "obj" kv.2 = false) (module_dict self')
      ∧ (∀ name, lookup_path [name; "module"] (graph self')
                 = lookup_path [name; "module"] (graph (built mixed_project)))
      ∧ _analyze_project_structure self' = inr self'.
Proof.
  pose proof (GraphFacts.built_pass_graph mixed_project) as Hshape.
  split; [exact Hshape|].
  exact (analyze_project_structure_strips_units (built mixed_project) Hshape).
Defined.

(** X11. After [_analyze_project_structure] the agent cannot generate
  docstrings any more: on the graph that it leaves, when the graph has any
  unit, [_generate_docstring] raises [KeyError] for [obj] at the first
  unit, before any call to the docstring manager. *)
Theorem generate_docstring_fails_after_analysis (self self' : GitAgent) :
  pass_graph (module_dict self) →
  module_dict self ≠ [] →
  _analyze_project_structure self = inr self' →
  _generate_docstring (module_dict self') = ([], Some (KeyError "obj")).
Proof.
  intros Hshape Hne.
  destruct (UpkeepFacts.pro_dict_pass_graph _ _ eq_refl Hshape)
    as (items' & Hrun & _ & Hrel).
  unfold _analyze_project_structure, graph. rewrite Hrun. intros [= <-].
  cbn [module_dict].
  destruct Hrel as [|kv [k' v'] l l' (_ & Hd & Ho & _) _]; [done|].
  cbn [_generate_docstring fst snd] in *.
  by rewrite UpkeepFacts.manager_call_for_no_obj.
Qed.

Lemma generate_docstring_fails_after_analysis_witness :
  pass_graph (module_dict (built mixed_project))
  ∧ module_dict (built mixed_project) ≠ []
  ∧ ∃ self',
      _analyze_project_structure (built mixed_project) = inr self'
      ∧ _generate_docstring (module_dict self') = ([], Some (KeyError "obj")).
Proof.
  pose proof (GraphFacts.built_pass_graph mixed_project) as Hshape.
  assert (module_dict (built mixed_project) ≠ []) as Hne by (vm_compute; discriminate).
  split; [exact Hshape|]. split; [exact Hne|].
  destruct (_analyze_project_structure (built mixed_project)) as [e|self'] eqn:E.
  - exfalso. revert E. vm_compute. discriminate.
  - exists self'. split; [reflexivity|].
    exact (generate_docstring_fails_after_analysis
             (built mixed_project) self' Hshape Hne E).
Defined.

(** ** Requirements *)

(** X12. The loop that prunes the dependencies, on a list without
  duplicates (the list comes from a set). What is written is what
  [survivors] describes: the loop removes nothing but items that start
  with the name of a top-level unit of the graph, it keeps the order, and
  every item that starts with no such name is written. When no two such
  items stand next to each other, the loop removes all of them. *)
Theorem requirements_loop (self : GitAgent) (dependencies : list string) :
  NoDup dependencies →
  let project_modules := PyDict.keys (module_dict self) in
  let kept := survivors project_modules dependencies in
  _generate_requirements false dependencies self = Some (join nl kept)
  ∧ sublist kept dependencies
  ∧ (∀ dep, dep ∈ dependencies →
            any_startswith dep project_modules = false → dep ∈ kept)
  ∧ (no_two_in_a_row project_modules dependencies = true →
     kept = filter (λ dep, any_startswith dep project_modules = false)
                   dependencies).
Proof.
  intros Hnd project_modules kept. split_and!.
  - unfold _generate_requirements. do 2 f_equal.
    by apply (UpkeepFacts.remove_loop_survivors _ _ []).
  - apply UpkeepFacts.survivors_sublist.
  - intros dep. apply UpkeepFacts.survivors_keeps.
  - apply UpkeepFacts.survivors_filter.
Qed.

Lemma requirements_loop_witness :
  let dependencies := ["numpy"; "app"; "requests"; "yaml"] in
  NoDup dependencies
  ∧ no_two_in_a_row (PyDict.keys (module_dict (built app_project))) dependencies
    = true
  ∧ _generate_requirements false dependencies (built app_project)
    = Some ("numpy" +:+ nl +:+ "requests" +:+ nl +:+ "yaml").
Proof.
  intros dependencies.
  assert (NoDup dependencies) as Hnd by (apply (bool_decide_unpack _); vm_compute; exact I).
  split; [exact Hnd|]. split; [vm_compute; reflexivity|].
  rewrite (proj1 (requirements_loop (built app_project) dependencies Hnd)).
  vm_compute. reflexivity.
Defined.

(** X13. The loop passes over the item that follows an item it removes.
  When the iterator reaches an item that starts with the name of a project
  unit, the item is removed and the next item of the list is written to
  [requirements.txt] without being tested, whether or not it starts with
  the name of a project unit itself. *)
Theorem requirements_loop_passes_over_the_next_item (self : GitAgent)
        (before : list string) (dep next : string) (rest : list string) :
  let project_modules := PyDict.keys (module_dict self) in
  NoDup (before ++ dep :: next :: rest) →
  Forall (λ d, any_startswith d project_modules = false) before →
  any_startswith dep project_modules = true →
  _generate_requirements false (before ++ dep :: next :: rest) self
  = Some (join nl (before ++ next :: survivors project_modules rest)).
Proof.
  intros project_modules Hnd Hbefore Hdep.
  unfold _generate_requirements. do 2 f_equal. fold project_modules.
  etrans; [by apply (UpkeepFacts.remove_loop_survivors _ _ [])|].
  rewrite UpkeepFacts.survivors_app_untouched by done.
  cbn [survivors]. by rewrite Hdep.
Qed.

Lemma requirements_loop_passes_over_the_next_item_witness :
  let self := built app_project in
  let project_modules := PyDict.keys (module_dict self) in
  NoDup (["numpy"] ++ "app" :: "app.models" :: ["yaml"])
  ∧ Forall (λ d, any_startswith d project_modules = false) ["numpy"]
  ∧ any_startswith "app" project_modules = true
  ∧ any_startswith "app.models" project_modules = true
  ∧ _generate_requirements false (["numpy"] ++ "app" :: "app.models" :: ["yaml"]) self
    = Some ("numpy" +:+ nl +:+ "app.models" +:+ nl +:+ "yaml").
Proof.
  intros self project_modules.
  assert (NoDup (["numpy"] ++ "app" :: "app.models" :: ["yaml"])) as Hnd
    by (apply (bool_decide_unpack _); vm_compute; exact I).
  assert (Forall (λ d, any_startswith d project_modules = false) ["numpy"])
    as Hbefore by (by repeat constructor).
  assert (any_startswith "app" project_modules = true) as Hdep by reflexivity.
  split; [exact Hnd|]. split; [exact Hbefore|]. split; [exact Hdep|].
  split; [reflexivity|].
  rewrite (requirements_loop_passes_over_the_next_item
             self ["numpy"] "app" "app.models" ["yaml"] Hnd Hbefore Hdep).
  vm_compute. reflexivity.
Defined.

(** X14. The names that [_analyze_dependencies] returns, when it returns:
  exactly the names that some line of some [.py] file adds, a line being
  one that starts at its first column with [import ] or [from ]; the name
  is the part of the second word of the line before its first dot. No
  name of the standard library is returned, and no returned name holds a
  dot or white space. *)
Theorem analyze_dependencies_names (stdlib_module_names : gset string)
        (files : list (string * (failure + string))) (dependencies : gset string) :
  _analyze_dependencies stdlib_module_names files = inr dependencies →
  ∀ module,
    (module ∈ dependencies ↔
     ∃ file content line,
       (file, inr content) ∈ files ∧ endswith file ".py" = true
       ∧ line ∈ split newline_char content
       ∧ imported_name stdlib_module_names line = inr (Some module))
    ∧ (module ∈ dependencies →
       (module ∉ stdlib_module_names)
       ∧ contains_char dot_char module = false
       ∧ has_space module = false).
Proof.
  intros Hrun module.
  pose proof (UpkeepFacts.scan_sources_spec _ _ _ _ Hrun module) as Hspec.
  assert (module ∈ dependencies ↔
          ∃ file content line,
            (file, inr content) ∈ files ∧ endswith file ".py" = true
            ∧ line ∈ split newline_char content
            ∧ imported_name stdlib_module_names line = inr (Some module)) as Hiff.
  { rewrite Hspec. split; [|by right]. intros [Hin|?]; [|done].
    by apply elem_of_empty in Hin. }
  split; [exact Hiff|]. intros (file & content & line & _ & _ & _ & Hline)%Hiff.
  by eapply UpkeepFacts.imported_name_spec.
Qed.

Lemma analyze_dependencies_names_witness :
  let stdlib_module_names : gset string := {[ "os"; "sys" ]} in
  let files := [("app.py", inr ("import os" +:+ nl +:+ "import numpy.linalg as la"
                                +:+ nl +:+ "    import yaml"));
                ("notes.txt", inr "import requests")] in
  _analyze_dependencies stdlib_module_names files = inr {[ "numpy" ]}
  ∧ ("numpy" ∉ stdlib_module_names)
  ∧ contains_char dot_char "numpy" = false
  ∧ has_space "numpy" = false.
Proof.
  intros stdlib_module_names files.
  assert (_analyze_dependencies stdlib_module_names files = inr {[ "numpy" ]})
    as Hrun by (vm_compute; reflexivity).
  split; [exact Hrun|].
  apply (proj2 (analyze_dependencies_names stdlib_module_names files _ Hrun "numpy")).
  by apply elem_of_singleton.
Defined.

(** X15. A relative import adds the empty name. When a [.py] file holds
  a line that starts with [from .] and the analysis returns, the empty
  string is among the dependencies. *)
Theorem relative_import_adds_the_empty_name (stdlib_module_names : gset string)
        (files : list (string * (failure + string))) (dependencies : gset string)
        (file content line : string) :
  (file, inr content) ∈ files →
  endswith file ".py" = true →
  line ∈ split newline_char content →
  startswith line "from ." = true →
  "" ∉ stdlib_module_names →
  _analyze_dependencies stdlib_module_names files = inr dependencies →
  "" ∈ dependencies.
Proof.
  intros Hfile Hpy Hline Hrel Hstd Hrun.
  apply (UpkeepFacts.scan_sources_spec _ _ _ _ Hrun). right.
  exists file, content, line. split_and!; try done.
  by apply UpkeepFacts.imported_name_relative.
Qed.

Lemma relative_import_adds_the_empty_name_witness :
  let stdlib_module_names : gset string := {[ "os"; "sys" ]} in
  let content := "import os" +:+ nl +:+ "from .models import User" in
  let files : list (string * (failure + string)) := [("views.py", inr content)] in
  _analyze_dependencies stdlib_module_names files = inr {[ "" ]}
  ∧ "" ∈ ({[ "" ]} : gset string).
Proof.
  intros stdlib_module_names content files.
  assert (_analyze_dependencies stdlib_module_names files = inr {[ "" ]})
    as Hrun by (vm_compute; reflexivity).
  split; [exact Hrun|].
  refine (relative_import_adds_the_empty_name
            stdlib_module_names files {[ "" ]} "views.py" content
            "from .models import User" _ _ _ _ _ Hrun).
  - left.
  - reflexivity.
  - vm_compute. right. left.
  - reflexivity.
  - apply (bool_decide_unpack _). vm_compute. exact I.
Defined.

(** ** The tree renderer and the tools *)

(** X16. The rendered tree depends on the segment-paths of the names
  alone: two collections with the same segment-paths give the same text.
  A name that is a dotted prefix of another one, such as a package next to
  its module, adds nothing to the text. *)
Theorem render_tree_depends_on_segment_paths (names names' : list string) :
  (∀ p, p ∈ segment_paths names ↔ p ∈ segment_paths names') →
  _generate_project_tree names = _generate_project_tree names'.
Proof.
  intros Hpaths. unfold _generate_project_tree. f_equal.
  apply TreeFacts.process_tree_dict_equiv; try apply TreeFacts.build_tree_dict_wf.
  intros p. by rewrite !TreeFacts.build_tree_dict_paths.
Qed.

Lemma render_tree_depends_on_segment_paths_witness :
  (∀ p, p ∈ segment_paths ["app.models"; "app.views"]
        ↔ p ∈ segment_paths ["app"; "app.views"; "app.models"; "app"])
  ∧ _generate_project_tree ["app.models"; "app.views"]
    = _generate_project_tree ["app"; "app.views"; "app.models"; "app"].
Proof.
  assert (∀ p, p ∈ segment_paths ["app.models"; "app.views"]
               ↔ p ∈ segment_paths ["app"; "app.views"; "app.models"; "app"])
    as Hpaths.
  { intros p.
    replace (segment_paths ["app.models"; "app.views"])
      with [["app"; "models"]; ["app"]; ["app"; "views"]]
      by (vm_compute; reflexivity).
    replace (segment_paths ["app"; "app.views"; "app.models"; "app"])
      with [["app"; "views"]; ["app"; "models"]; ["app"]]
      by (vm_compute; reflexivity).
    rewrite !elem_of_cons, !elem_of_nil. naive_solver. }
  split; [exact Hpaths|].
  exact (render_tree_depends_on_segment_paths _ _ Hpaths).
Defined.

(** X17. [write_doc] writes below the text of the project path: the
  target is the project path, a separator unless the path is empty or
  ends with one, and the given path without the slashes at its two ends.
  An absolute path never replaces the project path. Segments such as [..]
  are left as they are. *)
Theorem write_doc_target_is_rooted (project_path path : string) :
  write_doc_target project_path path
  = project_path
    +:+ (if String.eqb project_path "" || endswith project_path "/"
         then "" else "/")
    +:+ strip "/" path
  ∧ startswith (write_doc_target project_path path) project_path = true
  ∧ startswith (strip "/" path) "/" = false.
Proof.
  assert (startswith (strip "/" path) "/" = false) as Hstrip.
  { unfold strip. apply UpkeepFacts.rstrip_head, UpkeepFacts.lstrip_head. }
  assert (write_doc_target project_path path
          = project_path
            +:+ (if String.eqb project_path "" || endswith project_path "/"
                 then "" else "/")
            +:+ strip "/" path) as Heq.
  { unfold write_doc_target, os_path_join. rewrite Hstrip.
    by destruct (_ || _). }
  split; [exact Heq|]. split; [|exact Hstrip].
  rewrite Heq. apply GraphFacts.prefix_app.
Qed.

(** X18. [_analyze_dependencies] returns exactly when every [.py] file
  below the project can be read and every import line in it, a line that
  starts at its first column with [import ] or [from ], has a second word;
  otherwise it raises, and no list of dependencies is made. Files with
  another ending are not opened. *)
Theorem analyze_dependencies_returns (stdlib_module_names : gset string)
        (files : list (string * (failure + string))) :
  (∃ dependencies,
     _analyze_dependencies stdlib_module_names files = inr dependencies)
  ↔ forallb source_ok files = true.
Proof. apply UpkeepFacts.scan_sources_returns. Qed.

Lemma analyze_dependencies_returns_witness :
  let stdlib_module_names : gset string := {[ "os"; "sys" ]} in
  (∃ dependencies,
     _analyze_dependencies stdlib_module_names
       [("a.py", inr ("import os" +:+ nl +:+ "x = 1")); ("b.bin", inl ReadError)]
     = inr dependencies)
  ∧ _analyze_dependencies stdlib_module_names [("a.py", inr "from ")]
    = inl IndexError.
Proof.
  intros stdlib_module_names. split.
  - apply (proj2 (analyze_dependencies_returns stdlib_module_names _)).
    reflexivity.
  - reflexivity.
Defined.

(** X19. What the tool [get_module_doc] answers after a later pass starts
  with what the Doc Index held before the pass: the answer is the first
  2000 characters of the old text followed by the new one. When the old
  text has 2000 characters or more the answer is the one from before the
  pass, so the documentation found by the later pass is not shown. *)
Theorem get_module_doc_after_a_pass (project : fsnode) (self : GitAgent)
        (log : list log_entry) (k v : string) :
  module_doc_dict self !! k = Some v →
  ∃ self' log' t,
    _gen_module_dict project self log = (inr self', log')
    ∧ module_doc_dict self' !! k = Some (v +:+ t)
    ∧ (get_module_doc self' k).1 = slice_to 2000 (v +:+ t)
    ∧ (2000 ≤ String.length v →
       (get_module_doc self' k).1 = (get_module_doc self k).1).
Proof.
  intros Hk. destruct (PassFacts.gen_module_dict_merge project) as (es & w & H).
  assert (∃ t, _generate_module_doc_dict
                 (PDict (PyDict.update (module_dict self) es))
                 (module_doc_dict self) !! k = Some (v +:+ t)) as [t Ht].
  { pose proof (FlattenFacts.generate_module_doc_dict_append
                  (PDict (PyDict.update (module_dict self) es))
                  (module_doc_dict self) ∅) as Happ.
    rewrite FlattenFacts.append_docs_empty_r in Happ. rewrite Happ.
    unfold append_docs. rewrite lookup_union_with, Hk.
    destruct (_generate_module_doc_dict _ ∅ !! k) as [t|]; cbn; [by exists t|].
    exists "". by rewrite FlattenFacts.app_nil_r. }
  eexists _, _, t. split; [apply H|]. cbn [module_doc_dict].
  split; [exact Ht|]. unfold get_module_doc. cbn [module_doc_dict].
  rewrite Ht, Hk. cbn [fst]. split; [done|].
  apply UpkeepFacts.slice_to_app.
Qed.

Lemma get_module_doc_after_a_pass_witness :
  let v := "# app.models:" +:+ nl +:+ nl +:+ nl
           +:+ "## User:" +:+ nl +:+ nl +:+ nl
           +:+ "### User.save:" +:+ nl +:+ "Persists the user" +:+ nl +:+ nl in
  module_doc_dict (built app_project) !! "app.models" = Some v
  ∧ ∃ self' log' t,
      _gen_module_dict app_project (built app_project) [] = (inr self', log')
      ∧ module_doc_dict self' !! "app.models" = Some (v +:+ t).
Proof.
  intros v.
  assert (module_doc_dict (built app_project) !! "app.models" = Some v) as Hk
    by (vm_compute; reflexivity).
  split; [exact Hk|].
  destruct (get_module_doc_after_a_pass app_project (built app_project) []
              "app.models" v Hk) as (self' & log' & t & Hrun & Ht & _).
  by exists self', log', t.
Defined.
